(** * History processors of SWE-agent (sweagent/agent/history_processors.py)

    A shallow embedding of the seven history processors and of the helper
    functions they share, followed by the properties of the processors.

    Conventions of the embedding.
    - A Python [str] is a [text], a list of characters.  Characters are the
      code points below 256, so [\d], [\s] and [str.splitlines] are the
      restrictions of Python's Unicode classes to that range.
    - A history entry is a record; the keys read by the processors are its
      fields.  A key read with [entry.get(k, default)] is an [option] field
      (or, for [is_demo], a boolean whose absence reads as [false]).
    - Exceptions are values of [Error]; a function that can raise returns a
      [Result].
    - The processors that mutate their argument in place are given over a
      store of entry objects ([gmap loc HistoryItem]); a history is then a list
      of references.  All processors also have a by-value reading. *)

From Stdlib Require Import ZArith Ascii String DecimalString Lia.
From stdpp Require Import base option list gmap strings.

Local Open Scope Z_scope.

(* ================================================================== *)
(** ** Exceptions *)

Inductive Error : Type :=
| AssertionError
| ZeroDivisionError
| IndexError
| KeyError
| TypeError
| Dangling.   (* a reference outside the store; Python rules it out *)

Inductive Result (A : Type) : Type :=
| Ok (a : A)
| Raise (e : Error).
Arguments Ok {A} a.
Arguments Raise {A} e.

#[global] Instance Result_ret : MRet Result := fun A a => Ok a.
#[global] Instance Result_bind : MBind Result := fun A B f m =>
  match m with
  | Ok a => f a
  | Raise e => Raise e
  end.

Definition assert (b : bool) : Result unit :=
  if b then Ok tt else Raise AssertionError.

(** [for x in xs: acc = body(acc, x)], stopping at the first exception. *)
Fixpoint for_each {A S : Type} (body : S -> A -> Result S) (xs : list A) (acc : S)
  : Result S :=
  match xs with
  | [] => Ok acc
  | x :: xs' => acc' ← body acc x; for_each body xs' acc'
  end.

(* ================================================================== *)
(** ** Text *)

Abbreviation text := (list ascii).

(** A string literal as a [text]. *)
Definition str (s : string) : text := list_ascii_of_string s.

Definition LF : ascii := "010"%char.
Definition CR : ascii := "013"%char.

(** [str(n)] for an integer, as used by f-strings. *)
Definition str_of_nat (n : nat) : text :=
  str (NilZero.string_of_uint (Nat.to_uint n)).

(** Python slices [s[:i]], [s[i:]] and [s[i:j]] for [0 <= i <= j]. *)
Definition upto (i : nat) (s : text) : text := take i s.
Definition from (i : nat) (s : text) : text := drop i s.
Definition slice (i j : nat) (s : text) : text := take (j - i)%nat (drop i s).

(** *** [str.splitlines]

    The line boundaries are LF, CR, CR LF, VT, FF, FS, GS, RS and NEL; a
    final line without a boundary counts when it is not empty. *)

Definition is_linebreak (c : ascii) : bool :=
  match nat_of_ascii c with
  | 10%nat | 11%nat | 12%nat | 13%nat | 28%nat | 29%nat | 30%nat | 133%nat => true
  | _ => false
  end.

(** [cur] is the current line, reversed; [after_cr] says that the previous
    character was a CR, so that a LF now belongs to the same boundary. *)
Fixpoint splitlines_from (cur : text) (after_cr : bool) (s : text) : list text :=
  match s with
  | [] => match cur with [] => [] | _ => [rev cur] end
  | c :: s' =>
      if after_cr && bool_decide (c = LF) then splitlines_from cur false s'
      else if is_linebreak c
           then rev cur :: splitlines_from [] (bool_decide (c = CR)) s'
           else splitlines_from (c :: cur) false s'
  end.

Definition splitlines (s : text) : list text := splitlines_from [] false s.

(* ================================================================== *)
(** ** Regular expressions ([re])

    The patterns of the source are written in the abstract syntax below and
    run by a backtracking matcher with the priorities of Python's engine:
    alternatives left to right, greedy repetition longest first, lazy
    repetition shortest first. *)

Record Flags : Type := { MULTILINE : bool; DOTALL : bool }.

Definition NOFLAG : Flags := {| MULTILINE := false; DOTALL := false |}.

Inductive regex : Type :=
| Lit (a : ascii)              (* a literal character *)
| Dot                          (* [.] *)
| Digit                        (* [\d] *)
| Space                        (* [\s] *)
| NoneOf (cs : list ascii)     (* [[^...]] *)
| Bol                          (* [^] *)
| Eol                          (* [$] *)
| Empty
| Cat (r1 r2 : regex)
| Alt (r1 r2 : regex)          (* [r1|r2] *)
| Star (greedy : bool) (r : regex)   (* [r*] and [r*?] *)
| Group (n : nat) (r : regex). (* the [n]-th capturing group *)

(** [r+] and [r+?]. *)
Definition Plus (greedy : bool) (r : regex) : regex := Cat r (Star greedy r).

Definition Seq (rs : list regex) : regex := foldr Cat Empty rs.

(** A literal string. *)
Definition Lits (s : string) : regex := Seq (Lit <$> str s).

Definition is_digit (c : ascii) : bool :=
  let n := nat_of_ascii c in (48 <=? n)%nat && (n <=? 57)%nat.

Definition is_space (c : ascii) : bool :=
  let n := nat_of_ascii c in
  ((9 <=? n)%nat && (n <=? 13)%nat) || ((28 <=? n)%nat && (n <=? 32)%nat)
  || (n =? 133)%nat || (n =? 160)%nat.

(** The spans of the capturing groups, [(start, end)] by group number. *)
Abbreviation captures := (gmap nat (nat * nat)).

Section Matcher.
Variable fl : Flags.
Variable s : text.

Definition at_bol (i : nat) : bool :=
  match i with
  | O => true
  | S i' => MULTILINE fl && bool_decide (s !! i' = Some LF)
  end.

Definition at_eol (i : nat) : bool :=
  (i =? length s)%nat
  || (if MULTILINE fl then bool_decide (s !! i = Some LF)
      else (S i =? length s)%nat && bool_decide (s !! i = Some LF)).

(** One character at position [i] passing the test [p]. *)
Definition one (p : ascii -> bool) (i : nat) (c : captures)
    (k : nat -> captures -> option (nat * captures)) : option (nat * captures) :=
  match s !! i with
  | Some a => if p a then k (S i) c else None
  | None => None
  end.

(** The iterations of [r*] (greedy) and [r*?] (lazy), [body] being the
    matcher of [r].  As in Python's engine, an iteration that consumed input
    is followed by the next turn of the loop, and an iteration that matched
    the empty string is accepted and followed by the rest of the pattern
    without another iteration.  Every further turn starts later in [s], so
    [length s] turns are enough and the branch for no [fuel] is not
    reached. *)
Fixpoint star_loop
    (body : nat -> captures -> (nat -> captures -> option (nat * captures))
            -> option (nat * captures))
    (greedy : bool) (k : nat -> captures -> option (nat * captures))
    (fuel : nat) (i : nat) (c : captures) {struct fuel}
  : option (nat * captures) :=
  let again j c' :=
    if (i <? j)%nat then
      match fuel with
      | O => k j c'
      | S fuel' => star_loop body greedy k fuel' j c'
      end
    else k j c' in
  if greedy then
    match body i c again with
    | Some res => Some res
    | None => k i c
    end
  else
    match k i c with
    | Some res => Some res
    | None => body i c again
    end.

(** [re_match r i c k]: match [r] from position [i] with captures [c] and
    continue with [k]; [None] makes the matcher backtrack. *)
Fixpoint re_match (r : regex) (i : nat) (c : captures)
    (k : nat -> captures -> option (nat * captures)) : option (nat * captures) :=
  match r with
  | Lit a => one (fun b => bool_decide (a = b)) i c k
  | Dot => one (fun b => DOTALL fl || negb (bool_decide (b = LF))) i c k
  | Digit => one is_digit i c k
  | Space => one is_space i c k
  | NoneOf cs => one (fun b => negb (bool_decide (b ∈ cs))) i c k
  | Bol => if at_bol i then k i c else None
  | Eol => if at_eol i then k i c else None
  | Empty => k i c
  | Cat r1 r2 => re_match r1 i c (fun j c' => re_match r2 j c' k)
  | Alt r1 r2 =>
      match re_match r1 i c k with
      | Some res => Some res
      | None => re_match r2 i c k
      end
  | Star greedy r1 => star_loop (re_match r1) greedy k (length s) i c
  | Group n r1 => re_match r1 i c (fun j c' => k j (<[n := (i, j)]> c'))
  end.

(** What it means for [r] to match from position [i] to position [j],
    taking the captures [c] to [c'], whatever the order in which the matcher
    tries the alternatives. *)
Inductive matches : regex -> nat -> captures -> nat -> captures -> Prop :=
| matches_Lit a i c :
    s !! i = Some a -> matches (Lit a) i c (S i) c
| matches_Dot a i c :
    s !! i = Some a -> DOTALL fl || negb (bool_decide (a = LF)) = true ->
    matches Dot i c (S i) c
| matches_Digit a i c :
    s !! i = Some a -> is_digit a = true -> matches Digit i c (S i) c
| matches_Space a i c :
    s !! i = Some a -> is_space a = true -> matches Space i c (S i) c
| matches_NoneOf cs a i c :
    s !! i = Some a -> negb (bool_decide (a ∈ cs)) = true ->
    matches (NoneOf cs) i c (S i) c
| matches_Bol i c : at_bol i = true -> matches Bol i c i c
| matches_Eol i c : at_eol i = true -> matches Eol i c i c
| matches_Empty i c : matches Empty i c i c
| matches_Cat r1 r2 i c j c' k c'' :
    matches r1 i c j c' -> matches r2 j c' k c'' -> matches (Cat r1 r2) i c k c''
| matches_Alt_l r1 r2 i c j c' :
    matches r1 i c j c' -> matches (Alt r1 r2) i c j c'
| matches_Alt_r r1 r2 i c j c' :
    matches r2 i c j c' -> matches (Alt r1 r2) i c j c'
| matches_Star_stop g r i c : matches (Star g r) i c i c
| matches_Star_empty g r i c c' :
    matches r i c i c' -> matches (Star g r) i c i c'
| matches_Star_more g r i c j c' k c'' :
    matches r i c j c' -> (i < j)%nat -> matches (Star g r) j c' k c'' ->
    matches (Star g r) i c k c''
| matches_Group n r i c j c' :
    matches r i c j c' -> matches (Group n r) i c j (<[n := (i, j)]> c').

Record Match : Type := { m_start : nat; m_end : nat; m_groups : captures }.

(** [match.group(n)] for a group that took part in the match. *)
Definition group (mt : Match) (n : nat) : text :=
  match m_groups mt !! n with
  | Some (i, j) => slice i j s
  | None => []
  end.

(** [match.group(0)]. *)
Definition group0 (mt : Match) : text := slice (m_start mt) (m_end mt) s.

(** One attempt at position [i]; with [must_advance] an empty match is
    refused. *)
Definition match_at (r : regex) (must_advance : bool) (i : nat) : option Match :=
  match re_match r i ∅
          (fun j c => if must_advance && (j =? i)%nat then None else Some (j, c)) with
  | Some (j, c) => Some {| m_start := i; m_end := j; m_groups := c |}
  | None => None
  end.

(** [pattern.search]: the first position from [i] on where the pattern
    matches; [must_advance] holds for the first attempt only. *)
Fixpoint search_from (r : regex) (fuel : nat) (must_advance : bool) (i : nat)
  : option Match :=
  match match_at r must_advance i with
  | Some mt => Some mt
  | None =>
      match fuel with
      | O => None
      | S fuel' => search_from r fuel' false (S i)
      end
  end.

Definition search (r : regex) : option Match :=
  search_from r (length s) false 0.

(** [pattern.finditer]: the scanner restarts at the end of the previous
    match and must advance after an empty one. *)
Fixpoint finditer_from (r : regex) (fuel : nat) (must_advance : bool) (i : nat)
  : list Match :=
  match fuel with
  | O => []
  | S fuel' =>
      match search_from r (length s - i) must_advance i with
      | Some mt =>
          mt :: finditer_from r fuel' (m_end mt =? m_start mt)%nat (m_end mt)
      | None => []
      end
  end.

Definition finditer (r : regex) : list Match :=
  finditer_from r (2 * length s + 2) false 0.

(** The text left when the spans [ms] are cut out, from position [pos]. *)
Fixpoint cut_spans (ms : list Match) (pos : nat) : text :=
  match ms with
  | [] => from pos s
  | mt :: ms' => slice pos (m_start mt) s ++ cut_spans ms' (m_end mt)
  end.

(** [re.sub(r, "", s)]. *)
Definition sub_empty (r : regex) : text := cut_spans (finditer r) 0.
End Matcher.

(* ================================================================== *)
(** ** History entries (sweagent.types.History, HistoryItem)

    [History] and [HistoryItem] are declared outside this file; the fields
    below are the keys that the processors read or write, the other keys of
    an entry are carried along untouched.  The [tags] of an entry are a set:
    the code reads them with [set(...)] and writes them back with
    [list(tags)], whose order Python leaves open. *)

(** The value of a [cache_control] key, named by its ["type"]. *)
Definition CacheMarker : Type := string.
Definition ephemeral : CacheMarker := "ephemeral"%string.

(** An item of a list content: [{"type": "text", "text": ...}] or
    [{"type": "image_url", "image_url": {"url": ...}}], each with an optional
    [cache_control] key. *)
Inductive Segment : Type :=
| TextSeg (t : text) (cc : option CacheMarker)
| ImageSeg (url : text) (cc : option CacheMarker).

Inductive Content : Type :=
| Str (s : text)
| Segs (items : list Segment).

Record ToolCall : Type := { function_name : string }.

Record HistoryItem : Type := {
  role : string;
  content : Content;
  message_type : option string;
  tags : option (gset string);
  is_demo : bool;
  tool_calls : option (list ToolCall);
  cache_control : option CacheMarker;
}.

Abbreviation History := (list HistoryItem).

#[global] Instance Segment_eq_dec : EqDecision Segment.
Proof. solve_decision. Defined.
#[global] Instance Content_eq_dec : EqDecision Content.
Proof. solve_decision. Defined.
#[global] Instance ToolCall_eq_dec : EqDecision ToolCall.
Proof. solve_decision. Defined.
#[global] Instance HistoryItem_eq_dec : EqDecision HistoryItem.
Proof. solve_decision. Defined.

(** [entry["content"] = c] *)
Definition set_content (entry : HistoryItem) (c : Content) : HistoryItem :=
  {| role := role entry; content := c; message_type := message_type entry;
     tags := tags entry; is_demo := is_demo entry;
     tool_calls := tool_calls entry; cache_control := cache_control entry |}.

(** [entry["tags"] = ts] *)
Definition set_tags (entry : HistoryItem) (ts : gset string) : HistoryItem :=
  {| role := role entry; content := content entry;
     message_type := message_type entry;
     tags := Some ts; is_demo := is_demo entry;
     tool_calls := tool_calls entry; cache_control := cache_control entry |}.

(** [entry["cache_control"] = m], or [entry.pop("cache_control", None)] for
    [None]. *)
Definition set_entry_cache_control (entry : HistoryItem) (m : option CacheMarker)
  : HistoryItem :=
  {| role := role entry; content := content entry;
     message_type := message_type entry;
     tags := tags entry; is_demo := is_demo entry;
     tool_calls := tool_calls entry; cache_control := m |}.

(** [item["cache_control"] = m], or [item.pop("cache_control", None)]. *)
Definition set_item_cache_control (item : Segment) (m : option CacheMarker)
  : Segment :=
  match item with
  | TextSeg t _ => TextSeg t m
  | ImageSeg u _ => ImageSeg u m
  end.

Definition item_cache_control (item : Segment) : option CacheMarker :=
  match item with
  | TextSeg _ cc => cc
  | ImageSeg _ cc => cc
  end.

Definition is_text (item : Segment) : bool :=
  match item with TextSeg _ _ => true | ImageSeg _ _ => false end.

Definition is_image (item : Segment) : bool :=
  match item with TextSeg _ _ => false | ImageSeg _ _ => true end.

(** [a == b] on the strings that name roles and message types. *)
Definition name_eqb (a b : string) : bool := bool_decide (a = b).
Arguments name_eqb : simpl never.

(** [set(entry.get("tags", []))] *)
Definition tags_of (entry : HistoryItem) : gset string := default ∅ (tags entry).

(** [enumerate(xs)] *)
Fixpoint enumerate_from {A : Type} (i : nat) (xs : list A) : list (nat * A) :=
  match xs with
  | [] => []
  | x :: xs' => (i, x) :: enumerate_from (S i) xs'
  end.

Definition enumerate {A : Type} (xs : list A) : list (nat * A) :=
  enumerate_from 0 xs.

(** [ys = []; for x in xs: ys.append(f(x))], stopping at the first
    exception. *)
Fixpoint collect {A B : Type} (f : A -> Result B) (xs : list A) : Result (list B) :=
  match xs with
  | [] => Ok []
  | x :: xs' => y ← f x; ys ← collect f xs'; Ok (y :: ys)
  end.

(* ================================================================== *)
(** ** Utility functions *)

Definition sum_nat (ns : list nat) : nat := foldr Nat.add 0%nat ns.

Definition _get_content_stats (entry : HistoryItem) : nat * nat :=
  match content entry with
  | Str s => (length (splitlines s), 0%nat)
  | Segs items =>
      let n_text_lines :=
        sum_nat ((fun item =>
                    match item with
                    | TextSeg t _ => length (splitlines t)
                    | ImageSeg _ _ => 0%nat
                    end) <$> items) in
      let n_images := length (List.filter is_image items) in
      (n_text_lines, n_images)
  end.

Definition _get_content_text (entry : HistoryItem) : Result text :=
  match content entry with
  | Str s => Ok s
  | Segs items =>
      _ ← assert (length items =? 1)%nat;
      match items with
      | TextSeg t _ :: _ => Ok t
      | ImageSeg _ _ :: _ => Raise KeyError
      | [] => Raise IndexError
      end
  end.

Definition _clear_cache_control (entry : HistoryItem) : HistoryItem :=
  let entry :=
    match content entry with
    | Segs items =>
        set_content entry (Segs ((fun item => set_item_cache_control item None) <$> items))
    | Str _ => entry
    end in
  set_entry_cache_control entry None.

Definition _set_cache_control (entry : HistoryItem) : Result HistoryItem :=
  entry ←
    match content entry with
    | Str _ =>
        t ← _get_content_text entry;
        Ok (set_content entry (Segs [TextSeg t (Some ephemeral)]))
    | Segs [] => Raise IndexError
    | Segs (item :: items) =>
        Ok (set_content entry (Segs (set_item_cache_control item (Some ephemeral) :: items)))
    end;
  if name_eqb (role entry) "tool" then
    match content entry with
    | Segs (item :: items) =>
        Ok (set_entry_cache_control
              (set_content entry (Segs (set_item_cache_control item None :: items)))
              (Some ephemeral))
    | Segs [] => Raise IndexError
    | Str _ => Raise TypeError
    end
  else Ok entry.

(* ================================================================== *)
(** ** History processors *)

Module DefaultHistoryProcessor.
Definition call (history : History) : History := history.
End DefaultHistoryProcessor.

Module LastNObservations.
Record t : Type := {
  n : Z;
  polling : Z;
  always_remove_output_for_tags : gset string;
  always_keep_output_for_tags : gset string;
}.

(** The field defaults; [n] has none. *)
Definition defaults (n : Z) : t :=
  {| n := n; polling := 1;
     always_remove_output_for_tags := {[ "remove_output"%string ]};
     always_keep_output_for_tags := {[ "keep_output"%string ]} |}.

(** The validator of [n]. *)
Definition validate_n (n : Z) : bool := negb (n <=? 0).

Definition is_observation (entry : HistoryItem) : bool :=
  bool_decide (message_type entry = Some "observation"%string)
  && negb (is_demo entry).

Definition _get_omit_indices (self : t) (history : History) : Result (list nat) :=
  let observation_indices :=
    fst <$> List.filter (fun p => is_observation (snd p)) (enumerate history) in
  if polling self =? 0 then Raise ZeroDivisionError
  else
    let last_removed_idx :=
      Z.max 0 (Z.of_nat (length observation_indices) / polling self * polling self
               - n self) in
    (* Note: We never remove the first observation, as it is the instance template *)
    Ok (drop 1 (take (Z.to_nat last_removed_idx) observation_indices)).

(** [Old environment output: (N lines omitted)], with the images when there
    are some. *)
Definition summary (num_text_lines num_images : nat) : text :=
  let c := str "Old environment output: (" ++ str_of_nat num_text_lines
           ++ str " lines omitted)" in
  if (0 <? num_images)%nat
  then c ++ str " (" ++ str_of_nat num_images ++ str " images omitted)"
  else c.

(** Whether the entry at [idx] is appended as it is. *)
Definition keeps (self : t) (omit_content_idxs : list nat) (idx : nat)
    (entry : HistoryItem) : bool :=
  let tags := tags_of entry in
  (negb (bool_decide (idx ∈ omit_content_idxs))
   || bool_decide (tags ∩ always_keep_output_for_tags self ≠ ∅))
  && negb (bool_decide (tags ∩ always_remove_output_for_tags self ≠ ∅)).

(** The body of the loop of [__call__]: the entry appended for [entry]. *)
Definition step (self : t) (omit_content_idxs : list nat)
    (p : nat * HistoryItem) : Result HistoryItem :=
  let '(idx, entry) := p in
  if keeps self omit_content_idxs idx entry then Ok entry
  else
    let data := entry in
    _ ← assert (bool_decide (message_type data = Some "observation"%string));
    let '(num_text_lines, num_images) := _get_content_stats data in
    Ok (set_content data (Str (summary num_text_lines num_images))).

Definition call (self : t) (history : History) : Result History :=
  omit_content_idxs ← _get_omit_indices self history;
  collect (step self omit_content_idxs) (enumerate history).
End LastNObservations.

(** Entry objects live in a store; a history handed to a processor that
    works in place is a list of references into it. *)
Abbreviation loc := nat.
Abbreviation Store := (gmap loc HistoryItem).

Definition deref (σ : Store) (l : loc) : Result HistoryItem :=
  match σ !! l with
  | Some entry => Ok entry
  | None => Raise Dangling
  end.

(** The entries a list of references stands for. *)
Definition read (σ : Store) (history : list loc) : Result History :=
  collect (deref σ) history.

Module TagToolCallObservations.
Record t : Type := {
  tags : gset string;
  function_names : gset string;
}.

Definition defaults : t :=
  {| tags := {[ "keep_output"%string ]}; function_names := ∅ |}.

(** [entry["tags"] = list(tags)]: the list is written in the order in which
    Python iterates over the set, which the code does not fix; the entry of
    the model holds the set of its elements. *)
Definition _add_tags (self : t) (entry : HistoryItem) : HistoryItem :=
  let tags0 := tags_of entry in
  set_tags entry (tags0 ∪ tags self).

Definition _should_add_tags (self : t) (entry : HistoryItem) : bool :=
  if negb (bool_decide (message_type entry = Some "action"%string)) then false
  else
    let function_calls := default [] (tool_calls entry) in
    match function_calls with
    | [] => false
    | _ =>
        let function_names0 : gset string :=
          list_to_set (function_name <$> function_calls) in
        bool_decide (function_names self ∩ function_names0 ≠ ∅)
    end.

(** What the loop does to one entry. *)
Definition visit (self : t) (entry : HistoryItem) : HistoryItem :=
  if _should_add_tags self entry then _add_tags self entry else entry.

(** The body of the loop of [__call__], which updates the entry in the
    store. *)
Definition step (self : t) (σ : Store) (l : loc) : Result Store :=
  entry ← deref σ l;
  Ok (if _should_add_tags self entry
      then <[l := _add_tags self entry]> σ
      else σ).

(** [__call__]: the entries are updated in the store and the list that was
    passed is returned. *)
Definition call (self : t) (σ : Store) (history : list loc)
  : Result (Store * list loc) :=
  σ' ← for_each (step self) history σ;
  Ok (σ', history).

(** The entries of the returned history, by value. *)
Definition call_v (self : t) (history : History) : History :=
  visit self <$> history.
End TagToolCallObservations.

Module ClosedWindowHistoryProcessor.
(** The pattern "^(\d+)\:.*?(\n|$)", compiled with [re.MULTILINE]. *)
Definition _pattern : regex :=
  Seq [Bol; Group 1 (Plus true Digit); Lit ":"%char; Star false Dot;
       Group 2 (Alt (Lit LF) Eol)].
Definition _pattern_flags : Flags := {| MULTILINE := true; DOTALL := false |}.

(** The pattern "\[File:\s+(G)\s+\(\d+\s+lines\ total\)\]", where G stands
    for a greedy dot-star. *)
Definition _file_pattern : regex :=
  Seq [Lits "[File:"; Plus true Space; Group 1 (Star true Dot); Plus true Space;
       Lit "("%char; Plus true Digit; Plus true Space; Lits "lines total)]"].

Definition outdated (content0 : text) (matches : list Match) : text :=
  let start := from_option m_start 0%nat (head matches) in
  let end_ := from_option m_end 0%nat (last matches) in
  upto start content0
  ++ str "Outdated window with " ++ str_of_nat (length matches)
  ++ str " lines omitted..." ++ [LF]
  ++ from end_ content0.

(** The body of the loop over [reversed(history)]; the state is the set
    [windows] and the list [new_history]. *)
Definition step (st : gset text * History) (entry : HistoryItem)
  : Result (gset text * History) :=
  let '(windows, new_history) := st in
  let data := entry in
  if negb (bool_decide (role data = "user"%string))
  then Ok (windows, new_history ++ [entry])
  else if is_demo data
  then Ok (windows, new_history ++ [entry])
  else
    match content entry with
    | Segs _ => Raise TypeError
    | Str content0 =>
        let matches := finditer _pattern_flags content0 _pattern in
        if (1 <=? length matches)%nat then
          match search NOFLAG content0 _file_pattern with
          | Some file_match =>
              let file := group content0 file_match 1 in
              let data :=
                if bool_decide (file ∈ windows)
                then set_content data (Str (outdated content0 matches))
                else data in
              Ok ({[ file ]} ∪ windows, new_history ++ [data])
          | None => Ok (windows, new_history)
          end
        else Ok (windows, new_history ++ [data])
    end.

Definition call (history : History) : Result History :=
  st ← for_each step (reverse history) (∅, []);
  Ok (reverse (snd st)).
End ClosedWindowHistoryProcessor.

Module CacheControlHistoryProcessor.
Record t : Type := {
  last_n_messages : Z;
  last_n_messages_offset : Z;
  tagged_roles : list string;
}.

Definition defaults : t :=
  {| last_n_messages := 2; last_n_messages_offset := 0;
     tagged_roles := ["user"; "tool"]%string |}.

(** The test that guards [_set_cache_control]. *)
Definition tagging (self : t) (n_tagged : Z) (i_entry : nat) (entry : HistoryItem)
  : bool :=
  (n_tagged <? last_n_messages self)
  && bool_decide (role entry ∈ tagged_roles self)
  && (last_n_messages_offset self <=? Z.of_nat i_entry).

(** What one turn of the loop does to the entry it visits. *)
Definition visit (self : t) (n_tagged : Z) (i_entry : nat) (entry : HistoryItem)
  : Result (HistoryItem * Z) :=
  (* Clear cache control from previous messages *)
  let entry := _clear_cache_control entry in
  if tagging self n_tagged i_entry entry
  then entry' ← _set_cache_control entry; Ok (entry', n_tagged + 1)
  else Ok (entry, n_tagged).

(** [__call__]: every entry is updated in the store; the returned list
    holds the references that were passed.  The loop state is the store,
    [n_tagged] and [new_history].  When an exception is raised the entries
    visited before it stay updated; the result [Raise] does not show them. *)
Definition step (self : t) (st : Store * Z * list loc) (p : nat * loc)
  : Result (Store * Z * list loc) :=
  let '(σ, n_tagged, new_history) := st in
  let '(i_entry, l) := p in
  entry ← deref σ l;
  r ← visit self n_tagged i_entry entry;
  Ok (<[l := fst r]> σ, snd r, new_history ++ [l]).

Definition call (self : t) (σ : Store) (history : list loc)
  : Result (Store * list loc) :=
  st ← for_each (step self) (enumerate (reverse history)) (σ, 0, []);
  Ok (fst (fst st), reverse (snd st)).

(** The entries of the returned history, by value. *)
Definition step_v (self : t) (st : Z * History) (p : nat * HistoryItem)
  : Result (Z * History) :=
  let '(n_tagged, new_history) := st in
  let '(i_entry, entry) := p in
  r ← visit self n_tagged i_entry entry;
  Ok (snd r, new_history ++ [fst r]).

Definition call_v (self : t) (history : History) : Result History :=
  st ← for_each (step_v self) (enumerate (reverse history)) (0, []);
  Ok (reverse (snd st)).
End CacheControlHistoryProcessor.

Module RemoveRegex.
(** The patterns of [remove] are kept in parsed form. *)
Record t : Type := {
  remove : list regex;
  keep_last : Z;
}.

(** The pattern "<diff>.*</diff>". *)
Definition diff_pattern : regex :=
  Seq [Lits "<diff>"; Star true Dot; Lits "</diff>"].

Definition defaults : t := {| remove := [diff_pattern]; keep_last := 0 |}.

Definition DOTALL_flags : Flags := {| MULTILINE := false; DOTALL := true |}.

(** [for pattern in self.remove: s = re.sub(pattern, "", s, flags=re.DOTALL)] *)
Definition remove_all (self : t) (s : text) : text :=
  foldl (fun s pattern => sub_empty DOTALL_flags s pattern) s (remove self).

Definition redact (self : t) (entry : HistoryItem) : HistoryItem :=
  match content entry with
  | Segs items =>
      set_content entry
        (Segs ((fun item =>
                  match item with
                  | TextSeg t cc => TextSeg (remove_all self t) cc
                  | ImageSeg _ _ => item
                  end) <$> items))
  | Str s => set_content entry (Str (remove_all self s))
  end.

Definition step (self : t) (p : nat * HistoryItem) : HistoryItem :=
  let '(i_entry, entry) := p in
  if Z.of_nat i_entry <? keep_last self then entry else redact self entry.

Definition call (self : t) (history : History) : History :=
  reverse (step self <$> enumerate (reverse history)).
End RemoveRegex.

Module ImageParsingHistoryProcessor.
Record t : Type := { allowed_mime_types : gset text }.

Definition defaults : t :=
  {| allowed_mime_types :=
       {[ str "image/png"; str "image/jpeg"; str "image/webp" ]} |}.

(** The pattern of an image in markdown, "![alt](data:mime;base64,data)":
    group 1 is "![", group 2 and "](data:", where group 2 (the alt text)
    is a greedy run of characters other than "]"; group 3 (the MIME type) is
    a non-empty run without ";"; then ";base64,"; group 4 (the data) is a
    non-empty run without a closing parenthesis; group 5 is the closing
    parenthesis. *)
Definition _pattern : regex :=
  Seq [Group 1 (Seq [Lits "!["; Group 2 (Star true (NoneOf (str "]")));
                     Lits "](data:"]);
       Group 3 (Plus true (NoneOf (str ";")));
       Lits ";base64,";
       Group 4 (Plus true (NoneOf (str ")")));
       Group 5 (Lits ")")].

(** ["image/jpeg" if mime_type == "image/jpg" else mime_type] *)
Definition normalize (mime_type : text) : text :=
  if bool_decide (mime_type = str "image/jpg") then str "image/jpeg"
  else mime_type.

(** Add text to the last segment if it's text, otherwise create new text
    segment. *)
Definition add_text (segments : list Segment) (t : text) : list Segment :=
  match t with
  | [] => segments
  | _ =>
      match last segments with
      | Some (TextSeg t0 cc) =>
          take (length segments - 1) segments ++ [TextSeg (t0 ++ t) cc]
      | _ => segments ++ [TextSeg t None]
      end
  end.

(** The body of the loop over the matches; the state is [segments],
    [last_end] and [has_images]. *)
Definition step (self : t) (content0 : text)
    (st : list Segment * nat * bool) (mt : Match) : list Segment * nat * bool :=
  let '(segments, last_end, has_images) := st in
  let markdown_prefix := group content0 mt 1 in
  let mime_type := group content0 mt 3 in
  let base64_data := group content0 mt 4 in
  let markdown_suffix := group content0 mt 5 in
  let segments := add_text segments (slice last_end (m_start mt) content0) in
  let mime_type := normalize mime_type in
  if bool_decide (mime_type ∈ allowed_mime_types self) then
    let segments := add_text segments markdown_prefix in
    let segments :=
      segments
      ++ [ImageSeg (str "data:" ++ mime_type ++ str ";base64," ++ base64_data) None] in
    let segments := add_text segments markdown_suffix in
    (segments, m_end mt, true)
  else
    let segments := add_text segments (group0 content0 mt) in
    (segments, m_end mt, has_images).

Definition _parse_images (self : t) (content0 : text) : list Segment :=
  let '(segments, last_end, has_images) :=
    foldl (step self content0) ([], 0%nat, false) (finditer NOFLAG content0 _pattern) in
  let segments := add_text segments (from last_end content0) in
  if has_images then segments else [TextSeg content0 None].

Definition _process_entry (self : t) (entry : HistoryItem) : Result HistoryItem :=
  if negb (bool_decide (role entry ∈ ["user"; "tool"]%string)) then Ok entry
  else
    content0 ← _get_content_text entry;
    let segments := _parse_images self content0 in
    if existsb is_image segments
    then Ok (set_content entry (Segs segments))
    else Ok entry.

Definition call (self : t) (history : History) : Result History :=
  collect (_process_entry self) history.
End ImageParsingHistoryProcessor.

(* ================================================================== *)
(** ** Sample entries, used by the examples *)

Module Sample.
(** A message with a plain string content and no optional key. *)
Definition message (role0 : string) (c : text) : HistoryItem :=
  {| role := role0; content := Str c; message_type := None; tags := None;
     is_demo := false; tool_calls := None; cache_control := None |}.

(** An observation of the environment, with tags. *)
Definition observation (c : Content) (ts : list string) (demo : bool)
  : HistoryItem :=
  {| role := "user"; content := c; message_type := Some "observation"%string;
     tags := Some (list_to_set ts); is_demo := demo; tool_calls := None;
     cache_control := None |}.

(** An action that calls the tool [name]. *)
Definition action (c : text) (name : string) : HistoryItem :=
  {| role := "assistant"; content := Str c; message_type := Some "action"%string;
     tags := None; is_demo := false;
     tool_calls := Some [ {| function_name := name |} ];
     cache_control := None |}.

Definition two_lines : text := str "a" ++ [LF] ++ str "b".
End Sample.

(* ================================================================== *)
(** ** Vocabulary of the properties *)

(** The indices of the observations that are not demos, for a history
    whose first index is [k]. *)
Definition observation_indices_from (k : nat) (history : History) : list nat :=
  fst <$> List.filter (fun p => LastNObservations.is_observation (snd p))
            (enumerate_from k history).

(** The entry at [l] is one that a visit of the tagging loop leaves as it
    is. *)
Definition settled (self : TagToolCallObservations.t) (σ : Store) (l : loc) : Prop :=
  exists entry,
    σ !! l = Some entry /\ TagToolCallObservations.visit self entry = entry.

(** The demo entries of a history, in order. *)
Definition demos (history : History) : History :=
  filter (fun entry => is_demo entry = true) history.

(** The text of a list content, read in order, with [image] standing where
    an image item is. *)
Definition reassemble (image : text) (segments : list Segment) : text :=
  concat ((fun item =>
             match item with
             | TextSeg t _ => t
             | ImageSeg _ _ => image
             end) <$> segments).

(** Position [p] of [c] starts a line that begins with a line number: one
    or more digits and a colon. *)
Definition line_header (c : text) (p : nat) : Prop :=
  at_bol ClosedWindowHistoryProcessor._pattern_flags c p = true
  /\ exists d : nat,
       (0 < d)%nat
       /\ (forall t : nat, (t < d)%nat ->
             exists a, c !! (p + t)%nat = Some a /\ is_digit a = true)
       /\ c !! (p + d)%nat = Some ":"%char.

(** A pattern without capturing groups. *)
Fixpoint groups_free (r : regex) : bool :=
  match r with
  | Cat r1 r2 | Alt r1 r2 => groups_free r1 && groups_free r2
  | Star _ r1 => groups_free r1
  | Group _ _ => false
  | _ => true
  end.

(** The entry that elision writes for [entry]: its content is the summary
    of the counts of its own content. *)
Definition collapsed (entry : HistoryItem) : HistoryItem :=
  set_content entry
    (Str (LastNObservations.summary (fst (_get_content_stats entry))
            (snd (_get_content_stats entry)))).

(** [n] plus the remainder of the number of observations by [polling]: the
    number of observations after the omitted range when there are that many,
    and more than there are observations when nothing is omitted. *)
Definition kept_window (self : LastNObservations.t) (history : History) : nat :=
  Z.to_nat (LastNObservations.n self
            + Z.of_nat (length (observation_indices_from 0 history))
              mod LastNObservations.polling self).

(** Whether an entry carries a cache marker, on itself or on an item of its
    content. *)
Definition has_marker (entry : HistoryItem) : bool :=
  bool_decide (cache_control entry <> None)
  || match content entry with
     | Str _ => false
     | Segs items => existsb (fun item => bool_decide (item_cache_control item <> None)) items
     end.

(** A content read as a list of items without cache markers: what the
    content says, whether it is a string or a list. *)
Definition plain_items (c : Content) : list Segment :=
  match c with
  | Str s => [TextSeg s None]
  | Segs items => (fun item => set_item_cache_control item None) <$> items
  end.

(** The fields of an entry that cache control leaves alone agree. *)
Definition same_message (entry entry' : HistoryItem) : Prop :=
  role entry' = role entry
  /\ message_type entry' = message_type entry
  /\ tags entry' = tags entry
  /\ is_demo entry' = is_demo entry
  /\ tool_calls entry' = tool_calls entry
  /\ plain_items (content entry') = plain_items (content entry).

(** The way [_set_cache_control] leaves an entry: a list content with no
    marker after the first item; for the role "tool" the marker is on the
    entry and not on the first item, for the other roles it is on the first
    item and not on the entry. *)
Definition marked_in_place (entry : HistoryItem) : Prop :=
  exists item items,
    content entry = Segs (item :: items)
    /\ Forall (fun it => item_cache_control it = None) items
    /\ if name_eqb (role entry) "tool"
       then cache_control entry = Some ephemeral /\ item_cache_control item = None
       else cache_control entry = None /\ item_cache_control item = Some ephemeral.

(** No two text items follow each other. *)
Fixpoint merged (segments : list Segment) : bool :=
  match segments with
  | a :: (b :: _) as rest => negb (is_text a && is_text b) && merged rest
  | _ => true
  end.

(** The text a list of items was cut from: the text items as they are, and
    for an image item the data URI without its "data:" scheme. *)
Definition source_text (segments : list Segment) : text :=
  concat ((fun item =>
             match item with
             | TextSeg t _ => t
             | ImageSeg url _ => drop 5 url
             end) <$> segments).

(** An entry that image parsing reads without raising: another role than
    "user" and "tool", a string content, or a list content of one text
    item. *)
Definition readable (entry : HistoryItem) : Prop :=
  role entry ∉ ["user"; "tool"]%string
  \/ (exists s, content entry = Str s)
  \/ (exists t cc, content entry = Segs [TextSeg t cc]).

(** The file whose window an entry shows, for the entries that window
    collapse looks at: user entries that are not demos, with numbered lines
    and a file header. *)
Definition window_file (entry : HistoryItem) : option text :=
  if negb (bool_decide (role entry = "user"%string)) then None
  else if is_demo entry then None
  else
    match content entry with
    | Segs _ => None
    | Str c =>
        if (1 <=? length (finditer ClosedWindowHistoryProcessor._pattern_flags c
                            ClosedWindowHistoryProcessor._pattern))%nat
        then
          match search NOFLAG c ClosedWindowHistoryProcessor._file_pattern with
          | Some file_match => Some (group c file_match 1)
          | None => None
          end
        else None
    end.

(** The entry that window collapse writes for an outdated window. *)
Definition outdated_entry (entry : HistoryItem) : HistoryItem :=
  match content entry with
  | Str c =>
      set_content entry
        (Str (ClosedWindowHistoryProcessor.outdated c
                (finditer ClosedWindowHistoryProcessor._pattern_flags c
                   ClosedWindowHistoryProcessor._pattern)))
  | Segs _ => entry
  end.

(** The matches of a scan follow each other from [pos] on, inside a text
    of length [len]. *)
Fixpoint ordered_from (len pos : nat) (ms : list Match) : Prop :=
  match ms with
  | [] => True
  | mt :: rest =>
      (pos <= m_start mt)%nat /\ (m_start mt <= m_end mt)%nat
      /\ (m_end mt <= len)%nat /\ ordered_from len (m_end mt) rest
  end.

(** A match of the image pattern whose MIME type, after "image/jpg" is
    read as "image/jpeg", is one of the allowed types. *)
Definition allowed_image (self : ImageParsingHistoryProcessor.t) (c : text)
    (mt : Match) : bool :=
  bool_decide (ImageParsingHistoryProcessor.normalize (group c mt 3)
               ∈ ImageParsingHistoryProcessor.allowed_mime_types self).

(** An entry with no image of an allowed type in its text: an entry of a
    role that image parsing skips, or one whose text has no allowed match. *)
Definition without_allowed_image (self : ImageParsingHistoryProcessor.t)
    (entry : HistoryItem) : Prop :=
  role entry ∉ ["user"; "tool"]%string
  \/ exists c, _get_content_text entry = Ok c
               /\ List.filter (allowed_image self c)
                    (finditer NOFLAG c ImageParsingHistoryProcessor._pattern) = [].

(** The files whose windows the entries of a history show. *)
Definition shown (entry : HistoryItem) : gset text :=
  match window_file entry with
  | Some file => {[ file ]}
  | None => ∅
  end.

Definition shown_files (history : History) : gset text :=
  ⋃ (shown <$> history).

(** The file of each entry that shows a window, in the order of the
    history. *)
Definition open_files (history : History) : list text :=
  omap window_file history.

(** An entry whose content window collapse hands to the patterns although
    it is a list: a user entry that is not a demo, with a list content. *)
Definition window_unreadable (entry : HistoryItem) : bool :=
  bool_decide (role entry = "user"%string)
  && negb (is_demo entry)
  && match content entry with Segs _ => true | Str _ => false end.

(** Two entries that agree up to the way their tags are listed: every key
    but "tags" is equal, and the tags have the same elements.  This is what
    the processors of this file can tell of an entry, since they read the
    tags through [set(...)] only. *)
Definition same_up_to_tag_order (entry entry' : HistoryItem) : Prop :=
  role entry = role entry'
  /\ content entry = content entry'
  /\ message_type entry = message_type entry'
  /\ tags_of entry = tags_of entry'
  /\ is_demo entry = is_demo entry'
  /\ tool_calls entry = tool_calls entry'
  /\ cache_control entry = cache_control entry'.

(** [last_removed_idx] of [_get_omit_indices]: the position, among the
    observations that are not demos, where the omitted range ends. *)
Definition last_removed_idx (self : LastNObservations.t) (history : History) : nat :=
  Z.to_nat
    (Z.max 0
       (Z.of_nat (length (observation_indices_from 0 history))
        / LastNObservations.polling self * LastNObservations.polling self
        - LastNObservations.n self)).

(* ================================================================== *)
(** * Properties *)

(** ** Examples of the text functions and of the matcher *)

Example splitlines_ex1 :
  splitlines (str "a" ++ [LF] ++ str "b") = [str "a"; str "b"].
Proof. reflexivity. Qed.

Example splitlines_ex2 :
  splitlines (str "a" ++ [CR; LF] ++ [LF] ++ str "b" ++ [LF])
  = [str "a"; []; str "b"].
Proof. reflexivity. Qed.

Example splitlines_ex3 : splitlines [] = [] /\ splitlines [LF] = [[]].
Proof. split; reflexivity. Qed.

Example str_of_nat_ex : str_of_nat 0 = str "0" /\ str_of_nat 120 = str "120".
Proof. split; reflexivity. Qed.

(** "x(?:a*?)*" on "xaaa": the lazy body matches the empty string, the
    iteration is accepted and the repetition ends there, so that only "x"
    is removed. *)
Example sub_empty_iteration :
  sub_empty NOFLAG (str "xaaa")
    (Cat (Lit "x"%char) (Star true (Star false (Lit "a"%char)))) = str "aaa"
  /\ (fun mt => (m_start mt, m_end mt))
     <$> finditer NOFLAG (str "aab") (Star true (Alt (Lit "a"%char) Empty))
     = [(0, 2); (2, 2); (3, 3)]%nat.
Proof. split; vm_compute; reflexivity. Qed.

Example sub_ex1 :
  sub_empty {| MULTILINE := false; DOTALL := true |}
    (str "before<diff>X" ++ [LF] ++ str "Y</diff>after")
    (Seq [Lits "<diff>"; Star true Dot; Lits "</diff>"]) = str "beforeafter".
Proof. vm_compute. reflexivity. Qed.

Example sub_ex2 :
  sub_empty NOFLAG (str "aabb") (Lits "ab") = str "ab".
Proof. vm_compute. reflexivity. Qed.

(* ================================================================== *)
(** ** Loops and exceptions *)

Ltac unfold_bind := unfold mbind, Result_bind, mret, Result_ret in *.

(** Nested updates of an entry are reduced inside out. *)
Ltac simpl_entry :=
  cbv [set_content set_tags set_entry_cache_control
       role content message_type tags is_demo tool_calls cache_control].

Lemma bind_Ok {A B : Type} (m : Result A) (f : A -> Result B) (b : B) :
  (m ≫= f) = Ok b -> exists a, m = Ok a /\ f a = Ok b.
Proof. unfold_bind. destruct m as [a|e]; [eauto | discriminate]. Qed.

Lemma deref_Some (σ : Store) (l : loc) (entry : HistoryItem) :
  σ !! l = Some entry -> deref σ l = Ok entry.
Proof. intros H. unfold deref. by rewrite H. Qed.

Lemma bind_Ok_l {A B : Type} (a : A) (f : A -> Result B) : (Ok a ≫= f) = f a.
Proof. reflexivity. Qed.

Lemma bind_Raise_l {A B : Type} (e : Error) (f : A -> Result B) :
  (Raise e ≫= f) = Raise e.
Proof. reflexivity. Qed.

Lemma for_each_cons {A S : Type} (body : S -> A -> Result S) x xs acc :
  for_each body (x :: xs) acc = (body acc x ≫= for_each body xs).
Proof. reflexivity. Qed.

Lemma enumerate_from_cons {A : Type} (i : nat) (x : A) (xs : list A) :
  enumerate_from i (x :: xs) = (i, x) :: enumerate_from (S i) xs.
Proof. reflexivity. Qed.

Lemma enumerate_from_lookup {A : Type} (xs : list A) (k i : nat) :
  enumerate_from k xs !! i = (fun x => ((k + i)%nat, x)) <$> xs !! i.
Proof.
  revert k i. induction xs as [|x xs IH]; intros k i; [done|].
  destruct i as [|i]; simpl.
  - by rewrite Nat.add_0_r.
  - rewrite IH. by replace (S k + i)%nat with (k + S i)%nat by lia.
Qed.

Lemma enumerate_lookup {A : Type} (xs : list A) (i : nat) :
  enumerate xs !! i = (fun x => (i, x)) <$> xs !! i.
Proof. apply (enumerate_from_lookup xs 0). Qed.

Lemma enumerate_from_length {A : Type} (xs : list A) (k : nat) :
  length (enumerate_from k xs) = length xs.
Proof. revert k. induction xs; intros; simpl; [done|]. by rewrite IHxs. Qed.

Lemma collect_Ok_lookup {A B : Type} (f : A -> Result B) xs ys i x :
  collect f xs = Ok ys -> xs !! i = Some x ->
  exists y, f x = Ok y /\ ys !! i = Some y.
Proof.
  revert ys i. induction xs as [|x0 xs IH]; intros ys i Hc Hi; [done|].
  simpl in Hc. apply bind_Ok in Hc as (y0 & Hy0 & Hc).
  apply bind_Ok in Hc as (ys0 & Hys0 & Hc). injection Hc as <-.
  destruct i as [|i]; simpl in *.
  - injection Hi as <-. eauto.
  - eauto.
Qed.

Lemma collect_Ok_length {A B : Type} (f : A -> Result B) xs ys :
  collect f xs = Ok ys -> length ys = length xs.
Proof.
  revert ys. induction xs as [|x0 xs IH]; intros ys Hc; simpl in Hc.
  - by injection Hc as <-.
  - apply bind_Ok in Hc as (y0 & Hy0 & Hc).
    apply bind_Ok in Hc as (ys0 & Hys0 & Hc). injection Hc as <-.
    simpl. f_equal. eauto.
Qed.

Lemma collect_returns {A B : Type} (f : A -> Result B) xs :
  (forall x, x ∈ xs -> exists y, f x = Ok y) -> exists ys, collect f xs = Ok ys.
Proof.
  induction xs as [|x0 xs IH]; intros H; simpl; [eauto|].
  destruct (H x0) as [y Hy]; [left|].
  destruct IH as [ys Hys]; [intros; apply H; by right|].
  rewrite Hy, Hys. unfold_bind. eauto.
Qed.

(* ================================================================== *)
(** ** Elision: the omitted indices *)

Module LastNFacts.
Import LastNObservations.

Lemma observation_indices_from_cons k entry history :
  observation_indices_from k (entry :: history)
  = if is_observation entry
    then k :: observation_indices_from (S k) history
    else observation_indices_from (S k) history.
Proof.
  unfold observation_indices_from. simpl. by destruct (is_observation entry).
Qed.

Lemma observation_indices_from_spec k history idx :
  idx ∈ observation_indices_from k history ->
  (k <= idx)%nat /\
  exists entry, history !! (idx - k)%nat = Some entry /\ is_observation entry = true.
Proof.
  revert k. induction history as [|e history IH]; intros k Hin.
  - by apply elem_of_nil in Hin.
  - rewrite observation_indices_from_cons in Hin.
    assert (idx ∈ observation_indices_from (S k) history ->
            (k <= idx)%nat /\
            exists entry, (e :: history) !! (idx - k)%nat = Some entry
                          /\ is_observation entry = true) as Htail.
    { intros H. apply IH in H as (Hle & entry & Hl & Ho). split; [lia|].
      exists entry. split; [|done].
      replace (idx - k)%nat with (S (idx - S k)) by lia. done. }
    destruct (is_observation e) eqn:He; [|auto].
    apply elem_of_cons in Hin as [->|Hin]; [|auto].
    split; [lia|]. exists e. by rewrite Nat.sub_diag.
Qed.

Lemma observation_indices_from_NoDup k history :
  NoDup (observation_indices_from k history).
Proof.
  revert k. induction history as [|e history IH]; intros k.
  - constructor.
  - rewrite observation_indices_from_cons. destruct (is_observation e); [|done].
    constructor; [|done].
    intros Hin. apply observation_indices_from_spec in Hin. lia.
Qed.

(** When no entry before [idx] is an observation the list starts at [idx]. *)
Lemma observation_indices_from_first k history idx entry :
  history !! idx = Some entry -> is_observation entry = true ->
  (forall j e, (j < idx)%nat -> history !! j = Some e -> is_observation e = false) ->
  exists rest, observation_indices_from k history = (k + idx)%nat :: rest.
Proof.
  revert k idx. induction history as [|e history IH]; intros k idx Hl Ho Hbefore.
  - done.
  - rewrite observation_indices_from_cons. destruct idx as [|idx]; simpl in Hl.
    + injection Hl as ->. rewrite Ho, Nat.add_0_r. eauto.
    + rewrite (Hbefore 0%nat e) by (done || lia).
      destruct (IH (S k) idx Hl Ho) as [rest Hrest].
      { intros j e' Hj Hje'. apply (Hbefore (S j) e'); [lia|done]. }
      exists rest. rewrite Hrest. f_equal. lia.
Qed.

Lemma omit_indices_spec self history omit idx :
  _get_omit_indices self history = Ok omit -> idx ∈ omit ->
  exists entry, history !! idx = Some entry /\ is_observation entry = true.
Proof.
  unfold _get_omit_indices. destruct (polling self =? 0); [done|].
  intros [= <-] Hin.
  apply list_elem_of_lookup in Hin as [i Hi].
  rewrite lookup_drop in Hi. apply lookup_take_Some in Hi as [Hi _].
  assert (idx ∈ observation_indices_from 0 history) as H
    by (apply list_elem_of_lookup; eauto).
  apply observation_indices_from_spec in H as (_ & entry & Hl & Ho).
  rewrite Nat.sub_0_r in Hl. eauto.
Qed.

Lemma omit_indices_returns self history :
  polling self <> 0 -> exists omit, _get_omit_indices self history = Ok omit.
Proof.
  intros Hp. unfold _get_omit_indices.
  destruct (polling self =? 0) eqn:E; [lia|eauto].
Qed.

(** The first observation is never among the omitted indices. *)
Lemma first_observation_not_omitted self history omit idx entry :
  _get_omit_indices self history = Ok omit ->
  history !! idx = Some entry -> is_observation entry = true ->
  (forall j e, (j < idx)%nat -> history !! j = Some e -> is_observation e = false) ->
  idx ∉ omit.
Proof.
  unfold _get_omit_indices. destruct (polling self =? 0); [done|].
  intros [= <-] Hl Ho Hbefore Hin.
  pose proof (observation_indices_from_NoDup 0 history) as Hnd.
  destruct (observation_indices_from_first 0 history idx entry Hl Ho Hbefore)
    as [rest Hrest].
  unfold observation_indices_from, enumerate in *. rewrite Hrest in Hin, Hnd.
  simpl in Hrest, Hin, Hnd.
  apply NoDup_cons in Hnd as [Hnotin _]. apply Hnotin.
  destruct (Z.to_nat _) as [|m]; simpl in Hin.
  - by apply elem_of_nil in Hin.
  - rewrite drop_0 in Hin. apply list_elem_of_lookup in Hin as [i Hi].
    apply lookup_take_Some in Hi as [Hi _]. apply list_elem_of_lookup. eauto.
Qed.

(** The call returns unless [polling] is zero or an entry that is not an
    observation carries a tag of [always_remove_output_for_tags]. *)
Lemma elision_returns self history :
  polling self <> 0 ->
  (forall entry, entry ∈ history ->
     tags_of entry ∩ always_remove_output_for_tags self ≠ ∅ ->
     message_type entry = Some "observation"%string) ->
  exists new_history, call self history = Ok new_history.
Proof.
  intros Hp Hobs. unfold call.
  destruct (omit_indices_returns self history Hp) as [omit Homit].
  rewrite Homit. unfold_bind.
  apply collect_returns. intros [idx entry] Hin.
  apply list_elem_of_lookup in Hin as [i Hi].
  rewrite enumerate_lookup in Hi.
  destruct (history !! i) as [e|] eqn:Hl; [|done]. simpl in Hi. injection Hi as <- <-.
  unfold step. destruct (keeps self omit i e) eqn:Hk; [eauto|].
  assert (message_type e = Some "observation"%string) as Hm.
  { unfold keeps in Hk. apply andb_false_iff in Hk as [Hk|Hk].
    - apply orb_false_iff in Hk as [Hk _]. apply negb_false_iff in Hk.
      apply bool_decide_eq_true in Hk.
      destruct (omit_indices_spec _ _ _ _ Homit Hk) as (e' & Hl' & Ho).
      rewrite Hl in Hl'. injection Hl' as <-.
      unfold is_observation in Ho. apply andb_true_iff in Ho as [Ho _].
      by apply bool_decide_eq_true in Ho.
    - apply negb_false_iff, bool_decide_eq_true in Hk.
      apply Hobs; [|done]. apply list_elem_of_lookup. eauto. }
  rewrite Hm. simpl. destruct (_get_content_stats e). eauto.
Qed.

(** What [call] returns at one index. *)
Lemma elision_lookup self history new_history idx entry :
  call self history = Ok new_history -> history !! idx = Some entry ->
  exists omit entry',
    _get_omit_indices self history = Ok omit
    /\ step self omit (idx, entry) = Ok entry'
    /\ new_history !! idx = Some entry'.
Proof.
  unfold call. intros Hc Hl. apply bind_Ok in Hc as (omit & Homit & Hc).
  assert (enumerate history !! idx = Some (idx, entry)) as He
    by (by rewrite enumerate_lookup, Hl).
  destruct (collect_Ok_lookup _ _ _ _ _ Hc He) as (y & Hy & Hn). eauto.
Qed.
End LastNFacts.

(* ================================================================== *)
(** ** Tag propagation without function names *)

Module TagFacts.
Import TagToolCallObservations.

Lemma should_add_tags_no_names self entry :
  function_names self = ∅ -> _should_add_tags self entry = false.
Proof.
  intros Hn. unfold _should_add_tags. rewrite Hn.
  destruct (negb _); [done|]. destruct (default [] (tool_calls entry)); [done|].
  apply bool_decide_eq_false. set_solver.
Qed.

Lemma visit_no_names self entry : function_names self = ∅ -> visit self entry = entry.
Proof. intros Hn. unfold visit. by rewrite should_add_tags_no_names. Qed.

Lemma tag_step_eq self (σ : Store) l entry :
  σ !! l = Some entry ->
  step self σ l
  = Ok (if _should_add_tags self entry then <[l := _add_tags self entry]> σ else σ).
Proof. intros H. unfold step. by rewrite (deref_Some _ _ _ H). Qed.

Lemma visit_idempotent self entry : visit self (visit self entry) = visit self entry.
Proof.
  unfold visit. destruct (_should_add_tags self entry) eqn:Hs; [|by rewrite Hs].
  assert (_should_add_tags self (_add_tags self entry) = true) as ->.
  { unfold _should_add_tags in *. simpl. done. }
  unfold _add_tags, set_tags, tags_of. simpl. f_equal. f_equal. set_solver.
Qed.
End TagFacts.

(** C10. With no function names configured (the default), the tagging of
    tool-call observations changes nothing: the entries it returns are the
    entries it was given, and, in the store, no entry object is written: the
    store and the list of references come back as they were. *)
Theorem tag_tool_calls_without_names_is_identity (self : TagToolCallObservations.t) :
  TagToolCallObservations.function_names self = ∅ ->
  (forall history : History, TagToolCallObservations.call_v self history = history)
  /\ (forall (σ : Store) (history : list loc),
        (forall l, l ∈ history -> is_Some (σ !! l)) ->
        TagToolCallObservations.call self σ history = Ok (σ, history)).
Proof.
  intros Hn. split.
  - intros history. unfold TagToolCallObservations.call_v.
    induction history as [|e history IH]; [done|].
    rewrite fmap_cons, IH. by rewrite TagFacts.visit_no_names.
  - intros σ history Halloc. unfold TagToolCallObservations.call.
    assert (for_each (TagToolCallObservations.step self) history σ = Ok σ)
      as ->; [|done].
    induction history as [|l history IH]; [done|]. rewrite for_each_cons.
    destruct (Halloc l) as [e He]; [left|].
    rewrite (TagFacts.tag_step_eq _ _ _ _ He), bind_Ok_l.
    rewrite TagFacts.should_add_tags_no_names by done.
    apply IH. intros l' Hl'. apply Halloc. by right.
Qed.

(* ================================================================== *)
(** ** Elision *)

Ltac elem_cases H :=
  repeat (apply elem_of_cons in H as [->|H]); try (by apply elem_of_nil in H).

(** C6. An observation with a tag of [always_remove_output_for_tags] is
    replaced by the summary of its own content, whatever its position and
    its other tags: the call returns (when [polling] is not zero and every
    entry with such a tag is an observation), and at the index of such an
    observation the new history holds the entry with the content
    [Old environment output: (N lines omitted)], followed by
    [(K images omitted)] when K > 0, N and K being the counts of the
    original content. *)
Theorem always_remove_collapses
    (self : LastNObservations.t) (history : History) :
  LastNObservations.polling self <> 0 ->
  (forall entry, entry ∈ history ->
     tags_of entry ∩ LastNObservations.always_remove_output_for_tags self ≠ ∅ ->
     message_type entry = Some "observation"%string) ->
  exists new_history,
    LastNObservations.call self history = Ok new_history
    /\ length new_history = length history
    /\ forall idx entry,
         history !! idx = Some entry ->
         message_type entry = Some "observation"%string ->
         tags_of entry ∩ LastNObservations.always_remove_output_for_tags self ≠ ∅ ->
         new_history !! idx
         = Some (set_content entry
                   (Str (LastNObservations.summary
                           (fst (_get_content_stats entry))
                           (snd (_get_content_stats entry))))).
Proof.
  intros Hp Hobs.
  destruct (LastNFacts.elision_returns self history Hp Hobs) as [new_history Hc].
  exists new_history. split; [done|]. split.
  - unfold LastNObservations.call in Hc. apply bind_Ok in Hc as (omit & _ & Hc).
    apply collect_Ok_length in Hc. rewrite Hc. apply enumerate_from_length.
  - intros idx entry Hl Hm Hr.
    destruct (LastNFacts.elision_lookup _ _ _ _ _ Hc Hl) as (omit & e' & _ & Hs & ->).
    f_equal. unfold LastNObservations.step, LastNObservations.keeps in Hs.
    rewrite (bool_decide_true _ Hr), andb_false_r, Hm in Hs. simpl in Hs.
    destruct (_get_content_stats entry). by injection Hs as <-.
Qed.

Lemma always_remove_collapses_witness :
  exists new_history,
    LastNObservations.call (LastNObservations.defaults 5)
      [Sample.observation
         (Segs [TextSeg Sample.two_lines None; ImageSeg (str "data:x") None])
         ["remove_output"; "keep_output"]%string false]
    = Ok new_history
    /\ new_history !! 0%nat
       = Some (Sample.observation
                 (Str (str "Old environment output: (2 lines omitted) (1 images omitted)"))
                 ["remove_output"; "keep_output"]%string false).
Proof.
  destruct (always_remove_collapses (LastNObservations.defaults 5)
              [Sample.observation
                 (Segs [TextSeg Sample.two_lines None; ImageSeg (str "data:x") None])
                 ["remove_output"; "keep_output"]%string false])
    as (new_history & Hc & _ & H).
  - simpl. lia.
  - intros entry He _. elem_cases He. reflexivity.
  - exists new_history. split; [exact Hc|].
    rewrite (H 0%nat _ eq_refl eq_refl); [reflexivity|].
    vm_compute. discriminate.
Defined.

(** C5, as stated, fails: the first observation is collapsed when it carries
    a tag of [always_remove_output_for_tags]. *)
Lemma first_observation_collapsed_when_tagged :
  let entry := Sample.observation (Str Sample.two_lines) ["remove_output"%string] false in
  LastNObservations.validate_n 5 = true
  /\ LastNObservations.call (LastNObservations.defaults 5) [entry]
     = Ok [set_content entry (Str (str "Old environment output: (2 lines omitted)"))]
  /\ content entry <> Str (str "Old environment output: (2 lines omitted)").
Proof. split; [reflexivity|]. split; [vm_compute; reflexivity|discriminate]. Qed.

(** C5, amended. The first observation that is not a demo is never
    collapsed by the rule of the last [n] observations, whatever [n] and
    [polling]: when its tags do not meet [always_remove_output_for_tags],
    the call returns it unchanged at its index. *)
Theorem first_observation_kept
    (self : LastNObservations.t) (history : History) (idx : nat) (entry : HistoryItem) :
  LastNObservations.polling self <> 0 ->
  (forall e, e ∈ history ->
     tags_of e ∩ LastNObservations.always_remove_output_for_tags self ≠ ∅ ->
     message_type e = Some "observation"%string) ->
  history !! idx = Some entry ->
  LastNObservations.is_observation entry = true ->
  (forall j e, (j < idx)%nat -> history !! j = Some e ->
     LastNObservations.is_observation e = false) ->
  tags_of entry ∩ LastNObservations.always_remove_output_for_tags self = ∅ ->
  exists new_history,
    LastNObservations.call self history = Ok new_history
    /\ new_history !! idx = Some entry.
Proof.
  intros Hp Hobs Hl Ho Hfirst Hr.
  destruct (LastNFacts.elision_returns self history Hp Hobs) as [new_history Hc].
  exists new_history. split; [done|].
  destruct (LastNFacts.elision_lookup _ _ _ _ _ Hc Hl) as (omit & e' & Homit & Hs & ->).
  f_equal. unfold LastNObservations.step, LastNObservations.keeps in Hs.
  pose proof (LastNFacts.first_observation_not_omitted _ _ _ _ _ Homit Hl Ho Hfirst)
    as Hnot.
  rewrite (bool_decide_false _ Hnot) in Hs.
  rewrite (bool_decide_false
             (tags_of entry ∩ LastNObservations.always_remove_output_for_tags self ≠ ∅))
    in Hs by (intros H; by apply H).
  simpl in Hs. by injection Hs as <-.
Qed.

Lemma first_observation_kept_witness :
  let first := Sample.observation (Str Sample.two_lines) [] false in
  let later := Sample.observation (Str (str "x")) [] false in
  exists new_history,
    LastNObservations.call (LastNObservations.defaults 1)
      [Sample.message "system" (str "s"); first; later; later; later]
    = Ok new_history
    /\ new_history !! 1%nat = Some first.
Proof.
  intros first later.
  apply (first_observation_kept (LastNObservations.defaults 1)
           [Sample.message "system" (str "s"); first; later; later; later] 1 first).
  - simpl. lia.
  - intros e He Ht. elem_cases He; [|reflexivity..].
    exfalso. apply Ht. vm_compute. reflexivity.
  - reflexivity.
  - reflexivity.
  - intros j e Hj He. assert (j = 0%nat) as -> by lia. by injection He as <-.
  - vm_compute. reflexivity.
Defined.

(* ================================================================== *)
(** ** Window collapse *)

Module ClosedWindowFacts.
Import ClosedWindowHistoryProcessor.

Lemma demos_snoc history entry :
  demos (history ++ [entry])
  = demos history ++ (if is_demo entry then [entry] else []).
Proof.
  unfold demos. rewrite filter_app. f_equal.
  destruct (is_demo entry) eqn:E.
  - by rewrite filter_cons_True.
  - rewrite filter_cons_False; [done|]. by rewrite E.
Qed.

Lemma step_demos st entry st' :
  step st entry = Ok st' ->
  demos (snd st') = demos (snd st) ++ (if is_demo entry then [entry] else []).
Proof.
  destruct st as [windows new_history]. unfold step.
  destruct (negb (bool_decide (role entry = "user"%string))).
  { intros [= <-]. apply demos_snoc. }
  destruct (is_demo entry) eqn:Hd.
  { intros [= <-]. simpl. by rewrite demos_snoc, Hd. }
  destruct (content entry) as [content0|]; [|done].
  destruct (1 <=? _)%nat.
  - destruct (search _ _ _) as [file_match|]; intros [= <-]; simpl.
    + rewrite demos_snoc. by destruct (bool_decide _); simpl; rewrite Hd.
    + by rewrite app_nil_r.
  - intros [= <-]. simpl. by rewrite demos_snoc, Hd.
Qed.

Lemma loop_demos entries st st' :
  for_each step entries st = Ok st' ->
  demos (snd st') = demos (snd st) ++ demos entries.
Proof.
  revert st. induction entries as [|entry entries IH]; intros st H; simpl in H.
  - injection H as <-. by rewrite app_nil_r.
  - apply bind_Ok in H as (st1 & Hs & H).
    rewrite (IH _ H), (step_demos _ _ _ Hs), <- app_assoc. f_equal.
    unfold demos. destruct (is_demo entry) eqn:E.
    + by rewrite filter_cons_True.
    + rewrite filter_cons_False; [done|]. by rewrite E.
Qed.

Lemma window_collapse_demos history new_history :
  call history = Ok new_history -> demos new_history = demos history.
Proof.
  unfold call. intros H. apply bind_Ok in H as (st & Hl & [= <-]).
  apply loop_demos in Hl. simpl in Hl. unfold demos in *.
  rewrite filter_reverse, Hl, filter_reverse. apply reverse_involutive.
Qed.

(** The loop raises only on a list content. *)
Lemma window_loop_returns entries st :
  (forall entry, entry ∈ entries -> role entry = "user"%string ->
     is_demo entry = false -> exists c, content entry = Str c) ->
  exists st', for_each step entries st = Ok st'.
Proof.
  revert st. induction entries as [|entry entries IH]; intros st H; simpl; [eauto|].
  assert (exists st1, step st entry = Ok st1) as [st1 ->].
  { destruct st as [windows new_history]. unfold step.
    destruct (bool_decide (role entry = "user"%string)) eqn:Hr; simpl; [|eauto].
    apply bool_decide_eq_true in Hr.
    destruct (is_demo entry) eqn:Hd; [eauto|].
    destruct (H entry) as [c ->]; [left|done|done|].
    destruct (length (finditer _ c _)); [eauto|].
    destruct (search _ _ _); eauto. }
  unfold_bind. apply IH. intros e He. apply H. by right.
Qed.

Lemma window_collapse_returns history :
  (forall entry, entry ∈ history -> role entry = "user"%string ->
     is_demo entry = false -> exists c, content entry = Str c) ->
  exists new_history, call history = Ok new_history.
Proof.
  intros H. unfold call.
  destruct (window_loop_returns (reverse history) (∅, [])) as [st ->]; [|unfold_bind; eauto].
  intros e He Hr Hd. apply H; [|done..]. by apply elem_of_reverse.
Qed.
End ClosedWindowFacts.

(** C2, as stated, fails for elision: a demo observation that carries a tag
    of [always_remove_output_for_tags] is collapsed. *)
Lemma demo_collapsed_when_tagged :
  let entry := Sample.observation (Str Sample.two_lines) ["remove_output"%string] true in
  is_demo entry = true
  /\ LastNObservations.call (LastNObservations.defaults 5) [entry]
     = Ok [set_content entry (Str (str "Old environment output: (2 lines omitted)"))]
  /\ content entry <> Str (str "Old environment output: (2 lines omitted)").
Proof. split; [reflexivity|]. split; [vm_compute; reflexivity|discriminate]. Qed.

(** C2, amended. Elision returns every demo entry whose tags do not meet
    [always_remove_output_for_tags] unchanged at its index, and window
    collapse returns the demo entries of its input unchanged, all of them
    and in their order. *)
Theorem demos_are_kept :
  (forall (self : LastNObservations.t) (history : History),
     LastNObservations.polling self <> 0 ->
     (forall e, e ∈ history ->
        tags_of e ∩ LastNObservations.always_remove_output_for_tags self ≠ ∅ ->
        message_type e = Some "observation"%string) ->
     exists new_history,
       LastNObservations.call self history = Ok new_history
       /\ forall idx entry,
            history !! idx = Some entry -> is_demo entry = true ->
            tags_of entry ∩ LastNObservations.always_remove_output_for_tags self = ∅ ->
            new_history !! idx = Some entry)
  /\ (forall history : History,
        (forall entry, entry ∈ history -> role entry = "user"%string ->
           is_demo entry = false -> exists c, content entry = Str c) ->
        exists new_history,
          ClosedWindowHistoryProcessor.call history = Ok new_history
          /\ demos new_history = demos history).
Proof.
  split.
  - intros self history Hp Hobs.
    destruct (LastNFacts.elision_returns self history Hp Hobs) as [new_history Hc].
    exists new_history. split; [done|]. intros idx entry Hl Hd Hr.
    destruct (LastNFacts.elision_lookup _ _ _ _ _ Hc Hl) as (omit & e' & Homit & Hs & ->).
    f_equal. unfold LastNObservations.step, LastNObservations.keeps in Hs.
    assert (idx ∉ omit) as Hnot.
    { intros Hin. destruct (LastNFacts.omit_indices_spec _ _ _ _ Homit Hin)
        as (e & He & Ho).
      rewrite Hl in He. injection He as <-.
      unfold LastNObservations.is_observation in Ho. rewrite Hd in Ho.
      by rewrite andb_false_r in Ho. }
    rewrite (bool_decide_false _ Hnot) in Hs.
    rewrite (bool_decide_false
               (tags_of entry ∩ LastNObservations.always_remove_output_for_tags self ≠ ∅))
      in Hs by (intros H; by apply H).
    simpl in Hs. by injection Hs as <-.
  - intros history Hstr.
    destruct (ClosedWindowFacts.window_collapse_returns history Hstr) as [new_history Hc].
    exists new_history. split; [done|]. by apply ClosedWindowFacts.window_collapse_demos.
Qed.

Lemma demos_are_kept_witness :
  let demo := Sample.observation (Str Sample.two_lines) ["keep_output"%string] true in
  let obs := Sample.observation (Str Sample.two_lines) [] false in
  (exists new_history,
     LastNObservations.call (LastNObservations.defaults 1) [demo; obs; obs; obs]
     = Ok new_history
     /\ new_history !! 0%nat = Some demo)
  /\ (exists new_history,
        ClosedWindowHistoryProcessor.call [demo; obs] = Ok new_history
        /\ demos new_history = demos [demo; obs]).
Proof.
  intros demo obs. destruct demos_are_kept as [Helide Hwindow]. split.
  - destruct (Helide (LastNObservations.defaults 1) [demo; obs; obs; obs])
      as (new_history & Hc & H).
    + simpl. lia.
    + intros e He _. elem_cases He; reflexivity.
    + exists new_history. split; [exact Hc|].
      apply H; [reflexivity|reflexivity|]. vm_compute. reflexivity.
  - apply (Hwindow [demo; obs]).
    intros e He _ _. elem_cases He; eexists; reflexivity.
Defined.

Example window_collapse_scenario :
  let view name lines :=
    Sample.message "user"
      (str "[File: " ++ str name ++ str " (100 lines total)]" ++ [LF] ++ lines) in
  let r1 := view "a.py"%string (str "1:x" ++ [LF] ++ str "2:y" ++ [LF] ++ str "end") in
  let r2 := view "b.py"%string (str "1:u" ++ [LF]) in
  let r3 := view "a.py"%string (str "5:z" ++ [LF]) in
  ClosedWindowHistoryProcessor.call [r1; r2; r3]
  = Ok [Sample.message "user"
          (str "[File: a.py (100 lines total)]" ++ [LF]
           ++ str "Outdated window with 2 lines omitted..." ++ [LF] ++ str "end");
        r2; r3].
Proof. vm_compute. reflexivity. Qed.

(** C1. Window collapse does not return every entry of its input: a user
    entry that is not a demo, has lines starting with a line number and has
    no file header is left out of the returned history (the loop continues
    without appending it), where the claim wants it returned unchanged. *)
Theorem window_collapse_drops_entry_without_file_header :
  let u1 := Sample.message "user" (str "hello") in
  let u2 := Sample.message "user" (str "1:foo" ++ [LF] ++ str "2:bar" ++ [LF]) in
  let u3 := Sample.message "assistant" (str "bye") in
  ClosedWindowHistoryProcessor.call [u1; u2; u3] = Ok [u1; u3].
Proof. vm_compute. reflexivity. Qed.

(** C3. The two processors that work in place change the entries of the
    caller: after tagging, the entry object of a matching action carries the
    new tags; after cache control, the entry object of the last user message
    has a list content with a cache marker.  In both cases the returned list
    is the list that was passed. *)
Theorem in_place_processors_change_the_input :
  (let entry := Sample.action (str "ls") "bash" in
   let self := {| TagToolCallObservations.tags := {[ "keep_output"%string ]};
                  TagToolCallObservations.function_names := {[ "bash"%string ]} |} in
   exists σ' : Store,
     TagToolCallObservations.call self {[ 7%nat := entry ]} [7%nat] = Ok (σ', [7%nat])
     /\ σ' !! 7%nat = Some (set_tags entry {[ "keep_output"%string ]})
     /\ set_tags entry {[ "keep_output"%string ]} <> entry)
  /\ (let entry := Sample.message "user" (str "x") in
      exists σ' : Store,
        CacheControlHistoryProcessor.call CacheControlHistoryProcessor.defaults
          {[ 7%nat := entry ]} [7%nat] = Ok (σ', [7%nat])
        /\ σ' !! 7%nat
           = Some (set_content entry (Segs [TextSeg (str "x") (Some ephemeral)]))
        /\ set_content entry (Segs [TextSeg (str "x") (Some ephemeral)]) <> entry).
Proof.
  split.
  - eexists. split; [vm_compute; reflexivity|]. split; [vm_compute; reflexivity|].
    discriminate.
  - eexists. split; [vm_compute; reflexivity|]. split; [vm_compute; reflexivity|].
    discriminate.
Qed.

(* ================================================================== *)
(** ** Regex redaction *)

(** C8. With the pattern "<diff>.*</diff>" and [keep_last = 1], in a history
    of three records whose second has the content
    "before<diff>X", a line break, "Y</diff>after", the second record comes
    back with the content "beforeafter" (the dot matches the line break) and
    the last record comes back as it was, whatever it contains. *)
Theorem remove_regex_scenario (r1 r2 r3 : HistoryItem) :
  content r2 = Str (str "before<diff>X" ++ [LF] ++ str "Y</diff>after") ->
  let self := {| RemoveRegex.remove := [RemoveRegex.diff_pattern];
                 RemoveRegex.keep_last := 1 |} in
  RemoveRegex.call self [r1; r2; r3]
  = [RemoveRegex.redact self r1; set_content r2 (Str (str "beforeafter")); r3].
Proof.
  intros H self.
  change (RemoveRegex.call self [r1; r2; r3])
    with [RemoveRegex.redact self r1; RemoveRegex.redact self r2; r3].
  f_equal. f_equal. unfold RemoveRegex.redact. rewrite H. f_equal.
Qed.

Lemma remove_regex_scenario_witness :
  let r2 := Sample.message "user" (str "before<diff>X" ++ [LF] ++ str "Y</diff>after") in
  let r3 := Sample.message "user" (str "<diff>Z</diff>") in
  RemoveRegex.call {| RemoveRegex.remove := [RemoveRegex.diff_pattern];
                      RemoveRegex.keep_last := 1 |} [r3; r2; r3]
  = [Sample.message "user" []; Sample.message "user" (str "beforeafter"); r3].
Proof.
  intros r2 r3.
  rewrite (remove_regex_scenario r3 r2 r3 eq_refl). reflexivity.
Defined.

Lemma tag_tool_calls_without_names_is_identity_witness :
  let entry := Sample.action (str "ls") "bash" in
  TagToolCallObservations.call_v TagToolCallObservations.defaults [entry] = [entry]
  /\ TagToolCallObservations.call TagToolCallObservations.defaults
       {[ 7%nat := entry ]} [7%nat]
     = Ok ({[ 7%nat := entry ]}, [7%nat]).
Proof.
  intros entry.
  destruct (tag_tool_calls_without_names_is_identity
              TagToolCallObservations.defaults eq_refl) as [Hv Hs].
  split; [apply Hv|]. apply Hs.
  intros l Hl. elem_cases Hl. exists entry. reflexivity.
Defined.

(* ================================================================== *)
(** ** Cache control *)

Module CacheFacts.
Import CacheControlHistoryProcessor.

Lemma clear_item_idempotent (items : list Segment) :
  (fun item => set_item_cache_control item None)
    <$> ((fun item => set_item_cache_control item None) <$> items)
  = (fun item => set_item_cache_control item None) <$> items.
Proof.
  rewrite <- list_fmap_compose. apply list_fmap_ext. intros _ item _.
  by destruct item.
Qed.

Lemma clear_idempotent entry :
  _clear_cache_control (_clear_cache_control entry) = _clear_cache_control entry.
Proof.
  destruct entry as [r [s|items] mt tg d tc cc]; unfold _clear_cache_control; simpl.
  - done.
  - simpl_entry. by rewrite clear_item_idempotent.
Qed.

Lemma role_clear entry : role (_clear_cache_control entry) = role entry.
Proof. by destruct entry as [r [s|items] mt tg d tc cc]. Qed.

Lemma role_set entry entry' :
  _set_cache_control entry = Ok entry' -> role entry' = role entry.
Proof.
  destruct entry as [r [s|[|item items]] mt tg d tc cc];
    unfold _set_cache_control; simpl; [|done|];
    unfold_bind; simpl; destruct (name_eqb r "tool");
    by intros [= <-].
Qed.

(** Clearing and setting again gives back an entry that was just set. *)
Lemma set_clear_fixpoint entry entry' :
  _set_cache_control (_clear_cache_control entry) = Ok entry' ->
  _set_cache_control (_clear_cache_control entry') = Ok entry'.
Proof.
  destruct entry as [r [s|[|item items]] mt tg d tc cc];
    unfold _set_cache_control, _clear_cache_control; simpl; [|done|];
    unfold_bind; simpl; destruct (name_eqb r "tool") eqn:Hr;
    intros [= <-]; simpl; rewrite Hr; simpl_entry;
    rewrite ?clear_item_idempotent; try done.
  all: destruct item; reflexivity.
Qed.

Lemma tagging_role self n_tagged i_entry entry entry' :
  role entry' = role entry ->
  tagging self n_tagged i_entry entry' = tagging self n_tagged i_entry entry.
Proof. intros H. unfold tagging. by rewrite H. Qed.

(** A second visit, in the same loop state, changes nothing. *)
Lemma visit_fixpoint self n_tagged i_entry entry entry' n' :
  visit self n_tagged i_entry entry = Ok (entry', n') ->
  visit self n_tagged i_entry entry' = Ok (entry', n').
Proof.
  unfold visit. destruct (tagging _ _ _ (_clear_cache_control entry)) eqn:Ht.
  - intros H. apply bind_Ok in H as (e1 & Hs & [= <- <-]).
    rewrite (tagging_role _ _ _ (_clear_cache_control entry)), Ht.
    + by rewrite (set_clear_fixpoint _ _ Hs).
    + rewrite role_clear. by apply role_set in Hs.
  - intros [= <- <-]. by rewrite clear_idempotent, Ht.
Qed.

Lemma loop_v_fixpoint self entries i n_tagged acc n' acc' :
  for_each (step_v self) (enumerate_from i entries) (n_tagged, acc) = Ok (n', acc') ->
  exists out,
    acc' = acc ++ out
    /\ forall acc2,
         for_each (step_v self) (enumerate_from i out) (n_tagged, acc2)
         = Ok (n', acc2 ++ out).
Proof.
  revert i n_tagged acc. induction entries as [|entry entries IH];
    intros i n_tagged acc H; simpl in H.
  - injection H as <- <-. exists []. split; [by rewrite app_nil_r|].
    intros acc2. by rewrite app_nil_r.
  - apply bind_Ok in H as ([n1 acc1] & Hs & H).
    unfold step_v in Hs. apply bind_Ok in Hs as ([e1 n1'] & Hv & [= <- <-]).
    simpl in H. destruct (IH _ _ _ H) as (out & -> & Hout).
    exists (e1 :: out). split; [by rewrite <- app_assoc|].
    intros acc2. simpl. unfold step_v at 1.
    rewrite (visit_fixpoint _ _ _ _ _ _ Hv). unfold_bind. simpl.
    rewrite Hout. by rewrite <- app_assoc.
Qed.

Lemma call_v_fixpoint self history once :
  call_v self history = Ok once -> call_v self once = Ok once.
Proof.
  unfold call_v. intros H. apply bind_Ok in H as ([n' acc'] & Hl & [= <-]).
  simpl. destruct (loop_v_fixpoint _ _ _ _ _ _ _ Hl) as (out & -> & Hout).
  simpl. rewrite reverse_involutive. unfold enumerate.
  rewrite (Hout []). done.
Qed.
End CacheFacts.

(* ================================================================== *)
(** ** The store and the by-value reading *)

Lemma NoDup_reverse {A : Type} (l : list A) : NoDup l -> NoDup (reverse l).
Proof. intros H. by rewrite reverse_Permutation. Qed.

Lemma read_cons (σ : Store) (l : loc) (ls : list loc) :
  read σ (l :: ls) = (entry ← deref σ l; es ← read σ ls; Ok (entry :: es)).
Proof. reflexivity. Qed.

Lemma deref_insert_ne (σ : Store) (l l' : loc) (entry : HistoryItem) :
  l <> l' -> deref (<[l := entry]> σ) l' = deref σ l'.
Proof. intros H. unfold deref. by rewrite lookup_insert_ne. Qed.

Lemma deref_insert_eq (σ : Store) (l : loc) (entry : HistoryItem) :
  deref (<[l := entry]> σ) l = Ok entry.
Proof. unfold deref. by rewrite lookup_insert_eq. Qed.

Lemma read_insert_notin (σ : Store) (l : loc) (entry : HistoryItem) (ls : list loc) :
  l ∉ ls -> read (<[l := entry]> σ) ls = read σ ls.
Proof.
  induction ls as [|l' ls IH]; intros Hn; [done|].
  apply not_elem_of_cons in Hn as [Hne Hn].
  rewrite !read_cons, deref_insert_ne, IH by done. done.
Qed.

Lemma read_frame (σ σ' : Store) (ls : list loc) :
  (forall l, l ∈ ls -> σ' !! l = σ !! l) -> read σ' ls = read σ ls.
Proof.
  induction ls as [|l ls IH]; intros H; [done|].
  rewrite !read_cons, IH by (intros; apply H; by right).
  unfold deref. rewrite H by left. done.
Qed.

Lemma read_Ok_Forall2 (σ : Store) (ls : list loc) (es : History) :
  read σ ls = Ok es <-> Forall2 (fun l entry => σ !! l = Some entry) ls es.
Proof.
  revert es. induction ls as [|l ls IH]; intros es.
  - split.
    + intros [= <-]. constructor.
    + intros H. by inversion H.
  - rewrite read_cons. split.
    + intros H. apply bind_Ok in H as (e & He & H).
      apply bind_Ok in H as (es' & Hes & [= <-]).
      constructor; [|by apply IH]. unfold deref in He.
      destruct (σ !! l); [by injection He as ->|done].
    + intros H. inversion H as [|? e ? es' Hl Hrest]; subst.
      rewrite (deref_Some _ _ _ Hl). apply IH in Hrest. rewrite Hrest. done.
Qed.

Lemma read_Ok_reverse (σ : Store) (ls : list loc) (es : History) :
  read σ ls = Ok es -> read σ (reverse ls) = Ok (reverse es).
Proof. rewrite !read_Ok_Forall2. apply Forall2_reverse. Qed.

Module CacheStoreFacts.
Import CacheControlHistoryProcessor.

Lemma step_eq self (σ : Store) n_tagged acc i l entry :
  deref σ l = Ok entry ->
  step self (σ, n_tagged, acc) (i, l)
  = (r ← visit self n_tagged i entry; Ok (<[l := fst r]> σ, snd r, acc ++ [l])).
Proof. intros H. unfold step. by rewrite H. Qed.

Lemma step_v_eq self n_tagged accv i entry :
  step_v self (n_tagged, accv) (i, entry)
  = (r ← visit self n_tagged i entry; Ok (snd r, accv ++ [fst r])).
Proof. reflexivity. Qed.

(** On distinct references the loop over the store does what the loop by
    value does, exception included. *)
Lemma loop_by_value self ls :
  forall (σ : Store) es i n_tagged acc accv,
    NoDup ls -> read σ ls = Ok es ->
    match for_each (step_v self) (enumerate_from i es) (n_tagged, accv) with
    | Ok (n', accv') =>
        exists (σ' : Store) out,
          for_each (step self) (enumerate_from i ls) (σ, n_tagged, acc)
          = Ok (σ', n', acc ++ ls)
          /\ accv' = accv ++ out
          /\ read σ' ls = Ok out
          /\ forall l, l ∉ ls -> σ' !! l = σ !! l
    | Raise e =>
        for_each (step self) (enumerate_from i ls) (σ, n_tagged, acc) = Raise e
    end.
Proof.
  induction ls as [|l ls IH]; intros σ es i n_tagged acc accv Hnd Hr.
  - injection Hr as <-. simpl. exists σ, []. by rewrite !app_nil_r.
  - rewrite read_cons in Hr. apply bind_Ok in Hr as (e & He & Hr).
    apply bind_Ok in Hr as (es' & Hes & [= <-]).
    apply NoDup_cons in Hnd as [Hnotin Hnd].
    rewrite !enumerate_from_cons, !for_each_cons, step_v_eq, (step_eq _ _ _ _ _ _ _ He).
    destruct (visit self n_tagged i e) as [[e1 n1]|err];
      [|by rewrite !bind_Raise_l].
    rewrite !bind_Ok_l. cbn [fst snd].
    specialize (IH (<[l := e1]> σ) es' (S i) n1 (acc ++ [l]) (accv ++ [e1]) Hnd).
    rewrite read_insert_notin in IH by done. specialize (IH Hes).
    destruct (for_each (step_v self) _ _) as [[n' accv']|err]; [|done].
    destruct IH as (σ' & out & Hloop & -> & Hread & Hframe).
    exists σ', (e1 :: out). rewrite Hloop, <- !app_assoc. split; [done|].
    split; [done|]. split.
    + rewrite read_cons, Hread. unfold deref.
      rewrite Hframe, lookup_insert_eq by done. done.
    + intros l' Hl'. apply not_elem_of_cons in Hl' as [Hne Hl'].
      rewrite Hframe, lookup_insert_ne by done. done.
Qed.

(** A loop that returns has found every reference in the store. *)
Lemma loop_returns_read self ls :
  forall (σ : Store) i n_tagged acc st,
    NoDup ls ->
    for_each (step self) (enumerate_from i ls) (σ, n_tagged, acc) = Ok st ->
    exists es, read σ ls = Ok es.
Proof.
  induction ls as [|l ls IH]; intros σ i n_tagged acc st Hnd H; [by exists []|].
  apply NoDup_cons in Hnd as [Hnotin Hnd].
  rewrite enumerate_from_cons, for_each_cons in H.
  apply bind_Ok in H as ([[σ1 n1] acc1] & Hs & H).
  unfold step in Hs. apply bind_Ok in Hs as (e & He & Hs).
  apply bind_Ok in Hs as (r & Hv & [= <- <- <-]).
  destruct (IH _ _ _ _ _ Hnd H) as [es Hes].
  rewrite read_insert_notin in Hes by done.
  exists (e :: es). by rewrite read_cons, He, Hes.
Qed.

Lemma call_by_value self (σ : Store) history es :
  NoDup history -> read σ history = Ok es ->
  match call_v self es with
  | Ok es' =>
      exists σ' : Store,
        call self σ history = Ok (σ', history)
        /\ read σ' history = Ok es'
        /\ forall l, l ∉ history -> σ' !! l = σ !! l
  | Raise e => call self σ history = Raise e
  end.
Proof.
  intros Hnd Hr. unfold call_v, call, enumerate.
  pose proof (loop_by_value self (reverse history) σ (reverse es) 0%nat 0 [] [])
    as H.
  specialize (H ltac:(by apply NoDup_reverse) (read_Ok_reverse _ _ _ Hr)).
  destruct (for_each (step_v self) _ _) as [[n' accv']|err]; simpl.
  - destruct H as (σ' & out & Hloop & -> & Hread & Hframe).
    exists σ'. rewrite Hloop. simpl. rewrite reverse_involutive.
    split; [done|]. split.
    + apply read_Ok_reverse in Hread. by rewrite reverse_involutive in Hread.
    + intros l Hl. apply Hframe. by rewrite elem_of_reverse.
  - by rewrite H.
Qed.

Lemma call_returns_read self (σ : Store) history res :
  NoDup history -> call self σ history = Ok res ->
  exists es, read σ history = Ok es.
Proof.
  intros Hnd H. unfold call in H. apply bind_Ok in H as (st & Hl & _).
  destruct (loop_returns_read _ _ _ _ _ _ _ (NoDup_reverse _ Hnd) Hl) as [es Hes].
  exists (reverse es). apply read_Ok_reverse in Hes.
  by rewrite reverse_involutive in Hes.
Qed.
(** On the store, for distinct references, a second call changes nothing. *)
Lemma cache_call_fixpoint self (σ σ1 : Store) (history h1 : list loc) :
  NoDup history ->
  call self σ history = Ok (σ1, h1) -> call self σ1 h1 = Ok (σ1, h1).
Proof.
  intros Hnd Hc.
  destruct (call_returns_read _ _ _ _ Hnd Hc) as [es Hes].
  pose proof (call_by_value self σ history es Hnd Hes) as H1.
  destruct (call_v self es) as [es1|err] eqn:Hv;
    [|by rewrite Hc in H1].
  destruct H1 as (σ' & Hc' & Hread1 & Hframe1).
  rewrite Hc in Hc'. injection Hc' as <- <-.
  pose proof (call_by_value self σ1 h1 es1 Hnd Hread1) as H2.
  rewrite (CacheFacts.call_v_fixpoint _ _ _ Hv) in H2.
  destruct H2 as (σ2 & Hc2 & Hread2 & Hframe2).
  rewrite Hc2. f_equal. f_equal. apply map_eq. intros l.
  destruct (decide (l ∈ h1)) as [Hin|Hnotin]; [|by apply Hframe2].
  apply read_Ok_Forall2 in Hread1, Hread2.
  apply list_elem_of_lookup in Hin as [i Hi].
  destruct (Forall2_lookup_l _ _ _ _ _ Hread1 Hi) as (e1 & He1 & Hl1).
  destruct (Forall2_lookup_l _ _ _ _ _ Hread2 Hi) as (e2 & He2 & Hl2).
  rewrite Hl1, Hl2. congruence.
Qed.
End CacheStoreFacts.

(** C7. Cache control is idempotent: a second application gives the result
    of the first, with the same markers on the entries and on their items.
    By value this holds for every history; on the store, for every history of
    distinct entry objects, a second call leaves the store written by the
    first as it is and returns the same list. *)
Theorem cache_control_idempotent (self : CacheControlHistoryProcessor.t) :
  (forall history once : History,
     CacheControlHistoryProcessor.call_v self history = Ok once ->
     CacheControlHistoryProcessor.call_v self once = Ok once)
  /\ (forall (σ σ1 : Store) (history h1 : list loc),
        NoDup history ->
        CacheControlHistoryProcessor.call self σ history = Ok (σ1, h1) ->
        CacheControlHistoryProcessor.call self σ1 h1 = Ok (σ1, h1)).
Proof.
  split; [apply CacheFacts.call_v_fixpoint|].
  intros σ σ1 history h1. apply CacheStoreFacts.cache_call_fixpoint.
Qed.

Lemma cache_control_idempotent_witness :
  let u := Sample.message "user" (str "x") in
  let t := Sample.message "tool" (str "y") in
  let a := Sample.message "assistant" (str "z") in
  exists (σ1 : Store),
    CacheControlHistoryProcessor.call CacheControlHistoryProcessor.defaults
      {[ 1%nat := u; 2%nat := a; 3%nat := t; 4%nat := u ]} [1; 2; 3; 4]%nat
    = Ok (σ1, [1; 2; 3; 4]%nat)
    /\ CacheControlHistoryProcessor.call CacheControlHistoryProcessor.defaults
         σ1 [1; 2; 3; 4]%nat
       = Ok (σ1, [1; 2; 3; 4]%nat).
Proof.
  intros u t a. eexists. split; [vm_compute; reflexivity|].
  destruct (cache_control_idempotent CacheControlHistoryProcessor.defaults)
    as [_ Hstore].
  apply (Hstore {[ 1%nat := u; 2%nat := a; 3%nat := t; 4%nat := u ]} _
           [1; 2; 3; 4]%nat [1; 2; 3; 4]%nat).
  - compute_done.
  - vm_compute. reflexivity.
Defined.

(* ================================================================== *)
(** ** The matcher and the matching relation

    Whatever the matcher returns is a match in the sense of [matches], and
    the matcher fails only when no match allows the continuation to succeed. *)

Section MatcherFacts.
Variable fl : Flags.
Variable s : text.

Lemma one_Some p i c k res :
  one s p i c k = Some res ->
  exists a, s !! i = Some a /\ p a = true /\ k (S i) c = Some res.
Proof.
  unfold one. destruct (s !! i) as [a|]; [|done].
  destruct (p a) eqn:Hp; [|done]. eauto.
Qed.

Lemma one_None p i c k a :
  one s p i c k = None -> s !! i = Some a -> p a = true -> k (S i) c = None.
Proof. unfold one. intros H Ha Hp. by rewrite Ha, Hp in H. Qed.

Lemma star_loop_eq body g k fuel i c :
  star_loop body g k fuel i c
  = let again j c' :=
      if (i <? j)%nat then
        match fuel with
        | O => k j c'
        | S fuel' => star_loop body g k fuel' j c'
        end
      else k j c' in
    if g then
      match body i c again with
      | Some res => Some res
      | None => k i c
      end
    else
      match k i c with
      | Some res => Some res
      | None => body i c again
      end.
Proof. by destruct fuel. Qed.

(** A match moves forward and consumes characters of [s] only. *)
Lemma matches_bounds r i c j c' :
  matches fl s r i c j c' -> (i <= j)%nat /\ ((i < j)%nat -> (j <= length s)%nat).
Proof.
  induction 1;
    try match goal with
        | H : s !! _ = Some _ |- _ => apply lookup_lt_Some in H
        end; lia.
Qed.

Lemma star_loop_sound body g r k :
  (forall i c k' res, body i c k' = Some res ->
     exists j c', matches fl s r i c j c' /\ k' j c' = Some res) ->
  forall fuel i c res,
    star_loop body g k fuel i c = Some res ->
    exists j c', matches fl s (Star g r) i c j c' /\ k j c' = Some res.
Proof.
  intros Hbody.
  assert (forall i c res, k i c = Some res ->
            exists j c', matches fl s (Star g r) i c j c' /\ k j c' = Some res)
    as Hstop.
  { intros i c res Hk. exists i, c. split; [apply matches_Star_stop|exact Hk]. }
  assert (forall (rest : nat -> captures -> option (nat * captures)) i c res,
            (forall j c' res', (i < j)%nat -> rest j c' = Some res' ->
               exists j' c'', matches fl s (Star g r) j c' j' c''
                              /\ k j' c'' = Some res') ->
            body i c (fun j c' => if (i <? j)%nat then rest j c' else k j c')
            = Some res ->
            exists j c', matches fl s (Star g r) i c j c' /\ k j c' = Some res)
    as Hmore.
  { intros rest i c res Hrest Hb.
    apply Hbody in Hb as (j & c' & Hm & Hagain).
    pose proof (matches_bounds _ _ _ _ _ Hm) as [Hle _].
    destruct (i <? j)%nat eqn:Hlt.
    - apply Nat.ltb_lt in Hlt.
      apply Hrest in Hagain as (j' & c'' & Hm' & Hk); [|done].
      exists j', c''. split; [|done].
      by apply (matches_Star_more _ _ _ _ _ _ j c').
    - apply Nat.ltb_ge in Hlt. assert (j = i) as -> by lia.
      exists i, c'. split; [by apply matches_Star_empty|done]. }
  induction fuel as [|fuel IH]; intros i c res H;
    rewrite star_loop_eq in H; cbv zeta in H.
  - destruct g.
    + destruct (body i c _) as [res'|] eqn:Hb; [|by apply Hstop].
      injection H as ->. apply (Hmore k); [|done].
      intros j c' res' _ Hk. by apply Hstop.
    + destruct (k i c) as [res'|] eqn:Hk;
        [injection H as ->; by apply Hstop|].
      apply (Hmore k); [|done]. intros j c' res' _ Hk'. by apply Hstop.
  - destruct g.
    + destruct (body i c _) as [res'|] eqn:Hb; [|by apply Hstop].
      injection H as ->. apply (Hmore (star_loop body true k fuel)); [|done].
      intros j c' res' _ Hl. by apply IH.
    + destruct (k i c) as [res'|] eqn:Hk;
        [injection H as ->; by apply Hstop|].
      apply (Hmore (star_loop body false k fuel)); [|done].
      intros j c' res' _ Hl. by apply IH.
Qed.

Lemma re_match_sound r :
  forall i c k res,
    re_match fl s r i c k = Some res ->
    exists j c', matches fl s r i c j c' /\ k j c' = Some res.
Proof.
  induction r as [a| | | |cs| | | |r1 IH1 r2 IH2|r1 IH1 r2 IH2|g r IH|n r IH];
    intros i c k res H; simpl in H.
  - apply one_Some in H as (b & Hb & Hp & Hk). apply bool_decide_eq_true in Hp.
    subst b. exists (S i), c. split; [by constructor|done].
  - apply one_Some in H as (b & Hb & Hp & Hk).
    exists (S i), c. split; [by apply (matches_Dot _ _ b)|done].
  - apply one_Some in H as (b & Hb & Hp & Hk).
    exists (S i), c. split; [by apply (matches_Digit _ _ b)|done].
  - apply one_Some in H as (b & Hb & Hp & Hk).
    exists (S i), c. split; [by apply (matches_Space _ _ b)|done].
  - apply one_Some in H as (b & Hb & Hp & Hk).
    exists (S i), c. split; [by apply (matches_NoneOf _ _ _ b)|done].
  - destruct (at_bol fl s i) eqn:Hb; [|done].
    exists i, c. split; [by constructor|done].
  - destruct (at_eol fl s i) eqn:Hb; [|done].
    exists i, c. split; [by constructor|done].
  - exists i, c. split; [constructor|done].
  - apply IH1 in H as (j & c' & H1 & H). apply IH2 in H as (j' & c'' & H2 & H).
    exists j', c''. split; [|done]. by apply (matches_Cat _ _ _ _ _ _ j c').
  - destruct (re_match fl s r1 i c k) as [res'|] eqn:H1.
    + injection H as ->. apply IH1 in H1 as (j & c' & Hm & Hk).
      exists j, c'. split; [by apply matches_Alt_l|done].
    + apply IH2 in H as (j & c' & Hm & Hk).
      exists j, c'. split; [by apply matches_Alt_r|done].
  - by apply (star_loop_sound _ _ _ _ IH) in H.
  - apply IH in H as (j & c' & Hm & Hk).
    exists j, (<[n := (i, j)]> c'). split; [by constructor|done].
Qed.

Lemma star_loop_complete body g r k :
  (forall i c k', body i c k' = None ->
     forall j c', matches fl s r i c j c' -> k' j c' = None) ->
  forall fuel i c,
    (length s <= fuel + i)%nat ->
    star_loop body g k fuel i c = None ->
    forall j c', matches fl s (Star g r) i c j c' -> k j c' = None.
Proof.
  intros Hbody.
  assert (forall (rest : nat -> captures -> option (nat * captures)) i c,
            (if g then
               match body i c (fun j c' => if (i <? j)%nat then rest j c'
                                           else k j c') with
               | Some res => Some res
               | None => k i c
               end
             else
               match k i c with
               | Some res => Some res
               | None => body i c (fun j c' => if (i <? j)%nat then rest j c'
                                               else k j c')
               end) = None ->
            k i c = None
            /\ forall j c', matches fl s r i c j c' ->
                  (if (i <? j)%nat then rest j c' else k j c') = None)
    as Hturn.
  { intros rest i c H.
    assert (k i c = None
            /\ body i c (fun j c' => if (i <? j)%nat then rest j c' else k j c')
               = None) as [Hk Hb].
    { destruct g.
      - destruct (body i c _); [done|]. done.
      - destruct (k i c); [done|]. done. }
    split; [done|]. intros j c' Hr. apply (Hbody _ _ _ Hb _ _ Hr). }
  induction fuel as [|fuel IH]; intros i c Hfuel H j c' Hm;
    rewrite star_loop_eq in H; cbv zeta in H;
    apply Hturn in H as [Hk Hb];
    (inversion Hm as [| | | | | | | | | | |? ? ? ?|? ? ? ? c1 Hr
                      |? ? ? ? j1 c1 ? ? Hr Hlt Hrest|]; subst; [done| |]);
    pose proof (Hb _ _ Hr) as Hagain.
  - by rewrite Nat.ltb_irrefl in Hagain.
  - apply matches_bounds in Hr. lia.
  - by rewrite Nat.ltb_irrefl in Hagain.
  - apply Nat.ltb_lt in Hlt as Hlt'. rewrite Hlt' in Hagain.
    apply (IH j1 c1); [lia|done|done].
Qed.

Lemma re_match_complete r :
  forall i c k,
    re_match fl s r i c k = None ->
    forall j c', matches fl s r i c j c' -> k j c' = None.
Proof.
  induction r as [a| | | |cs| | | |r1 IH1 r2 IH2|r1 IH1 r2 IH2|g r IH|n r IH];
    intros i c k H j c' Hm; simpl in H; inversion Hm; subst.
  - apply (one_None _ _ _ _ a H); [done|]. by apply bool_decide_eq_true.
  - by apply (one_None _ _ _ _ a H).
  - by apply (one_None _ _ _ _ a H).
  - by apply (one_None _ _ _ _ a H).
  - by apply (one_None _ _ _ _ a H).
  - match goal with Hb : at_bol _ _ _ = true |- _ => by rewrite Hb in H end.
  - match goal with Hb : at_eol _ _ _ = true |- _ => by rewrite Hb in H end.
  - done.
  - match goal with
    | H1 : matches _ _ r1 _ _ _ _, H2 : matches _ _ r2 _ _ _ _ |- _ =>
        apply (IH2 _ _ _ (IH1 _ _ _ H _ _ H1) _ _ H2)
    end.
  - destruct (re_match fl s r1 i c k) eqn:H1; [done|]. by apply (IH1 _ _ _ H1).
  - destruct (re_match fl s r1 i c k) eqn:H1; [done|]. by apply (IH2 _ _ _ H).
  - eapply (star_loop_complete _ _ _ _ IH); [|exact H|constructor]. lia.
  - eapply (star_loop_complete _ _ _ _ IH); [|exact H|]; [lia|].
    by apply matches_Star_empty.
  - eapply (star_loop_complete _ _ _ _ IH); [|exact H|]; [lia|].
    by apply (matches_Star_more _ _ _ _ _ _ j0 c'0).
  - match goal with
    | H1 : matches _ _ r _ _ _ _ |- _ => apply (IH _ _ _ H _ _ H1)
    end.
Qed.

(** One attempt of the scanner. *)
Lemma match_at_Some r adv i mt :
  match_at fl s r adv i = Some mt ->
  m_start mt = i
  /\ matches fl s r i ∅ (m_end mt) (m_groups mt)
  /\ (adv = true -> m_end mt <> i).
Proof.
  unfold match_at. destruct (re_match _ _ _ _ _ _) as [[j c]|] eqn:H; [|done].
  intros [= <-]. simpl. apply re_match_sound in H as (j' & c' & Hm & Hk).
  destruct (adv && (j' =? i)%nat) eqn:Ha; [done|]. injection Hk as <- <-.
  split; [done|]. split; [done|]. intros ->. simpl in Ha.
  by apply Nat.eqb_neq in Ha.
Qed.

Lemma match_at_None r adv i j c' :
  match_at fl s r adv i = None ->
  matches fl s r i ∅ j c' -> adv = false \/ j <> i -> False.
Proof.
  unfold match_at. destruct (re_match _ _ _ _ _ _) as [[j0 c0]|] eqn:H; [done|].
  intros _ Hm Hadv. pose proof (re_match_complete _ _ _ _ H _ _ Hm) as Hk.
  simpl in Hk. destruct Hadv as [->|Hne]; [done|].
  apply Nat.eqb_neq in Hne. rewrite Hne, andb_false_r in Hk. done.
Qed.

(** The search stops at the first position where an attempt succeeds. *)
Lemma search_from_Some r fuel adv i mt :
  search_from fl s r fuel adv i = Some mt ->
  (i <= m_start mt <= i + fuel)%nat
  /\ (exists adv', match_at fl s r adv' (m_start mt) = Some mt
                   /\ (m_start mt = i -> adv' = adv))
  /\ (forall q, (i < q < m_start mt)%nat -> match_at fl s r false q = None)
  /\ ((i < m_start mt)%nat -> match_at fl s r adv i = None).
Proof.
  revert adv i. induction fuel as [|fuel IH]; intros adv i H; simpl in H.
  - destruct (match_at fl s r adv i) as [mt'|] eqn:Hm; [|done].
    injection H as ->. pose proof (match_at_Some _ _ _ _ Hm) as (Hs & _).
    split; [lia|]. split; [exists adv; by rewrite Hs|]. split; intros; lia.
  - destruct (match_at fl s r adv i) as [mt'|] eqn:Hm.
    + injection H as ->. pose proof (match_at_Some _ _ _ _ Hm) as (Hs & _).
      split; [lia|]. split; [exists adv; by rewrite Hs|]. split; intros; lia.
    + apply IH in H as (Hle & (adv' & Hat & Hadv) & Hbefore & Hfirst).
      split; [lia|]. split; [exists adv'; split; [done|lia]|].
      split; [|done]. intros q Hq.
      destruct (decide (q = S i)) as [->|Hne].
      * apply Hfirst. lia.
      * apply Hbefore. lia.
Qed.

Lemma search_from_None r fuel adv i :
  search_from fl s r fuel adv i = None ->
  match_at fl s r adv i = None
  /\ forall q, (i < q <= i + fuel)%nat -> match_at fl s r false q = None.
Proof.
  revert adv i. induction fuel as [|fuel IH]; intros adv i H; simpl in H.
  - destruct (match_at fl s r adv i); [done|]. split; [done|]. intros; lia.
  - destruct (match_at fl s r adv i); [done|]. split; [done|].
    apply IH in H as [H0 H]. intros q Hq.
    destruct (decide (q = S i)) as [->|Hne]; [done|]. apply H. lia.
Qed.

Lemma search_from_all_None r fuel adv i :
  match_at fl s r adv i = None ->
  (forall q, (i < q <= i + fuel)%nat -> match_at fl s r false q = None) ->
  search_from fl s r fuel adv i = None.
Proof.
  revert adv i. induction fuel as [|fuel IH]; intros adv i H0 H; simpl; rewrite H0.
  - done.
  - apply IH; [apply H; lia|]. intros q Hq. apply H. lia.
Qed.

(** Every match of the scanner is the result of an attempt where it
    starts. *)
Lemma finditer_from_elem r fuel adv i mt :
  mt ∈ finditer_from fl s r fuel adv i ->
  exists adv', match_at fl s r adv' (m_start mt) = Some mt.
Proof.
  revert adv i. induction fuel as [|fuel IH]; intros adv i H; simpl in H.
  - by apply elem_of_nil in H.
  - destruct (search_from _ _ _ _ _ _) as [mt'|] eqn:Hs;
      [|by apply elem_of_nil in H].
    apply elem_of_cons in H as [->|H]; [|eauto].
    apply search_from_Some in Hs as (_ & (adv' & Hat & _) & _). eauto.
Qed.
End MatcherFacts.

(* ================================================================== *)
(** ** Slices and the shape of matches *)

Lemma slice_length (i j : nat) (s : text) :
  (j <= length s)%nat -> length (slice i j s) = (j - i)%nat.
Proof. intros H. unfold slice. rewrite length_take, length_drop. lia. Qed.

Lemma slice_app (i j k : nat) (s : text) :
  (i <= j <= k)%nat -> slice i j s ++ slice j k s = slice i k s.
Proof.
  intros H. unfold slice.
  replace (drop j s) with (drop (j - i) (drop i s))
    by (rewrite drop_drop; f_equal; lia).
  rewrite take_take_drop. f_equal. lia.
Qed.

Lemma slice_app_more (i j k : nat) (s rest : text) :
  (i <= j <= k)%nat -> slice i j s ++ slice j k s ++ rest = slice i k s ++ rest.
Proof. intros H. by rewrite app_assoc, slice_app. Qed.

Lemma upto_slice_from (i j : nat) (s : text) :
  (i <= j)%nat -> upto i s ++ slice i j s ++ from j s = s.
Proof.
  intros H. unfold upto, slice, from. rewrite app_assoc, take_take_drop.
  replace (i + (j - i))%nat with j by lia. apply take_drop.
Qed.

Lemma slice_cons (i : nat) (a : ascii) (s : text) (j : nat) :
  s !! i = Some a -> (i < j)%nat -> slice i j s = a :: slice (S i) j s.
Proof.
  intros Ha Hlt. unfold slice. rewrite (drop_S _ _ _ Ha).
  replace (j - i)%nat with (S (j - S i)) by lia. done.
Qed.

Lemma slice_empty (i : nat) (s : text) : slice i i s = [].
Proof. unfold slice. by rewrite Nat.sub_diag. Qed.

Section ShapeFacts.
Variable fl : Flags.
Variable s : text.

Lemma matches_Cat_inv r1 r2 i c k c'' :
  matches fl s (Cat r1 r2) i c k c'' ->
  exists j c', matches fl s r1 i c j c' /\ matches fl s r2 j c' k c''.
Proof. inversion 1; subst; eauto. Qed.

Lemma matches_Group_inv n r i c j c' :
  matches fl s (Group n r) i c j c' ->
  exists c0, matches fl s r i c j c0 /\ c' = <[n := (i, j)]> c0.
Proof. inversion 1; subst; eauto. Qed.

Lemma matches_Empty_inv i c j c' :
  matches fl s Empty i c j c' -> j = i /\ c' = c.
Proof. by inversion 1. Qed.

Lemma matches_Lit_inv a i c j c' :
  matches fl s (Lit a) i c j c' -> j = S i /\ c' = c /\ s !! i = Some a.
Proof. by inversion 1. Qed.

(** A literal string matches itself and nothing else. *)
Lemma matches_Seq_Lit (t : text) i c j c' :
  matches fl s (Seq (Lit <$> t)) i c j c' ->
  j = (i + length t)%nat /\ c' = c /\ slice i j s = t.
Proof.
  revert i. induction t as [|a t IH]; intros i H; simpl in H.
  - apply matches_Empty_inv in H as [-> ->].
    rewrite Nat.add_0_r. split; [done|]. split; [done|]. apply slice_empty.
  - apply matches_Cat_inv in H as (j1 & c1 & H1 & H).
    apply matches_Lit_inv in H1 as (-> & -> & Ha).
    apply IH in H as (-> & -> & Hs).
    split; [simpl; lia|]. split; [done|].
    rewrite (slice_cons _ _ _ _ Ha) by lia. f_equal. exact Hs.
Qed.

Lemma matches_Lits (w : string) i c j c' :
  matches fl s (Lits w) i c j c' ->
  j = (i + length (str w))%nat /\ c' = c /\ slice i j s = str w.
Proof. apply matches_Seq_Lit. Qed.

Lemma matches_groups_free r i c j c' :
  matches fl s r i c j c' -> groups_free r = true -> c' = c.
Proof.
  induction 1; simpl; intros Hg; try done.
  - apply andb_true_iff in Hg as [Hg1 Hg2]. rewrite IHmatches2, IHmatches1; done.
  - apply andb_true_iff in Hg as [Hg1 Hg2]. auto.
  - apply andb_true_iff in Hg as [Hg1 Hg2]. auto.
  - auto.
  - rewrite IHmatches2, IHmatches1; done.
Qed.

(** A non-empty run of characters out of [cs]. *)
Lemma matches_Plus_NoneOf g cs i c j c' :
  matches fl s (Plus g (NoneOf cs)) i c j c' ->
  (i < j <= length s)%nat /\ c' = c.
Proof.
  intros H. pose proof (matches_groups_free _ _ _ _ _ H eq_refl) as ->.
  apply matches_bounds in H as Hb.
  apply matches_Cat_inv in H as (j1 & c1 & H1 & H).
  inversion H1; subst. apply matches_bounds in H. split; [lia|done].
Qed.

Lemma matches_Star_NoneOf g cs i c j c' :
  matches fl s (Star g (NoneOf cs)) i c j c' -> (i <= j)%nat /\ c' = c.
Proof.
  intros H. pose proof (matches_groups_free _ _ _ _ _ H eq_refl) as ->.
  apply matches_bounds in H. split; [lia|done].
Qed.
End ShapeFacts.

Ltac invert_matches :=
  repeat match goal with
    | H : matches _ _ (Plus _ (NoneOf _)) _ _ _ _ |- _ =>
        apply matches_Plus_NoneOf in H as (? & ->)
    | H : matches _ _ (Star _ (NoneOf _)) _ _ _ _ |- _ =>
        apply matches_Star_NoneOf in H as (? & ->)
    | H : matches _ _ (Lits _) _ _ _ _ |- _ =>
        apply matches_Lits in H as (-> & -> & ?)
    | H : matches _ _ (Cat _ _) _ _ _ _ |- _ =>
        apply matches_Cat_inv in H as (? & ? & ? & ?)
    | H : matches _ _ (Group _ _) _ _ _ _ |- _ =>
        apply matches_Group_inv in H as (? & ? & ->)
    | H : matches _ _ Empty _ _ _ _ |- _ =>
        apply matches_Empty_inv in H as [-> ->]
    end.

(* ================================================================== *)
(** ** Image segmentation *)

Module ImageFacts.
Import ImageParsingHistoryProcessor.

(** The shape of a match of the image pattern: the prefix (group 1), the
    MIME type (group 3), ";base64,", the data (group 4) and the closing
    parenthesis (group 5) follow each other. *)
Lemma image_match_shape (c : text) adv i mt :
  match_at NOFLAG c _pattern adv i = Some mt ->
  exists j1 j3 j4,
    (i + 9 <= j1 /\ j1 < j3 /\ j3 + 8 < j4 /\ j4 < length c)%nat
    /\ m_start mt = i /\ m_end mt = S j4
    /\ m_groups mt !! 1%nat = Some (i, j1)
    /\ m_groups mt !! 3%nat = Some (j1, j3)
    /\ m_groups mt !! 4%nat = Some ((j3 + 8)%nat, j4)
    /\ m_groups mt !! 5%nat = Some (j4, S j4)
    /\ slice j3 (j3 + 8) c = str ";base64,".
Proof.
  intros H. apply match_at_Some in H as (Hstart & H & _).
  destruct mt as [st en gs]. simpl in *. subst st.
  unfold _pattern in H. cbn [Seq foldr] in H. invert_matches.
  change (length (str "![")) with 2%nat in *.
  change (length (str "](data:")) with 7%nat in *.
  change (length (str ";base64,")) with 8%nat in *.
  change (length (str ")")) with 1%nat in *.
  match goal with
  | H3 : (?j2 + 7 < ?j3 <= _)%nat, H4 : (?j3 + 8 < ?j4 <= _)%nat,
    H5 : slice ?j4 (?j4 + 1) c = _ |- _ =>
      exists (j2 + 7)%nat, j3, j4;
      assert (j4 < length c)%nat
        by (destruct (decide (j4 < length c)%nat); [done|];
            apply (f_equal length) in H5; unfold slice in H5;
            rewrite length_take, length_drop in H5; simpl in H5; lia)
  end.
  split; [lia|]. split; [done|]. split; [lia|].
  rewrite !lookup_insert_ne by lia.
  rewrite (lookup_insert_ne _ 5%nat 3%nat), (lookup_insert_ne _ 4%nat 3%nat) by lia.
  rewrite (lookup_insert_ne _ 5%nat 4%nat) by lia.
  rewrite !lookup_insert_eq.
  split; [done|]. split; [done|]. split; [done|].
  split; [by replace (S x3) with (x3 + 1)%nat by lia|]. done.
Qed.

Lemma slice_nonempty (i j : nat) (c : text) :
  (i < j <= length c)%nat -> slice i j c <> [].
Proof.
  intros H Hs. apply (f_equal length) in Hs. rewrite slice_length in Hs by lia.
  simpl in Hs. lia.
Qed.

Lemma add_text_start (pre g : text) :
  g <> [] -> add_text (add_text [] pre) g = [TextSeg (pre ++ g) None].
Proof. intros Hg. destruct pre, g; done. Qed.

Lemma add_text_after_image (l : list Segment) (u g post : text) :
  g <> [] ->
  add_text (add_text (l ++ [ImageSeg u None]) g) post
  = l ++ [ImageSeg u None; TextSeg (g ++ post) None].
Proof.
  intros Hg. destruct g as [|a g]; [done|].
  assert (add_text (l ++ [ImageSeg u None]) (a :: g)
          = (l ++ [ImageSeg u None]) ++ [TextSeg (a :: g) None]) as ->.
  { unfold add_text. by rewrite last_snoc. }
  destruct post as [|b post].
  - by rewrite app_nil_r, <- app_assoc.
  - unfold add_text. rewrite last_snoc, length_app. simpl.
    replace (length (l ++ [ImageSeg u None]) + 1 - 1)%nat
      with (length (l ++ [ImageSeg u None])) by lia.
    by rewrite take_app_length, <- app_assoc.
Qed.

(** The segments of a text with exactly one match, of an allowed type. *)
Lemma parse_one_image self (c : text) mt :
  finditer NOFLAG c _pattern = [mt] ->
  normalize (group c mt 3) ∈ allowed_mime_types self ->
  _parse_images self c
  = [TextSeg (upto (m_start mt) c ++ group c mt 1) None;
     ImageSeg (str "data:" ++ normalize (group c mt 3) ++ str ";base64,"
               ++ group c mt 4) None;
     TextSeg (group c mt 5 ++ from (m_end mt) c) None]
  /\ c = upto (m_start mt) c ++ group c mt 1 ++ group c mt 3 ++ str ";base64,"
         ++ group c mt 4 ++ group c mt 5 ++ from (m_end mt) c.
Proof.
  intros Hfind Hallowed.
  assert (mt ∈ finditer NOFLAG c _pattern) as Hin by (rewrite Hfind; left).
  apply finditer_from_elem in Hin as [adv Hat].
  apply image_match_shape in Hat
    as (j1 & j3 & j4 & Hb & Hstart & Hend & Hg1 & Hg3 & Hg4 & Hg5 & Hlit).
  assert (group c mt 1 = slice (m_start mt) j1 c) as E1
    by (unfold group; by rewrite Hg1).
  assert (group c mt 5 = slice j4 (S j4) c) as E5
    by (unfold group; by rewrite Hg5).
  split.
  - unfold _parse_images. rewrite Hfind. cbn [foldl]. unfold step.
    rewrite (bool_decide_true _ Hallowed). cbv beta iota zeta.
    assert (slice 0 (m_start mt) c = upto (m_start mt) c) as ->
      by (unfold slice, upto; by rewrite Nat.sub_0_r).
    rewrite add_text_start by (rewrite E1; apply slice_nonempty; lia).
    rewrite (add_text_after_image [_]) by (rewrite E5; apply slice_nonempty; lia).
    done.
  - rewrite E1, E5. unfold group. rewrite Hg3, Hg4, <- Hlit, Hend.
    rewrite !slice_app_more by lia.
    symmetry. apply upto_slice_from. lia.
Qed.
End ImageFacts.

(** C9, as stated, fails: the text items keep the markdown around the
    image ("![alt](data:" before it and the closing parenthesis after it),
    so putting the image markdown, or the data URI, back where the image
    item is does not give the original string. *)
Lemma image_markdown_reinserted_is_not_original :
  let c := str "![a](data:image/png;base64,AAAA)" in
  let segments :=
    ImageParsingHistoryProcessor._parse_images
      ImageParsingHistoryProcessor.defaults c in
  exists mt,
    finditer NOFLAG c ImageParsingHistoryProcessor._pattern = [mt]
    /\ group0 c mt = c
    /\ segments = [TextSeg (str "![a](data:") None;
                   ImageSeg (str "data:image/png;base64,AAAA") None;
                   TextSeg (str ")") None]
    /\ reassemble (group0 c mt) segments <> c
    /\ reassemble (str "data:image/png;base64,AAAA") segments <> c.
Proof.
  eexists. split; [vm_compute; reflexivity|].
  split; [vm_compute; reflexivity|]. split; [vm_compute; reflexivity|].
  split; vm_compute; discriminate.
Qed.

(** C9, amended. For a user or tool record whose content is a string:
    when the image pattern has no match in the string, [_parse_images] gives
    the string as a single text item and the record is returned unchanged;
    when it has exactly one match, whose MIME type is allowed once
    "image/jpg" is read as "image/jpeg", the content becomes a text item, one
    image item for the data URI (with the normalised type) and a text item,
    and the text items with the MIME type, ";base64," and the data put back
    where the image item is give the original string: the text items keep
    the markdown around the data URI. *)
Theorem image_segmentation_round_trip
    (self : ImageParsingHistoryProcessor.t) (entry : HistoryItem) (c : text) :
  role entry ∈ ["user"; "tool"]%string ->
  content entry = Str c ->
  (finditer NOFLAG c ImageParsingHistoryProcessor._pattern = [] ->
     ImageParsingHistoryProcessor._parse_images self c = [TextSeg c None]
     /\ ImageParsingHistoryProcessor._process_entry self entry = Ok entry)
  /\ (forall mt,
        finditer NOFLAG c ImageParsingHistoryProcessor._pattern = [mt] ->
        ImageParsingHistoryProcessor.normalize (group c mt 3)
          ∈ ImageParsingHistoryProcessor.allowed_mime_types self ->
        exists before after,
          let url :=
            str "data:" ++ ImageParsingHistoryProcessor.normalize (group c mt 3)
            ++ str ";base64," ++ group c mt 4 in
          let segments :=
            [TextSeg before None; ImageSeg url None; TextSeg after None] in
          ImageParsingHistoryProcessor._parse_images self c = segments
          /\ ImageParsingHistoryProcessor._process_entry self entry
             = Ok (set_content entry (Segs segments))
          /\ reassemble (group c mt 3 ++ str ";base64," ++ group c mt 4) segments
             = c).
Proof.
  intros Hrole Hcontent.
  assert (forall segments,
            ImageParsingHistoryProcessor._parse_images self c = segments ->
            ImageParsingHistoryProcessor._process_entry self entry
            = if existsb is_image segments
              then Ok (set_content entry (Segs segments)) else Ok entry) as Hentry.
  { intros segments Hp. unfold ImageParsingHistoryProcessor._process_entry.
    rewrite (bool_decide_true _ Hrole). cbn [negb].
    unfold _get_content_text. rewrite Hcontent, bind_Ok_l. by rewrite Hp. }
  split.
  - intros Hnone.
    assert (ImageParsingHistoryProcessor._parse_images self c = [TextSeg c None])
      as Hp by (unfold ImageParsingHistoryProcessor._parse_images; by rewrite Hnone).
    split; [done|]. by rewrite (Hentry _ Hp).
  - intros mt Hone Hallowed.
    destruct (ImageFacts.parse_one_image self c mt Hone Hallowed) as [Hp Hc].
    eexists _, _. cbv zeta. split; [exact Hp|]. split.
    + by rewrite (Hentry _ Hp).
    + unfold reassemble. cbn [fmap list_fmap concat].
      rewrite app_nil_r, <- !app_assoc. symmetry. exact Hc.
Qed.

Lemma image_segmentation_round_trip_witness :
  let c := str "see ![a](data:image/png;base64,AAAA) here" in
  let segments :=
    [TextSeg (str "see ![a](data:") None;
     ImageSeg (str "data:image/png;base64,AAAA") None;
     TextSeg (str ") here") None] in
  ImageParsingHistoryProcessor._process_entry ImageParsingHistoryProcessor.defaults
    (Sample.message "user" c)
  = Ok (set_content (Sample.message "user" c) (Segs segments))
  /\ reassemble (str "image/png;base64,AAAA") segments = c.
Proof.
  intros c segments.
  destruct (image_segmentation_round_trip ImageParsingHistoryProcessor.defaults
              (Sample.message "user" c) c) as [_ Hone].
  - vm_compute. left.
  - reflexivity.
  - destruct (Hone (Build_Match 4 36 (<[5%nat := (35, 36)%nat]>
                                        (<[4%nat := (31, 35)%nat]>
                                           (<[3%nat := (14, 23)%nat]>
                                              (<[1%nat := (4, 14)%nat]>
                                                 (<[2%nat := (6, 7)%nat]> ∅)))))))
      as (before & after & Hp & He & Hr).
    + vm_compute. reflexivity.
    + compute_done.
    + split; [|reflexivity].
      rewrite He. f_equal. f_equal. f_equal.
      rewrite <- Hp. vm_compute. reflexivity.
Defined.

(* ================================================================== *)
(** ** The scanner *)

Section ScannerFacts.
Variable fl : Flags.
Variable s : text.

(** The scanner of [finditer] stops on a failed search, not for want of
    fuel: the last search, after the last match, finds nothing. *)
Lemma finditer_from_last r fuel (adv : bool) (i : nat) :
  (i <= length s)%nat ->
  (2 * (length s - i) + (if adv then 0 else 1) < fuel)%nat ->
  match last (finditer_from fl s r fuel adv i) with
  | None =>
      finditer_from fl s r fuel adv i = []
      /\ search_from fl s r (length s - i) adv i = None
  | Some mt =>
      (m_start mt <= m_end mt <= length s)%nat
      /\ search_from fl s r (length s - m_end mt)
           (m_end mt =? m_start mt)%nat (m_end mt) = None
  end.
Proof.
  revert adv i. induction fuel as [|fuel IH]; intros adv i Hi Hfuel; [lia|].
  simpl. destruct (search_from fl s r (length s - i) adv i) as [mt|] eqn:Hs;
    [|done].
  pose proof (search_from_Some _ _ _ _ _ _ _ Hs)
    as (Hstart & (adv' & Hat & Hadv) & _ & _).
  apply match_at_Some in Hat as (_ & Hm & Hadv').
  apply matches_bounds in Hm as [Hle Hlen].
  assert (m_end mt <= length s)%nat as Hend.
  { destruct (decide (m_start mt < m_end mt)%nat); [auto|lia]. }
  specialize (IH (m_end mt =? m_start mt)%nat (m_end mt) Hend).
  rewrite last_cons.
  destruct (last (finditer_from fl s r fuel _ (m_end mt))) as [mt'|] eqn:Hlast.
  - apply IH. clear IH.
    destruct (m_end mt =? m_start mt)%nat eqn:He.
    + apply Nat.eqb_eq in He.
      destruct (decide (m_start mt = i)) as [Hsi|Hsi]; [|lia].
      destruct adv; [|lia]. exfalso. apply Hadv'; [by apply Hadv|lia].
    + apply Nat.eqb_neq in He. lia.
  - split; [lia|]. apply IH. clear IH.
    destruct (m_end mt =? m_start mt)%nat eqn:He.
    + apply Nat.eqb_eq in He.
      destruct (decide (m_start mt = i)) as [Hsi|Hsi]; [|lia].
      destruct adv; [|lia]. exfalso. apply Hadv'; [by apply Hadv|lia].
    + apply Nat.eqb_neq in He. lia.
Qed.

(** Around the matches of [finditer]: no attempt succeeds before the first
    match, and none at or after the end of the last when it is not empty. *)
Lemma finditer_first_last r first lastm :
  head (finditer fl s r) = Some first ->
  last (finditer fl s r) = Some lastm ->
  (m_start lastm < m_end lastm)%nat ->
  (exists adv, match_at fl s r adv (m_start first) = Some first)
  /\ (m_start first <= length s)%nat
  /\ (forall p, (p < m_start first)%nat -> match_at fl s r false p = None)
  /\ (m_end lastm <= length s)%nat
  /\ (forall p, (m_end lastm <= p <= length s)%nat ->
        match_at fl s r false p = None).
Proof.
  unfold finditer. intros Hhead Hlast Hne.
  assert (2 * (length s - 0) + (if false then 0 else 1) < 2 * length s + 2)%nat
    as Hfuel0 by (cbv iota; lia).
  pose proof (finditer_from_last r (2 * length s + 2) false 0
                ltac:(lia) Hfuel0) as H.
  rewrite Hlast in H. destruct H as [Hb Hs].
  replace (m_end lastm =? m_start lastm)%nat with false in Hs
    by (symmetry; apply Nat.eqb_neq; lia).
  apply search_from_None in Hs as [Hs0 Hs].
  assert (exists fuel, finditer_from fl s r (S fuel) false 0
                       = finditer_from fl s r (2 * length s + 2) false 0)
    as [fuel Hfuel] by (exists (2 * length s + 1)%nat; f_equal; lia).
  rewrite <- Hfuel in Hhead. simpl in Hhead.
  destruct (search_from fl s r (length s - 0) false 0) as [mt|] eqn:Hsearch;
    [|done].
  simpl in Hhead. injection Hhead as ->.
  apply search_from_Some in Hsearch as (Hrange & (adv & Hat & _) & Hbefore & Hzero).
  split; [eauto|]. split; [lia|]. split.
  - intros p Hp. destruct (decide (p = 0%nat)) as [->|Hp0].
    + apply Hzero. lia.
    + apply Hbefore. lia.
  - split; [lia|]. intros p Hp.
    destruct (decide (p = m_end lastm)) as [->|Hpe]; [done|]. apply Hs. lia.
Qed.

Lemma finditer_none r :
  (forall p, (p <= length s)%nat -> match_at fl s r false p = None) ->
  finditer fl s r = [].
Proof.
  intros H. unfold finditer.
  replace (2 * length s + 2)%nat with (S (2 * length s + 1)) by lia. simpl.
  rewrite search_from_all_None; [done|apply H; lia|].
  intros q Hq. apply H. lia.
Qed.
End ScannerFacts.

(* ================================================================== *)
(** ** The pattern of numbered lines *)

Section MoreShapeFacts.
Variable fl : Flags.
Variable s : text.

Lemma matches_Bol_inv i c j c' :
  matches fl s Bol i c j c' -> j = i /\ c' = c /\ at_bol fl s i = true.
Proof. by inversion 1. Qed.

Lemma matches_Eol_inv i c j c' :
  matches fl s Eol i c j c' -> j = i /\ c' = c /\ at_eol fl s i = true.
Proof. by inversion 1. Qed.

Lemma matches_Alt_inv r1 r2 i c j c' :
  matches fl s (Alt r1 r2) i c j c' ->
  matches fl s r1 i c j c' \/ matches fl s r2 i c j c'.
Proof. inversion 1; subst; eauto. Qed.

Lemma matches_Digit_inv i c j c' :
  matches fl s Digit i c j c' ->
  j = S i /\ c' = c /\ exists a, s !! i = Some a /\ is_digit a = true.
Proof. inversion 1; subst; eauto. Qed.

Lemma matches_Star_Digit g i c j c' :
  matches fl s (Star g Digit) i c j c' ->
  forall t, (i <= t < j)%nat -> exists a, s !! t = Some a /\ is_digit a = true.
Proof.
  remember (Star g Digit) as r eqn:Hr. induction 1; try discriminate.
  - intros t Ht. lia.
  - intros t Ht. lia.
  - injection Hr as -> ->.
    match goal with H : matches _ _ Digit _ _ _ _ |- _ =>
      apply matches_Digit_inv in H as (-> & -> & a & Ha & Hd) end.
    intros t Ht. destruct (decide (t = i)) as [->|Hne]; [eauto|].
    apply IHmatches2; [done|lia].
Qed.

Lemma matches_Star_Digit_intro g c d :
  forall i,
    (forall t, (t < d)%nat -> exists a, s !! (i + t)%nat = Some a /\ is_digit a = true) ->
    matches fl s (Star g Digit) i c (i + d)%nat c.
Proof.
  induction d as [|d IH]; intros i H.
  - rewrite Nat.add_0_r. constructor.
  - destruct (H 0%nat ltac:(lia)) as (a & Ha & Hd). rewrite Nat.add_0_r in Ha.
    apply (matches_Star_more _ _ _ _ _ _ (S i) c); [by apply (matches_Digit _ _ a)|lia|].
    replace (i + S d)%nat with (S i + d)%nat by lia. apply IH.
    intros t Ht. destruct (H (S t) ltac:(lia)) as (b & Hb & Hbd).
    exists b. split; [|done]. by replace (S i + t)%nat with (i + S t)%nat by lia.
Qed.
End MoreShapeFacts.

Module WindowPatternFacts.
Import ClosedWindowHistoryProcessor.

(** A match of the pattern starts at a line header, is not empty, and ends
    at the end of the text, before a line break, or after one. *)
Lemma window_match_header (c : text) adv p mt :
  match_at _pattern_flags c _pattern adv p = Some mt ->
  line_header c p
  /\ m_start mt = p
  /\ (p < m_end mt)%nat
  /\ (m_end mt = length c
      \/ c !! m_end mt = Some LF
      \/ exists q, m_end mt = S q /\ c !! q = Some LF).
Proof.
  intros H. apply match_at_Some in H as (Hstart & H & _).
  destruct mt as [st en gs]. simpl in *. subst st.
  unfold _pattern in H. cbn [Seq foldr] in H.
  apply matches_Cat_inv in H as (j0 & c0 & Hbol & H).
  apply matches_Bol_inv in Hbol as (-> & -> & Hbol).
  apply matches_Cat_inv in H as (j1 & c1 & Hdigits & H).
  apply matches_Group_inv in Hdigits as (c1' & Hdigits & ->).
  apply matches_Cat_inv in Hdigits as (j1' & c1'' & Hd & Hds).
  apply matches_Digit_inv in Hd as (-> & -> & a & Ha & Hda).
  pose proof (matches_bounds _ _ _ _ _ _ _ Hds) as [Hle _].
  pose proof (matches_Star_Digit _ _ _ _ _ _ _ Hds) as Hall.
  apply matches_Cat_inv in H as (j2 & c2 & Hcolon & H).
  apply matches_Lit_inv in Hcolon as (-> & -> & Hcolon).
  apply matches_Cat_inv in H as (j3 & c3 & Hdots & H).
  apply matches_bounds in Hdots as [Hle3 _].
  apply matches_Cat_inv in H as (j4 & c4 & Hend & H).
  apply matches_Empty_inv in H as [-> ->].
  apply matches_Group_inv in Hend as (c4' & Hend & _).
  split.
  { split; [done|]. exists (j1 - p)%nat. split; [lia|]. split.
    - intros t Ht. destruct (decide (t = 0%nat)) as [->|Hne].
      + rewrite Nat.add_0_r. eauto.
      + apply Hall. lia.
    - by replace (p + (j1 - p))%nat with j1 by lia. }
  split; [done|].
  apply matches_Alt_inv in Hend as [Hend|Hend].
  - apply matches_Lit_inv in Hend as (-> & _ & Hlf).
    split; [lia|]. right. right. eauto.
  - apply matches_Eol_inv in Hend as (-> & _ & Heol).
    split; [lia|]. unfold at_eol in Heol. simpl in Heol.
    apply orb_true_iff in Heol as [Heol|Heol].
    + left. by apply Nat.eqb_eq in Heol.
    + right. left. by apply bool_decide_eq_true in Heol.
Qed.

(** From any position the rest of the pattern matches: the characters up
    to the line break, and the line break or the end of the text. *)
Lemma line_rest_matches (c : text) n :
  forall q caps,
    (length c - q <= n)%nat -> (q <= length c)%nat ->
    exists j caps',
      matches _pattern_flags c
        (Cat (Star false Dot) (Cat (Group 2 (Alt (Lit LF) Eol)) Empty)) q caps j caps'.
Proof.
  induction n as [|n IH]; intros q caps Hn Hq.
  - exists q, (<[2%nat := (q, q)]> caps).
    apply (matches_Cat _ _ _ _ _ _ q caps); [constructor|].
    apply (matches_Cat _ _ _ _ _ _ q (<[2%nat := (q, q)]> caps)); [|constructor].
    constructor. apply matches_Alt_r. constructor.
    unfold at_eol. replace (q =? length c)%nat with true; [done|].
    symmetry. apply Nat.eqb_eq. lia.
  - destruct (c !! q) as [a|] eqn:Ha.
    + destruct (decide (a = LF)) as [->|Hne].
      * exists (S q), (<[2%nat := (q, S q)]> caps).
        apply (matches_Cat _ _ _ _ _ _ q caps); [constructor|].
        apply (matches_Cat _ _ _ _ _ _ (S q) (<[2%nat := (q, S q)]> caps));
          [|constructor].
        constructor. apply matches_Alt_l. by constructor.
      * apply lookup_lt_Some in Ha as Hlt.
        destruct (IH (S q) caps ltac:(lia) ltac:(lia)) as (j & caps' & H).
        apply matches_Cat_inv in H as (j1 & c1 & Hstar & Hrest).
        exists j, caps'.
        apply (matches_Cat _ _ _ _ _ _ j1 c1); [|done].
        apply (matches_Star_more _ _ _ _ _ _ (S q) caps); [|lia|done].
        apply (matches_Dot _ _ a); [done|]. simpl.
        by rewrite bool_decide_false.
    + apply lookup_ge_None in Ha.
      apply (IH q caps); lia.
Qed.

(** At a line header the pattern has a match that is not empty. *)
Lemma header_has_match (c : text) p :
  line_header c p ->
  exists j caps, matches _pattern_flags c _pattern p ∅ j caps /\ (p < j)%nat.
Proof.
  intros (Hbol & d & Hd & Hdigits & Hcolon).
  apply lookup_lt_Some in Hcolon as Hlt.
  destruct (line_rest_matches c (length c) (S (p + d)) (<[1%nat := (p, (p + d)%nat)]> ∅)
              ltac:(lia) ltac:(lia)) as (j & caps & Hrest).
  pose proof Hrest as Hb. apply matches_bounds in Hb as [Hb _].
  exists j, caps. split; [|lia].
  unfold _pattern. cbn [Seq foldr].
  apply (matches_Cat _ _ _ _ _ _ p ∅); [by constructor|].
  apply (matches_Cat _ _ _ _ _ _ (p + d)%nat (<[1%nat := (p, (p + d)%nat)]> ∅)).
  { constructor. destruct (Hdigits 0%nat Hd) as (a & Ha & Hda).
    rewrite Nat.add_0_r in Ha.
    apply (matches_Cat _ _ _ _ _ _ (S p) ∅); [by apply (matches_Digit _ _ a)|].
    replace (p + d)%nat with (S p + (d - 1))%nat by lia.
    apply matches_Star_Digit_intro. intros t Ht.
    destruct (Hdigits (S t) ltac:(lia)) as (b & Hb' & Hbd).
    exists b. split; [|done]. by replace (S p + t)%nat with (p + S t)%nat by lia. }
  apply (matches_Cat _ _ _ _ _ _ (S (p + d)) (<[1%nat := (p, (p + d)%nat)]> ∅));
    [by constructor|].
  apply matches_Cat_inv in Hrest as (j1 & c1 & Hstar & Hrest).
  by apply (matches_Cat _ _ _ _ _ _ j1 c1).
Qed.

(** The scanner finds a match exactly at the line headers. *)
Lemma header_match_at (c : text) adv p :
  line_header c p -> match_at _pattern_flags c _pattern adv p <> None.
Proof.
  intros Hh Hnone. destruct (header_has_match c p Hh) as (j & caps & Hm & Hlt).
  apply (match_at_None _ _ _ _ _ _ _ Hnone Hm). right. lia.
Qed.

Lemma no_header_no_match (c : text) adv p :
  ~ line_header c p -> match_at _pattern_flags c _pattern adv p = None.
Proof.
  intros Hn. destruct (match_at _ _ _ _ _) as [mt|] eqn:H; [|done].
  apply window_match_header in H as [Hh _]. done.
Qed.
End WindowPatternFacts.

(* ================================================================== *)
(** ** A collapsed window shows no numbered line *)

Lemma string_of_uint_no_LF (d : Decimal.uint) :
  LF ∉ str (NilEmpty.string_of_uint d).
Proof.
  induction d; simpl; try (apply not_elem_of_cons; split; [done|]); try done.
  apply not_elem_of_nil.
Qed.

Lemma str_of_nat_no_LF (n : nat) : LF ∉ str_of_nat n.
Proof.
  unfold str_of_nat, NilZero.string_of_uint.
  destruct (Nat.to_uint n) eqn:E; try apply string_of_uint_no_LF.
  simpl. apply not_elem_of_cons. split; [done|]. apply not_elem_of_nil.
Qed.

Module CollapseFacts.
Import ClosedWindowHistoryProcessor.

(** The text of a collapsed window: what is before the first numbered line,
    a summary line, what is after the last numbered line.  When the summary
    [M0] has no line break and does not start with a digit or a colon, the
    new text has no line header. *)
Lemma no_header_in_collapsed (c M0 : text) (a0 : ascii) (start end_ : nat) :
  (start <= length c)%nat -> (end_ <= length c)%nat ->
  M0 !! 0%nat = Some a0 -> is_digit a0 = false -> a0 <> ":"%char ->
  LF ∉ M0 ->
  (forall p, (p < start)%nat -> ~ line_header c p) ->
  (forall p, (end_ <= p <= length c)%nat -> ~ line_header c p) ->
  (end_ = length c \/ c !! end_ = Some LF
   \/ exists q, end_ = S q /\ c !! q = Some LF) ->
  forall p', ~ line_header (take start c ++ M0 ++ [LF] ++ drop end_ c) p'.
Proof.
  intros Hstart Hend Ha0 Hd0 Hc0 HLF Hbefore Hafter Hshape p'
    (Hbol & d & Hd & Hdigits & Hcolon).
  set (c' := take start c ++ M0 ++ [LF] ++ drop end_ c) in *.
  assert (length (take start c) = start) as HlenP by (rewrite length_take; lia).
  assert (forall x, (x < start)%nat -> c' !! x = c !! x) as HP.
  { intros x Hx. unfold c'. rewrite lookup_app_l by lia. by apply lookup_take_lt. }
  assert (c' !! start = Some a0) as HM0.
  { unfold c'. rewrite lookup_app_r by lia. rewrite HlenP, Nat.sub_diag.
    apply lookup_lt_Some in Ha0 as Hlt. by rewrite lookup_app_l. }
  assert (forall k, (k < length M0)%nat -> c' !! (start + k)%nat <> Some LF) as HM.
  { intros k Hk Heq. unfold c' in Heq. rewrite lookup_app_r in Heq by lia.
    rewrite HlenP in Heq. replace (start + k - start)%nat with k in Heq by lia.
    rewrite lookup_app_l in Heq by done. apply HLF.
    apply list_elem_of_lookup. eauto. }
  assert (forall y, c' !! (start + length M0 + 1 + y)%nat = c !! (end_ + y)%nat)
    as HS.
  { intros y. unfold c'. rewrite lookup_app_r by lia. rewrite HlenP.
    rewrite lookup_app_r by lia. rewrite lookup_app_r by (simpl; lia).
    rewrite lookup_drop. simpl. f_equal. lia. }
  destruct (decide (p' < start)%nat) as [HinP|HnotP].
  { (* before the summary *)
    assert (p' + d < start)%nat as Hfit.
    { destruct (decide (p' + d < start)%nat) as [|Hover]; [done|]. exfalso.
      destruct (decide (start - p' < d)%nat) as [Hlt|Hge].
      - destruct (Hdigits (start - p')%nat Hlt) as (a & Ha & Hda).
        replace (p' + (start - p'))%nat with start in Ha by lia.
        rewrite HM0 in Ha. injection Ha as <-. by rewrite Hd0 in Hda.
      - replace (p' + d)%nat with start in Hcolon by lia.
        rewrite HM0 in Hcolon. by injection Hcolon as ->. }
    apply (Hbefore p' HinP). split.
    - destruct p' as [|i]; [done|]. simpl in *. by rewrite <- HP by lia.
    - exists d. split; [done|]. split.
      + intros t Ht. rewrite <- HP by lia. by apply Hdigits.
      + by rewrite <- HP by lia. }
  destruct (decide (p' <= start + length M0)%nat) as [HinM|HnotM].
  { (* in the summary *)
    destruct (decide (p' = start)) as [->|Hne].
    - destruct (Hdigits 0%nat Hd) as (a & Ha & Hda). rewrite Nat.add_0_r in Ha.
      rewrite HM0 in Ha. injection Ha as <-. by rewrite Hd0 in Hda.
    - destruct p' as [|i]; [lia|]. simpl in Hbol.
      apply bool_decide_eq_true in Hbol.
      apply (HM (i - start)%nat); [lia|].
      by replace (start + (i - start))%nat with i by lia. }
  (* after the summary *)
  assert (exists t, p' = (start + length M0 + 1 + t)%nat) as [t ->]
    by (exists (p' - (start + length M0 + 1))%nat; lia).
  assert (forall x, c' !! (start + length M0 + 1 + t + x)%nat
                    = c !! (end_ + t + x)%nat) as HS'.
  { intros x. rewrite <- Nat.add_assoc, HS. f_equal. lia. }
  assert (at_bol _pattern_flags c (end_ + t) = true -> False) as Hcontra.
  { intros Hbolc. rewrite HS' in Hcolon. apply lookup_lt_Some in Hcolon as Hlt.
    apply (Hafter (end_ + t)%nat); [lia|]. split; [done|].
    exists d. split; [done|]. split; [|done].
    intros x Hx. rewrite <- HS'. by apply Hdigits. }
  destruct t as [|t].
  - destruct (Hdigits 0%nat Hd) as (a & Ha & Hda). rewrite HS' in Ha.
    rewrite !Nat.add_0_r in Ha.
    destruct Hshape as [->|[Hlf|(q & -> & Hq)]].
    + apply lookup_lt_Some in Ha. lia.
    + rewrite Hlf in Ha. injection Ha as <-. done.
    + apply Hcontra. rewrite Nat.add_0_r. simpl. by rewrite bool_decide_true.
  - apply Hcontra. replace (end_ + S t)%nat with (S (end_ + t)) by lia. simpl.
    replace (start + length M0 + 1 + S t)%nat
      with (S (start + length M0 + 1 + t)) in Hbol by lia.
    simpl in Hbol. apply bool_decide_eq_true in Hbol.
    rewrite HS in Hbol. by rewrite bool_decide_true.
Qed.

Lemma outdated_eq (c : text) (matches : list Match) :
  outdated c matches
  = take (from_option m_start 0%nat (head matches)) c
    ++ (str "Outdated window with " ++ str_of_nat (length matches)
        ++ str " lines omitted...")
    ++ [LF] ++ drop (from_option m_end 0%nat (last matches)) c.
Proof. unfold outdated, upto, from. by rewrite <- !app_assoc. Qed.

(** After the collapse the scanner finds no numbered line. *)
Lemma collapsed_has_no_window (c : text) :
  finditer _pattern_flags c _pattern <> [] ->
  finditer _pattern_flags (outdated c (finditer _pattern_flags c _pattern)) _pattern
  = [].
Proof.
  intros Hne. set (ms := finditer _pattern_flags c _pattern) in *.
  destruct (head ms) as [first|] eqn:Hhead; [|by destruct ms].
  destruct (last ms) as [lastm|] eqn:Hlast;
    [|by apply last_None in Hlast].
  assert (lastm ∈ ms) as Hin.
  { apply last_Some in Hlast as [l' ->]. apply elem_of_app. right. left. }
  apply finditer_from_elem in Hin as [adv Hat].
  apply WindowPatternFacts.window_match_header in Hat
    as (_ & Hstartl & Hnonempty & Hshape).
  destruct (finditer_first_last _ _ _ _ _ Hhead Hlast ltac:(lia))
    as (_ & Hstart & Hbefore & Hend & Hafter).
  apply finditer_none. intros p' _.
  apply WindowPatternFacts.no_header_no_match.
  rewrite outdated_eq, Hhead, Hlast. simpl from_option.
  apply (no_header_in_collapsed c _ "O"%char); try done.
  - apply not_elem_of_app. split; [compute_done|].
    apply not_elem_of_app. split; [apply str_of_nat_no_LF|compute_done].
  - intros p Hp Hh. by apply (WindowPatternFacts.header_match_at c false p Hh), Hbefore.
  - intros p Hp Hh. by apply (WindowPatternFacts.header_match_at c false p Hh), Hafter.
Qed.
End CollapseFacts.

(* ================================================================== *)
(** ** Processors that can be applied again *)

Lemma for_each_app {A S : Type} (body : S -> A -> Result S) xs ys acc :
  for_each body (xs ++ ys) acc = (for_each body xs acc ≫= for_each body ys).
Proof.
  revert acc. induction xs as [|x xs IH]; intros acc; [done|].
  simpl. destruct (body acc x) as [acc'|e]; [|done]. rewrite !bind_Ok_l. apply IH.
Qed.

Module WindowLoopFacts.
Import ClosedWindowHistoryProcessor.

(** One turn of the loop either drops the entry or appends an entry on which
    the same turn, from the same set of windows, changes nothing. *)
Lemma window_step_fixpoint windows acc entry windows' acc' :
  step (windows, acc) entry = Ok (windows', acc') ->
  (windows' = windows /\ acc' = acc)
  \/ exists entry',
       acc' = acc ++ [entry']
       /\ forall acc2, step (windows, acc2) entry' = Ok (windows', acc2 ++ [entry']).
Proof.
  unfold step at 1.
  destruct (negb (bool_decide (role entry = "user"%string))) eqn:Hrole.
  { intros [= <- <-]. right. exists entry. split; [done|].
    intros acc2. unfold step. by rewrite Hrole. }
  destruct (is_demo entry) eqn:Hdemo.
  { intros [= <- <-]. right. exists entry. split; [done|].
    intros acc2. unfold step. by rewrite Hrole, Hdemo. }
  destruct (content entry) as [c|] eqn:Hcontent; [|done].
  destruct (1 <=? length (finditer _pattern_flags c _pattern))%nat eqn:Hlen.
  - destruct (search NOFLAG c _file_pattern) as [file_match|] eqn:Hsearch.
    + destruct (bool_decide (group c file_match 1 ∈ windows)) eqn:Hin;
        intros [= <- <-]; right.
      * exists (set_content entry
                  (Str (outdated c (finditer _pattern_flags c _pattern)))).
        split; [done|]. intros acc2. unfold step.
        change (role (set_content entry _)) with (role entry).
        change (is_demo (set_content entry _)) with (is_demo entry).
        rewrite Hrole, Hdemo. cbn [content set_content].
        rewrite CollapseFacts.collapsed_has_no_window.
        -- cbn [length Nat.leb]. f_equal. f_equal.
           apply bool_decide_eq_true in Hin. set_solver.
        -- intros Hnil. rewrite Hnil in Hlen. done.
      * exists entry. split; [done|]. intros acc2. unfold step.
        by rewrite Hrole, Hdemo, Hcontent, Hlen, Hsearch, Hin.
    + intros [= <- <-]. by left.
  - intros [= <- <-]. right. exists entry. split; [done|].
    intros acc2. unfold step. by rewrite Hrole, Hdemo, Hcontent, Hlen.
Qed.

Lemma window_loop_fixpoint entries :
  forall windows acc windows' acc',
    for_each step entries (windows, acc) = Ok (windows', acc') ->
    exists out,
      acc' = acc ++ out
      /\ forall acc2, for_each step out (windows, acc2) = Ok (windows', acc2 ++ out).
Proof.
  induction entries as [|entry entries IH]; intros windows acc windows' acc' H.
  - injection H as <- <-. exists []. split; [by rewrite app_nil_r|].
    intros acc2. by rewrite app_nil_r.
  - rewrite for_each_cons in H. apply bind_Ok in H as ([w1 acc1] & Hs & H).
    destruct (IH _ _ _ _ H) as (out & -> & Hout).
    apply window_step_fixpoint in Hs as [[-> ->]|(entry' & -> & Hs)].
    + exists out. split; [done|]. apply Hout.
    + exists (entry' :: out). split; [by rewrite <- app_assoc|].
      intros acc2. rewrite for_each_cons, Hs, bind_Ok_l, Hout.
      by rewrite <- app_assoc.
Qed.

Lemma window_collapse_fixpoint history once :
  call history = Ok once -> call once = Ok once.
Proof.
  unfold call. intros H. apply bind_Ok in H as ([windows' acc'] & Hl & [= <-]).
  apply window_loop_fixpoint in Hl as (out & -> & Hout).
  simpl. rewrite reverse_involutive, (Hout []). done.
Qed.
End WindowLoopFacts.

Module TagStoreFacts.
Import TagToolCallObservations.

Lemma tag_step_Ok self (σ σ' : Store) l :
  step self σ l = Ok σ' ->
  exists entry, σ !! l = Some entry /\ σ' = <[l := visit self entry]> σ.
Proof.
  unfold step, deref. destruct (σ !! l) as [entry|] eqn:Hl; [|done].
  rewrite bind_Ok_l. intros [= <-]. exists entry. split; [done|].
  unfold visit. destruct (_should_add_tags self entry); [done|].
  by rewrite insert_id.
Qed.

Lemma tag_loop_settles self ls :
  forall σ σ' : Store,
    for_each (step self) ls σ = Ok σ' ->
    (forall l, l ∈ ls -> settled self σ' l)
    /\ (forall l, settled self σ l -> settled self σ' l).
Proof.
  induction ls as [|l ls IH]; intros σ σ' H.
  - injection H as <-. split; [|done]. intros l Hl. by apply elem_of_nil in Hl.
  - rewrite for_each_cons in H. apply bind_Ok in H as (σ1 & Hs & H).
    apply tag_step_Ok in Hs as (entry & Hl & ->).
    destruct (IH _ _ H) as [Hin Hkeep].
    assert (settled self (<[l := visit self entry]> σ) l) as Hl1.
    { exists (visit self entry). split; [apply lookup_insert_eq|].
      apply TagFacts.visit_idempotent. }
    split.
    + intros l' Hl'. apply elem_of_cons in Hl' as [->|Hl']; auto.
    + intros l' (e' & He' & Hfix). apply Hkeep.
      destruct (decide (l' = l)) as [->|Hne]; [done|].
      exists e'. split; [by rewrite lookup_insert_ne|done].
Qed.

Lemma tag_loop_settled self ls (σ : Store) :
  (forall l, l ∈ ls -> settled self σ l) -> for_each (step self) ls σ = Ok σ.
Proof.
  induction ls as [|l ls IH]; intros H; [done|].
  destruct (H l) as (entry & Hl & Hfix); [left|].
  rewrite for_each_cons, (TagFacts.tag_step_eq _ _ _ _ Hl), bind_Ok_l.
  assert ((if _should_add_tags self entry
           then <[l := _add_tags self entry]> σ else σ) = σ) as ->.
  { unfold visit in Hfix. destruct (_should_add_tags self entry); [|done].
    rewrite Hfix. by apply insert_id. }
  apply IH. intros l' Hl'. apply H. by right.
Qed.

Lemma tag_call_fixpoint self (σ σ1 : Store) history h1 :
  call self σ history = Ok (σ1, h1) -> call self σ1 h1 = Ok (σ1, h1).
Proof.
  unfold call. intros H. apply bind_Ok in H as (σ' & Hl & [= <- <-]).
  apply tag_loop_settles in Hl as [Hin _].
  by rewrite (tag_loop_settled _ _ _ Hin).
Qed.

Lemma tag_call_v_fixpoint self (history : History) :
  call_v self (call_v self history) = call_v self history.
Proof.
  unfold call_v. rewrite <- list_fmap_compose. apply list_fmap_ext.
  intros _ entry _. apply TagFacts.visit_idempotent.
Qed.
End TagStoreFacts.

(** C4, as stated, fails for three of the seven processors.  Image
    segmentation raises on its own result: the content with an image has
    three items, and [_get_content_text] asserts that there is one.  Elision
    counts the lines of the summary it wrote before, so that a collapsed
    observation of two lines reads "1 lines omitted" after the second
    application.  Regex redaction with the pattern "ab" turns "aabb" into
    "ab" and then into the empty string. *)
Lemma three_processors_are_not_idempotent :
  (let history := [Sample.message "user" (str "![a](data:image/png;base64,AAAA)")] in
   exists once,
     ImageParsingHistoryProcessor.call ImageParsingHistoryProcessor.defaults history
     = Ok once
     /\ ImageParsingHistoryProcessor.call ImageParsingHistoryProcessor.defaults once
        = Raise AssertionError)
  /\ (let obs c := Sample.observation (Str c) [] false in
      let history := [obs (str "task"); obs Sample.two_lines; obs (str "x")] in
      LastNObservations.validate_n 1 = true
      /\ LastNObservations.call (LastNObservations.defaults 1) history
         = Ok [obs (str "task");
               obs (str "Old environment output: (2 lines omitted)");
               obs (str "x")]
      /\ LastNObservations.call (LastNObservations.defaults 1)
           [obs (str "task");
            obs (str "Old environment output: (2 lines omitted)");
            obs (str "x")]
         = Ok [obs (str "task");
               obs (str "Old environment output: (1 lines omitted)");
               obs (str "x")])
  /\ (let self := {| RemoveRegex.remove := [Lits "ab"];
                     RemoveRegex.keep_last := 0 |} in
      RemoveRegex.call self [Sample.message "user" (str "aabb")]
      = [Sample.message "user" (str "ab")]
      /\ RemoveRegex.call self [Sample.message "user" (str "ab")]
         = [Sample.message "user" []]).
Proof.
  split; [|split].
  - eexists. split; vm_compute; reflexivity.
  - split; [reflexivity|]. split; vm_compute; reflexivity.
  - split; vm_compute; reflexivity.
Qed.

(** C4, amended. Three of the seven processors are idempotent, for every
    configuration: the default processor; window collapse, whenever its
    first application returns; cache control, by value whenever its first
    application returns, and on the store for a history of distinct entry
    objects.  In each case the second application returns, with the result
    of the first.  Tag propagation is idempotent up to the order of the
    tags: a second application returns, by value and on the store (with the
    list it was given), and every entry has afterwards the keys that the
    first application left, with the same elements in its tags; the order in
    which [_add_tags] lists them is not fixed by the code. *)
Theorem four_processors_are_idempotent :
  (forall history : History,
     DefaultHistoryProcessor.call (DefaultHistoryProcessor.call history)
     = DefaultHistoryProcessor.call history)
  /\ (forall (self : TagToolCallObservations.t) (history : History),
        Forall2 same_up_to_tag_order
          (TagToolCallObservations.call_v self
             (TagToolCallObservations.call_v self history))
          (TagToolCallObservations.call_v self history))
  /\ (forall (self : TagToolCallObservations.t) (σ σ1 : Store)
             (history h1 : list loc),
        TagToolCallObservations.call self σ history = Ok (σ1, h1) ->
        exists σ2 : Store,
          TagToolCallObservations.call self σ1 h1 = Ok (σ2, h1)
          /\ forall l, option_Forall2 same_up_to_tag_order (σ2 !! l) (σ1 !! l))
  /\ (forall history once : History,
        ClosedWindowHistoryProcessor.call history = Ok once ->
        ClosedWindowHistoryProcessor.call once = Ok once)
  /\ (forall (self : CacheControlHistoryProcessor.t) (history once : History),
        CacheControlHistoryProcessor.call_v self history = Ok once ->
        CacheControlHistoryProcessor.call_v self once = Ok once)
  /\ (forall (self : CacheControlHistoryProcessor.t) (σ σ1 : Store)
             (history h1 : list loc),
        NoDup history ->
        CacheControlHistoryProcessor.call self σ history = Ok (σ1, h1) ->
        CacheControlHistoryProcessor.call self σ1 h1 = Ok (σ1, h1)).
Proof.
  assert (forall entry, same_up_to_tag_order entry entry) as Hrefl
    by (intros entry; by repeat split).
  split; [done|].
  split.
  { intros self history. rewrite TagStoreFacts.tag_call_v_fixpoint.
    apply Forall2_same_length_lookup. split; [done|].
    intros i entry entry' H1 H2. rewrite H1 in H2. by injection H2 as <-. }
  split.
  { intros self σ σ1 history h1 H. exists σ1.
    split; [by eapply TagStoreFacts.tag_call_fixpoint|].
    intros l. destruct (σ1 !! l); by constructor. }
  split; [apply WindowLoopFacts.window_collapse_fixpoint|].
  split; [apply CacheFacts.call_v_fixpoint|].
  intros self σ σ1 history h1. apply CacheStoreFacts.cache_call_fixpoint.
Qed.

Lemma four_processors_are_idempotent_witness :
  let view name lines :=
    Sample.message "user"
      (str "[File: " ++ str name ++ str " (100 lines total)]" ++ [LF] ++ lines) in
  let r1 := view "a.py"%string (str "1:x" ++ [LF] ++ str "2:y" ++ [LF] ++ str "end") in
  let r3 := view "a.py"%string (str "5:z" ++ [LF]) in
  let once :=
    [Sample.message "user"
       (str "[File: a.py (100 lines total)]" ++ [LF]
        ++ str "Outdated window with 2 lines omitted..." ++ [LF] ++ str "end");
     r3] in
  let tagger :=
    {| TagToolCallObservations.tags := {[ "keep_output"%string ]};
       TagToolCallObservations.function_names := {[ "bash"%string ]} |} in
  (ClosedWindowHistoryProcessor.call [r1; r3] = Ok once
   /\ ClosedWindowHistoryProcessor.call once = Ok once)
  /\ tags_of (TagToolCallObservations.visit tagger (Sample.action (str "ls") "bash"))
     = {[ "keep_output"%string ]}
  /\ Forall2 same_up_to_tag_order
       (TagToolCallObservations.call_v tagger
          (TagToolCallObservations.call_v tagger [Sample.action (str "ls") "bash"]))
       (TagToolCallObservations.call_v tagger [Sample.action (str "ls") "bash"]).
Proof.
  intros view r1 r3 once tagger.
  assert (ClosedWindowHistoryProcessor.call [r1; r3] = Ok once) as H
    by (vm_compute; reflexivity).
  destruct four_processors_are_idempotent as (_ & Htag & _ & Hwindow & _).
  split; [split; [exact H|exact (Hwindow _ _ H)]|].
  split; [vm_compute; reflexivity|].
  exact (Htag tagger [Sample.action (str "ls") "bash"]).
Defined.

(* ================================================================== *)
(** * Further properties *)

(** ** Elision: what it returns and when it raises *)

Lemma collect_raises {A B : Type} (f : A -> Result B) xs err :
  (forall x, x ∈ xs -> (exists y, f x = Ok y) \/ f x = Raise err) ->
  (exists x, x ∈ xs /\ f x = Raise err) ->
  collect f xs = Raise err.
Proof.
  induction xs as [|x0 xs IH]; intros Hall (x & Hin & Hx).
  - by apply elem_of_nil in Hin.
  - simpl. destruct (Hall x0 ltac:(left)) as [[y Hy]|Hr].
    + rewrite Hy, bind_Ok_l. rewrite IH; [done| |].
      * intros x' Hx'. apply Hall. by right.
      * apply elem_of_cons in Hin as [->|Hin]; [congruence|eauto].
    + by rewrite Hr.
Qed.

Lemma collect_fmap {A B : Type} (f : A -> Result B) (g : A -> B) xs :
  (forall x, x ∈ xs -> f x = Ok (g x)) -> collect f xs = Ok (g <$> xs).
Proof.
  induction xs as [|x0 xs IH]; intros H; [done|].
  simpl. rewrite (H x0) by left. rewrite bind_Ok_l, IH; [done|].
  intros x Hx. apply H. by right.
Qed.

Lemma snd_enumerate_from {A : Type} (k : nat) (xs : list A) :
  snd <$> enumerate_from k xs = xs.
Proof. revert k. induction xs as [|x xs IH]; intros k; [done|]. simpl. by rewrite IH. Qed.

Lemma elem_of_enumerate {A : Type} (xs : list A) (i : nat) (x : A) :
  (i, x) ∈ enumerate xs <-> xs !! i = Some x.
Proof.
  rewrite list_elem_of_lookup. split.
  - intros [j Hj]. rewrite enumerate_lookup in Hj.
    destruct (xs !! j) as [y|] eqn:Hy; [|done]. simpl in Hj. by injection Hj as <- <-.
  - intros H. exists i. by rewrite enumerate_lookup, H.
Qed.

Module ElisionFacts.
Import LastNObservations.

Lemma step_cases self omit idx entry :
  step self omit (idx, entry)
  = if keeps self omit idx entry then Ok entry
    else if bool_decide (message_type entry = Some "observation"%string)
         then Ok (collapsed entry)
         else Raise AssertionError.
Proof.
  unfold step, collapsed. destruct (keeps self omit idx entry); [done|].
  destruct (bool_decide _); [|done]. simpl. by destruct (_get_content_stats entry).
Qed.

Lemma omit_indices_eq self history :
  _get_omit_indices self history
  = if polling self =? 0 then Raise ZeroDivisionError
    else Ok (drop 1
               (take (Z.to_nat
                        (Z.max 0
                           (Z.of_nat (length (observation_indices_from 0 history))
                            / polling self * polling self - n self)))
                  (observation_indices_from 0 history))).
Proof. reflexivity. Qed.

(** With a positive [polling] the cut is [kept_window] observations from the
    end. *)
Lemma omit_indices_window self history :
  0 < polling self -> 0 <= n self ->
  _get_omit_indices self history
  = Ok (drop 1
          (take (length (observation_indices_from 0 history)
                 - kept_window self history)
             (observation_indices_from 0 history))).
Proof.
  intros Hp Hn. rewrite omit_indices_eq.
  destruct (polling self =? 0) eqn:E; [lia|]. do 3 f_equal.
  unfold kept_window.
  set (len := Z.of_nat (length (observation_indices_from 0 history))).
  pose proof (Z.div_mod len (polling self) ltac:(lia)) as Hdm.
  pose proof (Z.mod_pos_bound len (polling self) Hp) as Hmod.
  assert (len / polling self * polling self = len - len mod polling self)
    as -> by lia.
  lia.
Qed.

Lemma kept_window_bounds self history :
  0 < polling self -> 0 <= n self ->
  n self <= Z.of_nat (kept_window self history) < n self + polling self.
Proof.
  intros Hp Hn. unfold kept_window.
  pose proof (Z.mod_pos_bound
                (Z.of_nat (length (observation_indices_from 0 history)))
                (polling self) Hp).
  lia.
Qed.

(** The observations from [last_removed_idx] on: all of them when there are
    at most [kept_window], and [kept_window] otherwise. *)
Lemma last_removed_idx_window self history :
  0 < polling self -> 0 <= n self ->
  (length (observation_indices_from 0 history) - last_removed_idx self history
   = length (observation_indices_from 0 history) `min` kept_window self history)%nat.
Proof.
  intros Hp Hn. unfold last_removed_idx, kept_window.
  set (len := length (observation_indices_from 0 history)).
  pose proof (Z.div_mod (Z.of_nat len) (polling self) ltac:(lia)) as Hdm.
  pose proof (Z.mod_pos_bound (Z.of_nat len) (polling self) Hp) as Hmod.
  assert (Z.of_nat len / polling self * polling self
          = Z.of_nat len - Z.of_nat len mod polling self) as -> by lia.
  lia.
Qed.

(** An index is omitted exactly when it is an observation index at a
    position from 1 up to the cut. *)
Lemma omit_position self history omit k idx :
  0 < polling self -> 0 <= n self ->
  _get_omit_indices self history = Ok omit ->
  observation_indices_from 0 history !! k = Some idx ->
  idx ∈ omit
  <-> (1 <= k
       /\ k + kept_window self history
          < length (observation_indices_from 0 history))%nat.
Proof.
  intros Hp Hn Homit Hk. rewrite omit_indices_window in Homit by done.
  injection Homit as <-.
  pose proof (LastNFacts.observation_indices_from_NoDup 0 history) as Hnd.
  apply lookup_lt_Some in Hk as Hlt.
  rewrite list_elem_of_lookup. split.
  - intros [i Hi]. rewrite lookup_drop in Hi.
    apply lookup_take_Some in Hi as [Hi Hcut].
    pose proof (NoDup_lookup _ _ _ _ Hnd Hi Hk) as <-. lia.
  - intros [H1 Hcut]. exists (k - 1)%nat. rewrite lookup_drop.
    replace (1 + (k - 1))%nat with k by lia.
    rewrite lookup_take_lt by lia. done.
Qed.

Lemma observation_index_found history idx entry :
  history !! idx = Some entry -> is_observation entry = true ->
  exists k, observation_indices_from 0 history !! k = Some idx.
Proof.
  assert (forall k0 (h : History) i,
            h !! i = Some entry -> is_observation entry = true ->
            (k0 + i)%nat ∈ observation_indices_from k0 h) as Hgen.
  { intros k0 h. revert k0. induction h as [|e h IH]; intros k0 i Hl Ho; [done|].
    rewrite LastNFacts.observation_indices_from_cons. destruct i as [|i]; simpl in Hl.
    - injection Hl as ->. rewrite Ho, Nat.add_0_r. left.
    - assert ((k0 + S i)%nat ∈ observation_indices_from (S k0) h) as Hin.
      { replace (k0 + S i)%nat with (S k0 + i)%nat by lia. by apply IH. }
      destruct (is_observation e); [by right|done]. }
  intros Hl Ho. specialize (Hgen 0%nat history idx Hl Ho). simpl in Hgen.
  by apply list_elem_of_lookup in Hgen.
Qed.
End ElisionFacts.

(** X1. Elision returns as many entries as it was given, in the same
    order, and each of them is the entry it was given or, for an observation
    only, that entry with the summary as content: no entry that is not an
    observation is ever changed, and no field but the content. *)
Theorem elision_changes_only_observation_content
    (self : LastNObservations.t) (history new_history : History) :
  LastNObservations.call self history = Ok new_history ->
  length new_history = length history
  /\ forall idx entry,
       history !! idx = Some entry ->
       new_history !! idx = Some entry
       \/ (message_type entry = Some "observation"%string
           /\ new_history !! idx = Some (collapsed entry)).
Proof.
  intros Hc. split.
  - unfold LastNObservations.call in Hc. apply bind_Ok in Hc as (omit & _ & Hc).
    apply collect_Ok_length in Hc. rewrite Hc. apply enumerate_from_length.
  - intros idx entry Hl.
    destruct (LastNFacts.elision_lookup _ _ _ _ _ Hc Hl) as (omit & e' & _ & Hs & ->).
    rewrite ElisionFacts.step_cases in Hs.
    destruct (LastNObservations.keeps self omit idx entry).
    + left. by injection Hs as <-.
    + destruct (bool_decide (message_type entry = Some "observation"%string)) eqn:Hm;
        [|done].
      right. apply bool_decide_eq_true in Hm. by injection Hs as <-.
Qed.

Lemma elision_changes_only_observation_content_witness :
  let obs c := Sample.observation (Str c) [] false in
  let history :=
    [Sample.message "system" (str "s"); obs (str "task"); obs Sample.two_lines;
     Sample.action (str "ls") "bash"; obs (str "x")] in
  length history = 5%nat
  /\ forall idx entry,
       history !! idx = Some entry ->
       [Sample.message "system" (str "s"); obs (str "task");
        collapsed (obs Sample.two_lines); Sample.action (str "ls") "bash";
        obs (str "x")] !! idx = Some entry
       \/ (message_type entry = Some "observation"%string
           /\ [Sample.message "system" (str "s"); obs (str "task");
               collapsed (obs Sample.two_lines); Sample.action (str "ls") "bash";
               obs (str "x")] !! idx = Some (collapsed entry)).
Proof.
  intros obs history.
  assert (LastNObservations.call (LastNObservations.defaults 1) history
          = Ok [Sample.message "system" (str "s"); obs (str "task");
                collapsed (obs Sample.two_lines); Sample.action (str "ls") "bash";
                obs (str "x")]) as Hc by (vm_compute; reflexivity).
  destruct (elision_changes_only_observation_content _ _ _ Hc) as [_ H].
  split; [reflexivity|exact H].
Defined.

(** X2. The three outcomes of elision.  It raises ZeroDivisionError when
    [polling] is zero; otherwise it raises AssertionError when an entry that
    is not an observation carries a tag of [always_remove_output_for_tags];
    otherwise it returns. *)
Theorem elision_outcomes (self : LastNObservations.t) (history : History) :
  (LastNObservations.polling self = 0 ->
   LastNObservations.call self history = Raise ZeroDivisionError)
  /\ (LastNObservations.polling self <> 0 ->
      (exists entry,
         entry ∈ history
         /\ tags_of entry ∩ LastNObservations.always_remove_output_for_tags self ≠ ∅
         /\ message_type entry <> Some "observation"%string) ->
      LastNObservations.call self history = Raise AssertionError)
  /\ (LastNObservations.polling self <> 0 ->
      (forall entry,
         entry ∈ history ->
         tags_of entry ∩ LastNObservations.always_remove_output_for_tags self ≠ ∅ ->
         message_type entry = Some "observation"%string) ->
      exists new_history, LastNObservations.call self history = Ok new_history).
Proof.
  split; [|split].
  - intros Hp. unfold LastNObservations.call.
    rewrite ElisionFacts.omit_indices_eq, Hp. done.
  - intros Hp (entry & Hin & Htag & Hm). unfold LastNObservations.call.
    destruct (LastNFacts.omit_indices_returns self history Hp) as [omit ->].
    rewrite bind_Ok_l. apply collect_raises.
    + intros [idx e] _. rewrite ElisionFacts.step_cases.
      destruct (LastNObservations.keeps self omit idx e); [eauto|].
      destruct (bool_decide _); eauto.
    + apply list_elem_of_lookup in Hin as [idx Hidx].
      exists (idx, entry). split; [by apply elem_of_enumerate|].
      rewrite ElisionFacts.step_cases. unfold LastNObservations.keeps.
      rewrite (bool_decide_true _ Htag), andb_false_r.
      by rewrite (bool_decide_false _ Hm).
  - apply LastNFacts.elision_returns.
Qed.

Lemma elision_outcomes_witness :
  LastNObservations.call
    {| LastNObservations.n := 1; LastNObservations.polling := 0;
       LastNObservations.always_remove_output_for_tags := ∅;
       LastNObservations.always_keep_output_for_tags := ∅ |}
    [Sample.message "user" (str "x")] = Raise ZeroDivisionError
  /\ LastNObservations.call (LastNObservations.defaults 1)
       [{| role := "assistant"; content := Str (str "ls");
           message_type := Some "action"%string;
           tags := Some {[ "remove_output"%string ]}; is_demo := false;
           tool_calls := None; cache_control := None |}]
     = Raise AssertionError.
Proof.
  split.
  - by apply elision_outcomes.
  - apply elision_outcomes; [simpl; lia|].
    eexists. split; [left|]. split; [vm_compute; discriminate|discriminate].
Defined.

(** X3. With a positive [polling], elision changes nothing when [n] is at
    least the number of observations that are not demos and no entry carries
    a tag of [always_remove_output_for_tags]. *)
Theorem elision_keeps_all_when_n_is_large
    (self : LastNObservations.t) (history : History) :
  0 < LastNObservations.polling self ->
  Z.of_nat (length (observation_indices_from 0 history)) <= LastNObservations.n self ->
  (forall entry, entry ∈ history ->
     tags_of entry ∩ LastNObservations.always_remove_output_for_tags self = ∅) ->
  LastNObservations.call self history = Ok history.
Proof.
  intros Hp Hn Htags. unfold LastNObservations.call.
  rewrite ElisionFacts.omit_indices_eq.
  destruct (LastNObservations.polling self =? 0) eqn:E; [lia|].
  rewrite bind_Ok_l.
  assert (Z.to_nat
            (Z.max 0
               (Z.of_nat (length (observation_indices_from 0 history))
                / LastNObservations.polling self * LastNObservations.polling self
                - LastNObservations.n self)) = 0%nat) as ->.
  { pose proof (Z.mul_div_le
                  (Z.of_nat (length (observation_indices_from 0 history)))
                  (LastNObservations.polling self) Hp).
    lia. }
  rewrite take_0, drop_nil.
  rewrite (collect_fmap _ snd).
  - unfold enumerate. by rewrite snd_enumerate_from.
  - intros [idx entry] Hin. apply elem_of_enumerate in Hin.
    rewrite ElisionFacts.step_cases. unfold LastNObservations.keeps.
    rewrite (bool_decide_false (idx ∈ [])) by apply not_elem_of_nil.
    rewrite (bool_decide_false
               (tags_of entry ∩ LastNObservations.always_remove_output_for_tags self ≠ ∅)).
    + done.
    + intros H. apply H, Htags. apply list_elem_of_lookup. eauto.
Qed.

Lemma elision_keeps_all_when_n_is_large_witness :
  let obs := Sample.observation (Str Sample.two_lines) [] false in
  LastNObservations.call (LastNObservations.defaults 3)
    [obs; Sample.action (str "ls") "bash"; obs; obs]
  = Ok [obs; Sample.action (str "ls") "bash"; obs; obs].
Proof.
  intros obs. apply elision_keeps_all_when_n_is_large.
  - simpl. lia.
  - vm_compute. discriminate.
  - intros entry He. elem_cases He; vm_compute; reflexivity.
Defined.

(** X4. The rule of the last [n] observations, with [polling].  For a
    positive [polling] and a non-negative [n], the omitted range is the
    observations that are not demos from the second one up to, and without,
    the position [last_removed_idx] that the code computes.  The
    observations after the range number the smaller of the number of
    observations and [kept_window], which is [n] plus the remainder of the
    number of observations by [polling] and so lies between [n] and
    [n + polling - 1]; with fewer observations than that nothing is omitted.
    The first observation and the ones after the range are returned
    unchanged unless they carry a tag of [always_remove_output_for_tags];
    the ones in the range are collapsed unless they carry a tag of
    [always_keep_output_for_tags]. *)
Theorem elision_window
    (self : LastNObservations.t) (history new_history : History)
    (k idx : nat) (entry : HistoryItem) :
  0 < LastNObservations.polling self -> 0 <= LastNObservations.n self ->
  LastNObservations.call self history = Ok new_history ->
  observation_indices_from 0 history !! k = Some idx ->
  history !! idx = Some entry ->
  LastNObservations._get_omit_indices self history
  = Ok (drop 1 (take (last_removed_idx self history)
                  (observation_indices_from 0 history)))
  /\ (length (observation_indices_from 0 history) - last_removed_idx self history
      = length (observation_indices_from 0 history) `min` kept_window self history)%nat
  /\ (LastNObservations.n self <= Z.of_nat (kept_window self history)
      < LastNObservations.n self + LastNObservations.polling self)
  /\ ((k = 0%nat
       \/ (length (observation_indices_from 0 history)
           <= k + kept_window self history)%nat) ->
      tags_of entry ∩ LastNObservations.always_remove_output_for_tags self = ∅ ->
      new_history !! idx = Some entry)
  /\ ((1 <= k)%nat ->
      (k + kept_window self history
       < length (observation_indices_from 0 history))%nat ->
      tags_of entry ∩ LastNObservations.always_keep_output_for_tags self = ∅ ->
      new_history !! idx = Some (collapsed entry)).
Proof.
  intros Hp Hn Hc Hk Hl.
  split.
  { rewrite ElisionFacts.omit_indices_eq.
    destruct (LastNObservations.polling self =? 0) eqn:E; [lia|done]. }
  split; [by apply ElisionFacts.last_removed_idx_window|].
  split; [by apply ElisionFacts.kept_window_bounds|].
  destruct (LastNFacts.elision_lookup _ _ _ _ _ Hc Hl) as (omit & e' & Homit & Hs & ->).
  pose proof (ElisionFacts.omit_position _ _ _ _ _ Hp Hn Homit Hk) as Hpos.
  rewrite ElisionFacts.step_cases in Hs. unfold LastNObservations.keeps in Hs.
  split.
  - intros Hkeep Hr.
    rewrite (bool_decide_false (idx ∈ omit)) in Hs by (rewrite Hpos; lia).
    rewrite (bool_decide_false
               (tags_of entry ∩ LastNObservations.always_remove_output_for_tags self ≠ ∅))
      in Hs by (intros H; by apply H).
    simpl in Hs. by injection Hs as <-.
  - intros H1 Hcut Hkeep.
    rewrite (bool_decide_true (idx ∈ omit)) in Hs by (rewrite Hpos; lia).
    rewrite (bool_decide_false
               (tags_of entry ∩ LastNObservations.always_keep_output_for_tags self ≠ ∅))
      in Hs by (intros H; by apply H).
    simpl in Hs.
    assert (idx ∈ observation_indices_from 0 history) as Hin
      by (apply list_elem_of_lookup; eauto).
    apply LastNFacts.observation_indices_from_spec in Hin as (_ & e & He & Ho).
    rewrite Nat.sub_0_r, Hl in He. injection He as <-.
    unfold LastNObservations.is_observation in Ho.
    apply andb_true_iff in Ho as [Ho _]. rewrite Ho in Hs. by injection Hs as <-.
Qed.

Lemma elision_window_witness :
  let obs c := Sample.observation (Str c) [] false in
  let history :=
    [obs (str "o0"); obs (str "o1"); Sample.action (str "ls") "bash"; obs (str "o2");
     obs (str "o3"); obs (str "o4"); obs (str "o5"); obs (str "o6")] in
  let self :=
    {| LastNObservations.n := 2; LastNObservations.polling := 3;
       LastNObservations.always_remove_output_for_tags := {[ "remove_output"%string ]};
       LastNObservations.always_keep_output_for_tags := {[ "keep_output"%string ]} |} in
  kept_window self history = 3%nat
  /\ last_removed_idx self history = 4%nat
  /\ kept_window self [obs (str "o0")] = 3%nat
  /\ last_removed_idx self [obs (str "o0")] = 0%nat
  /\ exists new_history,
       LastNObservations.call self history = Ok new_history
       /\ new_history !! 4%nat = Some (collapsed (obs (str "o3")))
       /\ new_history !! 5%nat = Some (obs (str "o4")).
Proof.
  intros obs history self.
  split; [reflexivity|]. split; [reflexivity|].
  split; [reflexivity|]. split; [reflexivity|].
  assert (exists new_history, LastNObservations.call self history = Ok new_history)
    as [new_history Hc] by (eexists; vm_compute; reflexivity).
  exists new_history. split; [exact Hc|]. split.
  - destruct (elision_window self history new_history 3 4 (obs (str "o3")))
      as (_ & _ & _ & _ & H);
      [simpl; lia|simpl; lia|exact Hc|reflexivity|reflexivity|].
    apply H; [lia|vm_compute; lia|vm_compute; reflexivity].
  - destruct (elision_window self history new_history 4 5 (obs (str "o4")))
      as (_ & _ & _ & H & _);
      [simpl; lia|simpl; lia|exact Hc|reflexivity|reflexivity|].
    apply H; [right; vm_compute; lia|vm_compute; reflexivity].
Defined.

(** X5. An entry with a tag of [always_keep_output_for_tags] and no tag of
    [always_remove_output_for_tags] is returned unchanged by elision,
    wherever it stands in the history. *)
Theorem keep_tag_protects
    (self : LastNObservations.t) (history new_history : History)
    (idx : nat) (entry : HistoryItem) :
  LastNObservations.call self history = Ok new_history ->
  history !! idx = Some entry ->
  tags_of entry ∩ LastNObservations.always_keep_output_for_tags self ≠ ∅ ->
  tags_of entry ∩ LastNObservations.always_remove_output_for_tags self = ∅ ->
  new_history !! idx = Some entry.
Proof.
  intros Hc Hl Hkeep Hremove.
  destruct (LastNFacts.elision_lookup _ _ _ _ _ Hc Hl) as (omit & e' & _ & Hs & ->).
  rewrite ElisionFacts.step_cases in Hs. unfold LastNObservations.keeps in Hs.
  rewrite (bool_decide_true _ Hkeep), orb_true_r in Hs.
  rewrite (bool_decide_false
             (tags_of entry ∩ LastNObservations.always_remove_output_for_tags self ≠ ∅))
    in Hs by (intros H; by apply H).
  simpl in Hs. by injection Hs as <-.
Qed.

Lemma keep_tag_protects_witness :
  let obs := Sample.observation (Str Sample.two_lines) [] false in
  let kept := Sample.observation (Str Sample.two_lines) ["keep_output"%string] false in
  exists new_history,
    LastNObservations.call (LastNObservations.defaults 1) [obs; kept; obs; obs]
    = Ok new_history
    /\ new_history !! 1%nat = Some kept
    /\ new_history !! 2%nat = Some (collapsed obs).
Proof.
  intros obs kept. eexists. split; [vm_compute; reflexivity|]. split.
  - apply (keep_tag_protects (LastNObservations.defaults 1) [obs; kept; obs; obs]
             _ 1%nat kept).
    + vm_compute. reflexivity.
    + reflexivity.
    + vm_compute. discriminate.
    + vm_compute. reflexivity.
  - reflexivity.
Defined.

(* ================================================================== *)
(** ** Tag propagation followed by elision *)

Lemma enumerate_from_fmap {A B : Type} (f : A -> B) (k : nat) (xs : list A) :
  enumerate_from k (f <$> xs) = (fun p => (fst p, f (snd p))) <$> enumerate_from k xs.
Proof. revert k. induction xs as [|x xs IH]; intros k; [done|]. simpl. by rewrite IH. Qed.

Lemma collect_cons {A B : Type} (f : A -> Result B) x xs :
  collect f (x :: xs) = (y ← f x; ys ← collect f xs; Ok (y :: ys)).
Proof. reflexivity. Qed.

Lemma collect_compose {A B C : Type} (f : A -> Result B) (g : C -> A) xs :
  collect f (g <$> xs) = collect (fun x => f (g x)) xs.
Proof.
  induction xs as [|x xs IH]; [done|]. rewrite fmap_cons.
  change (collect f (g x :: (g <$> xs)))
    with (y ← f (g x); ys ← collect f (g <$> xs); Ok (y :: ys)).
  by rewrite IH.
Qed.

Module TagElisionFacts.
Import LastNObservations.

Lemma visit_message_type tg entry :
  message_type (TagToolCallObservations.visit tg entry) = message_type entry.
Proof.
  unfold TagToolCallObservations.visit.
  by destruct (TagToolCallObservations._should_add_tags tg entry).
Qed.

Lemma visit_is_observation tg entry :
  is_observation (TagToolCallObservations.visit tg entry) = is_observation entry.
Proof.
  unfold is_observation, TagToolCallObservations.visit.
  by destruct (TagToolCallObservations._should_add_tags tg entry).
Qed.

Lemma should_add_tags_action tg entry :
  TagToolCallObservations._should_add_tags tg entry = true ->
  message_type entry = Some "action"%string.
Proof.
  unfold TagToolCallObservations._should_add_tags.
  destruct (bool_decide (message_type entry = Some "action"%string)) eqn:E; [|done].
  intros _. by apply bool_decide_eq_true in E.
Qed.

Lemma visit_collapsed tg entry :
  TagToolCallObservations._should_add_tags tg entry = false ->
  TagToolCallObservations.visit tg (collapsed entry) = collapsed entry.
Proof.
  intros H. unfold TagToolCallObservations.visit.
  by replace (TagToolCallObservations._should_add_tags tg (collapsed entry))
    with false.
Qed.

Lemma observation_indices_visit tg k history :
  observation_indices_from k (TagToolCallObservations.call_v tg history)
  = observation_indices_from k history.
Proof.
  unfold TagToolCallObservations.call_v. revert k.
  induction history as [|e history IH]; intros k; [done|].
  rewrite fmap_cons, !LastNFacts.observation_indices_from_cons, IH.
  by rewrite visit_is_observation.
Qed.

Lemma omit_indices_visit self tg history :
  _get_omit_indices self (TagToolCallObservations.call_v tg history)
  = _get_omit_indices self history.
Proof.
  rewrite !ElisionFacts.omit_indices_eq. by rewrite observation_indices_visit.
Qed.

(** The tags of a tagged action with a tag to remove. *)
Lemma tagged_action_not_kept self tg omit idx entry :
  TagToolCallObservations._should_add_tags tg entry = true ->
  TagToolCallObservations.tags tg ∩ always_remove_output_for_tags self ≠ ∅ ->
  step self omit (idx, TagToolCallObservations.visit tg entry) = Raise AssertionError.
Proof.
  intros Hs Hr. rewrite ElisionFacts.step_cases. unfold keeps.
  assert (tags_of (TagToolCallObservations.visit tg entry)
          ∩ always_remove_output_for_tags self ≠ ∅) as Hne.
  { unfold TagToolCallObservations.visit. rewrite Hs.
    unfold TagToolCallObservations._add_tags, tags_of at 1. simpl. set_solver. }
  rewrite (bool_decide_true _ Hne), andb_false_r.
  rewrite visit_message_type, (should_add_tags_action _ _ Hs). done.
Qed.

Lemma step_visit self tg omit idx entry :
  TagToolCallObservations.tags tg ∩ always_remove_output_for_tags self = ∅ ->
  (idx ∈ omit -> message_type entry = Some "observation"%string) ->
  step self omit (idx, TagToolCallObservations.visit tg entry)
  = match step self omit (idx, entry) with
    | Ok entry' => Ok (TagToolCallObservations.visit tg entry')
    | Raise e => Raise e
    end.
Proof.
  intros Hdisjoint Homit. rewrite !ElisionFacts.step_cases.
  destruct (TagToolCallObservations._should_add_tags tg entry) eqn:Hs.
  - pose proof (should_add_tags_action _ _ Hs) as Hm.
    assert (idx ∉ omit) as Hnot by (intros Hin; rewrite (Homit Hin) in Hm; done).
    unfold keeps. rewrite (bool_decide_false _ Hnot). cbn [negb orb andb].
    rewrite visit_message_type, Hm.
    assert (bool_decide
              (tags_of (TagToolCallObservations.visit tg entry)
               ∩ always_remove_output_for_tags self ≠ ∅)
            = bool_decide (tags_of entry ∩ always_remove_output_for_tags self ≠ ∅))
      as ->.
    { apply bool_decide_ext. unfold TagToolCallObservations.visit. rewrite Hs.
      unfold TagToolCallObservations._add_tags, tags_of at 1. simpl. set_solver. }
    by destruct (bool_decide (tags_of entry ∩ _ ≠ ∅)).
  - assert (TagToolCallObservations.visit tg entry = entry) as ->
      by (unfold TagToolCallObservations.visit; by rewrite Hs).
    destruct (keeps self omit idx entry).
    + unfold TagToolCallObservations.visit. by rewrite Hs.
    + destruct (bool_decide _); [|done]. by rewrite visit_collapsed.
Qed.
End TagElisionFacts.

(** X6. Tag propagation and elision commute when the tags that are added
    are none of [always_remove_output_for_tags]: eliding the tagged history
    gives the tagged elided history, and raises when eliding the history
    raises. *)
Theorem tagging_then_elision_commute
    (tg : TagToolCallObservations.t) (self : LastNObservations.t)
    (history : History) :
  TagToolCallObservations.tags tg
    ∩ LastNObservations.always_remove_output_for_tags self = ∅ ->
  LastNObservations.call self (TagToolCallObservations.call_v tg history)
  = match LastNObservations.call self history with
    | Ok new_history => Ok (TagToolCallObservations.call_v tg new_history)
    | Raise e => Raise e
    end.
Proof.
  intros Hdisjoint. unfold LastNObservations.call.
  rewrite TagElisionFacts.omit_indices_visit.
  destruct (LastNObservations._get_omit_indices self history) as [omit|e] eqn:Ho;
    [|done].
  rewrite !bind_Ok_l. unfold TagToolCallObservations.call_v, enumerate.
  rewrite enumerate_from_fmap, collect_compose.
  assert (forall p, p ∈ enumerate_from 0 history ->
            fst p ∈ omit -> message_type (snd p) = Some "observation"%string)
    as Hobs.
  { intros [idx entry] Hin Hidx. apply elem_of_enumerate in Hin. simpl in *.
    destruct (LastNFacts.omit_indices_spec _ _ _ _ Ho Hidx) as (e & He & Hobs).
    rewrite Hin in He. injection He as <-.
    unfold LastNObservations.is_observation in Hobs.
    apply andb_true_iff in Hobs as [Hobs _]. by apply bool_decide_eq_true in Hobs. }
  revert Hobs. generalize (enumerate_from 0 history). intros ps Hobs.
  induction ps as [|[idx entry] ps IH]; [done|]. rewrite !collect_cons.
  cbn [fst snd].
  rewrite TagElisionFacts.step_visit; [|done|apply (Hobs (idx, entry)); left].
  destruct (LastNObservations.step self omit (idx, entry)) as [e'|err]; [|done].
  rewrite !bind_Ok_l, IH by (intros p Hp; apply Hobs; by right).
  by destruct (collect (LastNObservations.step self omit) ps).
Qed.

Lemma tagging_then_elision_commute_witness :
  let obs := Sample.observation (Str Sample.two_lines) [] false in
  let history := [obs; Sample.action (str "ls") "bash"; obs; obs] in
  let tg := {| TagToolCallObservations.tags := {[ "keep_output"%string ]};
               TagToolCallObservations.function_names := {[ "bash"%string ]} |} in
  LastNObservations.call (LastNObservations.defaults 1)
    (TagToolCallObservations.call_v tg history)
  = Ok (TagToolCallObservations.call_v tg
          [obs; Sample.action (str "ls") "bash"; collapsed obs; obs]).
Proof.
  intros obs history tg.
  rewrite (tagging_then_elision_commute tg (LastNObservations.defaults 1) history).
  - vm_compute. reflexivity.
  - vm_compute. reflexivity.
Defined.

(** X7. Tag propagation puts its tags on the action, not on the observation
    that follows it.  When one of the tags it adds is in
    [always_remove_output_for_tags] and some entry is tagged, elision of the
    tagged history raises AssertionError: the tagged entry is to be
    collapsed and is not an observation. *)
Theorem tagging_a_remove_tag_makes_elision_raise
    (tg : TagToolCallObservations.t) (self : LastNObservations.t)
    (history : History) (entry : HistoryItem) :
  LastNObservations.polling self <> 0 ->
  TagToolCallObservations.tags tg
    ∩ LastNObservations.always_remove_output_for_tags self ≠ ∅ ->
  entry ∈ history ->
  TagToolCallObservations._should_add_tags tg entry = true ->
  LastNObservations.call self (TagToolCallObservations.call_v tg history)
  = Raise AssertionError.
Proof.
  intros Hp Hr Hin Hs. unfold LastNObservations.call.
  destruct (LastNFacts.omit_indices_returns
              self (TagToolCallObservations.call_v tg history) Hp) as [omit ->].
  rewrite bind_Ok_l. apply collect_raises.
  - intros [idx e] _. rewrite ElisionFacts.step_cases.
    destruct (LastNObservations.keeps self omit idx e); [eauto|].
    destruct (bool_decide _); eauto.
  - apply list_elem_of_lookup in Hin as [idx Hidx].
    exists (idx, TagToolCallObservations.visit tg entry). split.
    + apply elem_of_enumerate. unfold TagToolCallObservations.call_v.
      by rewrite list_lookup_fmap, Hidx.
    + by apply TagElisionFacts.tagged_action_not_kept.
Qed.

Lemma tagging_a_remove_tag_makes_elision_raise_witness :
  let obs := Sample.observation (Str Sample.two_lines) [] false in
  let tg := {| TagToolCallObservations.tags := {[ "remove_output"%string ]};
               TagToolCallObservations.function_names := {[ "bash"%string ]} |} in
  LastNObservations.call (LastNObservations.defaults 1)
    (TagToolCallObservations.call_v tg [obs; Sample.action (str "ls") "bash"; obs])
  = Raise AssertionError.
Proof.
  intros obs tg.
  apply (tagging_a_remove_tag_makes_elision_raise tg (LastNObservations.defaults 1)
           _ (Sample.action (str "ls") "bash")).
  - simpl. lia.
  - vm_compute. discriminate.
  - right. left.
  - vm_compute. reflexivity.
Defined.

(* ================================================================== *)
(** ** Tag propagation on the store *)

Module TagFrameFacts.
Import TagToolCallObservations.

Lemma tag_loop_lookup self ls :
  forall (σ σ' : Store),
    for_each (step self) ls σ = Ok σ' ->
    forall l,
      σ' !! l = if bool_decide (l ∈ ls) then visit self <$> σ !! l else σ !! l.
Proof.
  induction ls as [|l0 ls IH]; intros σ σ' H l.
  - injection H as <-. by rewrite bool_decide_false by apply not_elem_of_nil.
  - rewrite for_each_cons in H. apply bind_Ok in H as (σ1 & Hs & H).
    apply TagStoreFacts.tag_step_Ok in Hs as (entry & Hl0 & ->).
    rewrite (IH _ _ H l). destruct (decide (l = l0)) as [->|Hne].
    + rewrite lookup_insert_eq, Hl0, (bool_decide_true (l0 ∈ l0 :: ls)) by left.
      simpl. destruct (bool_decide (l0 ∈ ls)); [|done].
      by rewrite TagFacts.visit_idempotent.
    + rewrite lookup_insert_ne by done.
      assert (bool_decide (l ∈ l0 :: ls) = bool_decide (l ∈ ls)) as ->; [|done].
      apply bool_decide_ext. rewrite elem_of_cons. naive_solver.
Qed.
End TagFrameFacts.

(** X8. Tag propagation works in place and touches nothing but the tags of
    the entries it selects.  The list it returns is the list it was given;
    an entry object of the history holds afterwards what a visit makes of it,
    every other object of the store is as before; and a visit leaves an entry
    that is not an action as it is, and otherwise changes at most the tags,
    to which it adds the configured ones. *)
Theorem tagging_in_place_changes_tags_only
    (self : TagToolCallObservations.t) (σ σ' : Store) (history h' : list loc) :
  TagToolCallObservations.call self σ history = Ok (σ', h') ->
  h' = history
  /\ (forall l,
        σ' !! l = if bool_decide (l ∈ history)
                  then TagToolCallObservations.visit self <$> σ !! l
                  else σ !! l)
  /\ (forall entry,
        (message_type entry <> Some "action"%string ->
         TagToolCallObservations.visit self entry = entry)
        /\ (TagToolCallObservations.visit self entry = entry
            \/ TagToolCallObservations.visit self entry
               = set_tags entry (tags_of entry ∪ TagToolCallObservations.tags self))).
Proof.
  unfold TagToolCallObservations.call. intros H.
  apply bind_Ok in H as (σ1 & Hl & [= <- <-]).
  split; [done|]. split; [by apply TagFrameFacts.tag_loop_lookup|].
  intros entry. unfold TagToolCallObservations.visit. split.
  - intros Hm. unfold TagToolCallObservations._should_add_tags.
    by rewrite (bool_decide_false _ Hm).
  - destruct (TagToolCallObservations._should_add_tags self entry); [right|left]; done.
Qed.

Lemma tagging_in_place_changes_tags_only_witness :
  let act := Sample.action (str "ls") "bash" in
  let obs := Sample.observation (Str (str "out")) [] false in
  let self := {| TagToolCallObservations.tags := {[ "keep_output"%string ]};
                 TagToolCallObservations.function_names := {[ "bash"%string ]} |} in
  exists σ' : Store,
    TagToolCallObservations.call self {[ 1%nat := act; 2%nat := obs; 3%nat := act ]}
      [1; 2]%nat = Ok (σ', [1; 2]%nat)
    /\ σ' !! 1%nat = Some (set_tags act {[ "keep_output"%string ]})
    /\ σ' !! 2%nat = Some obs
    /\ σ' !! 3%nat = Some act.
Proof.
  intros act obs self. eexists. split; [vm_compute; reflexivity|].
  match goal with
  | |- ?s !! _ = _ /\ _ =>
      destruct (tagging_in_place_changes_tags_only self
                  {[ 1%nat := act; 2%nat := obs; 3%nat := act ]} s
                  [1; 2]%nat [1; 2]%nat) as (_ & H & _);
        [vm_compute; reflexivity|]
  end.
  rewrite !H. split; [|split]; vm_compute; reflexivity.
Defined.

(* ================================================================== *)
(** ** Cache control: where the markers are *)

Module CacheMarkFacts.
Import CacheControlHistoryProcessor.

Lemma clear_has_no_marker entry : has_marker (_clear_cache_control entry) = false.
Proof.
  destruct entry as [r [s|items] mt tg d tc cc]; unfold has_marker; [done|].
  cbn. induction items as [|item items IH]; [done|].
  cbn. destruct item; cbn; exact IH.
Qed.

Lemma clear_items_unmarked (items : list Segment) :
  Forall (fun it => item_cache_control it = None)
    ((fun item => set_item_cache_control item None) <$> items).
Proof. induction items as [|item items IH]; constructor; [by destruct item|done]. Qed.

Lemma set_after_clear entry entry' :
  _set_cache_control (_clear_cache_control entry) = Ok entry' ->
  marked_in_place entry' /\ has_marker entry' = true
  /\ same_message entry entry'.
Proof.
  destruct entry as [r [s|[|item items]] mt tg d tc cc];
    unfold _set_cache_control, _clear_cache_control; simpl; [|done|];
    unfold_bind; simpl; destruct (name_eqb r "tool") eqn:Hr; intros [= <-].
  - split; [|split].
    + exists (TextSeg s None), []. cbn. rewrite Hr. by repeat split.
    + done.
    + by repeat split.
  - split; [|split].
    + exists (TextSeg s (Some ephemeral)), []. cbn. rewrite Hr. by repeat split.
    + done.
    + by repeat split.
  - split; [|split].
    + eexists _, _. cbn. rewrite Hr. split; [done|].
      split; [apply clear_items_unmarked|]. by destruct item.
    + done.
    + repeat split. cbn. f_equal; [by destruct item|].
      apply CacheFacts.clear_item_idempotent.
  - split; [|split].
    + eexists _, _. cbn. rewrite Hr. split; [done|].
      split; [apply clear_items_unmarked|]. by destruct item.
    + unfold has_marker. cbn. by destruct item.
    + repeat split. cbn. f_equal; [by destruct item|].
      apply CacheFacts.clear_item_idempotent.
Qed.

Lemma clear_same_message entry : same_message entry (_clear_cache_control entry).
Proof.
  destruct entry as [r [s|items] mt tg d tc cc]; repeat split.
  cbn. apply CacheFacts.clear_item_idempotent.
Qed.

(** What a visit returns: the cleared entry, or a marked entry when fewer
    than [last_n_messages] entries were marked before. *)
Lemma visit_cases self n_tagged i_entry entry entry' n' :
  visit self n_tagged i_entry entry = Ok (entry', n') ->
  same_message entry entry'
  /\ ((n' = n_tagged /\ has_marker entry' = false
       /\ entry' = _clear_cache_control entry)
      \/ (n' = n_tagged + 1 /\ n_tagged < last_n_messages self
          /\ has_marker entry' = true
          /\ role entry' ∈ tagged_roles self
          /\ marked_in_place entry')).
Proof.
  unfold visit. destruct (tagging _ _ _ _) eqn:Ht.
  - intros H. apply bind_Ok in H as (e1 & Hs & [= <- <-]).
    unfold tagging in Ht. apply andb_true_iff in Ht as [Ht _].
    apply andb_true_iff in Ht as [Hn Hrole]. apply Z.ltb_lt in Hn.
    apply bool_decide_eq_true in Hrole.
    pose proof (CacheFacts.role_set _ _ Hs) as Hr.
    apply set_after_clear in Hs as (Hm & Hh & Hsame).
    split; [done|]. right. repeat split; try done. by rewrite Hr.
  - intros [= <- <-]. split; [apply clear_same_message|]. left.
    split; [done|]. split; [apply clear_has_no_marker|done].
Qed.

Lemma loop_v_marks self entries :
  forall i n_tagged acc n' acc',
    for_each (step_v self) (enumerate_from i entries) (n_tagged, acc) = Ok (n', acc') ->
    exists out,
      acc' = acc ++ out
      /\ Forall2 same_message entries out
      /\ n' = n_tagged
              + Z.of_nat (length (filter (fun e => has_marker e = true) out))
      /\ (n_tagged <= Z.max 0 (last_n_messages self) ->
          n' <= Z.max 0 (last_n_messages self))
      /\ Forall (fun e => has_marker e = true ->
                          role e ∈ tagged_roles self /\ marked_in_place e) out.
Proof.
  induction entries as [|entry entries IH]; intros i n_tagged acc n' acc' H.
  - injection H as <- <-. exists []. rewrite app_nil_r. simpl.
    repeat split; try done; lia.
  - rewrite enumerate_from_cons, for_each_cons in H.
    apply bind_Ok in H as ([n1 acc1] & Hs & H).
    rewrite CacheStoreFacts.step_v_eq in Hs.
    apply bind_Ok in Hs as ([e1 n1'] & Hv & [= <- <-]). cbn [fst snd] in H.
    apply IH in H as (out & -> & Hsame & -> & Hmax & Hall).
    apply visit_cases in Hv as (Hsame1 & Hcase).
    exists (e1 :: out). split; [by rewrite <- app_assoc|].
    split; [by constructor|].
    destruct Hcase as [(-> & Hno & _)|(-> & Hlt & Hyes & Hrole & Hmark)].
    + rewrite filter_cons_False by (by rewrite Hno).
      split; [done|]. split; [done|]. constructor; [|done].
      intros Hyes. by rewrite Hno in Hyes.
    + rewrite filter_cons_True by done. simpl length.
      split; [lia|]. split; [intros; apply Hmax; lia|]. by constructor.
Qed.
End CacheMarkFacts.

(** X9. When [last_n_messages] is zero or negative, cache control only
    clears: every entry comes back with its content and without any marker,
    on the entry or on an item. *)
Theorem cache_control_clears_when_n_is_not_positive
    (self : CacheControlHistoryProcessor.t) (history : History) :
  CacheControlHistoryProcessor.last_n_messages self <= 0 ->
  exists new_history,
    CacheControlHistoryProcessor.call_v self history = Ok new_history
    /\ new_history = _clear_cache_control <$> history
    /\ Forall (fun entry => has_marker entry = false) new_history.
Proof.
  intros Hn.
  assert (forall entries i acc,
            for_each (CacheControlHistoryProcessor.step_v self)
              (enumerate_from i entries) (0, acc)
            = Ok (0, acc ++ (_clear_cache_control <$> entries))) as Hloop.
  { induction entries as [|entry entries IH]; intros i acc.
    - by rewrite app_nil_r.
    - rewrite enumerate_from_cons, for_each_cons, CacheStoreFacts.step_v_eq.
      unfold CacheControlHistoryProcessor.visit,
        CacheControlHistoryProcessor.tagging.
      replace (0 <? CacheControlHistoryProcessor.last_n_messages self) with false
        by (symmetry; apply Z.ltb_ge; lia).
      cbn [andb]. rewrite !bind_Ok_l. cbn [fst snd].
      rewrite IH, fmap_cons. by rewrite <- app_assoc. }
  exists (_clear_cache_control <$> history). split; [|split; [done|]].
  - unfold CacheControlHistoryProcessor.call_v, enumerate.
    rewrite Hloop, bind_Ok_l. simpl.
    by rewrite fmap_reverse, reverse_involutive.
  - apply Forall_fmap, Forall_forall. intros entry _.
    apply CacheMarkFacts.clear_has_no_marker.
Qed.

Lemma cache_control_clears_when_n_is_not_positive_witness :
  let marked :=
    {| role := "user"; content := Segs [TextSeg (str "x") (Some ephemeral)];
       message_type := None; tags := None; is_demo := false; tool_calls := None;
       cache_control := Some ephemeral |} in
  exists new_history,
    CacheControlHistoryProcessor.call_v
      {| CacheControlHistoryProcessor.last_n_messages := 0;
         CacheControlHistoryProcessor.last_n_messages_offset := 0;
         CacheControlHistoryProcessor.tagged_roles := ["user"]%string |}
      [marked; Sample.message "user" (str "y")] = Ok new_history
    /\ Forall (fun entry => has_marker entry = false) new_history.
Proof.
  intros marked.
  destruct (cache_control_clears_when_n_is_not_positive
              {| CacheControlHistoryProcessor.last_n_messages := 0;
                 CacheControlHistoryProcessor.last_n_messages_offset := 0;
                 CacheControlHistoryProcessor.tagged_roles := ["user"]%string |}
              [marked; Sample.message "user" (str "y")])
    as (new_history & Hc & _ & Hall); [simpl; lia|].
  exists new_history. by split.
Defined.

(** X10. After cache control at most [last_n_messages] entries carry a
    marker, each of them has one of the [tagged_roles], and each is marked the
    way [_set_cache_control] does it: a "tool" entry has the marker on the
    entry and none on its items, any other entry has it on its first item
    and nowhere else. *)
Theorem cache_control_marks
    (self : CacheControlHistoryProcessor.t) (history new_history : History) :
  CacheControlHistoryProcessor.call_v self history = Ok new_history ->
  Z.of_nat (length (filter (fun e => has_marker e = true) new_history))
  <= Z.max 0 (CacheControlHistoryProcessor.last_n_messages self)
  /\ Forall (fun e => has_marker e = true ->
                      role e ∈ CacheControlHistoryProcessor.tagged_roles self
                      /\ marked_in_place e) new_history.
Proof.
  unfold CacheControlHistoryProcessor.call_v. intros H.
  apply bind_Ok in H as ([n' acc'] & Hl & [= <-]).
  apply CacheMarkFacts.loop_v_marks in Hl as (out & -> & _ & -> & Hmax & Hall).
  simpl. split.
  - rewrite filter_reverse, length_reverse. specialize (Hmax ltac:(lia)). lia.
  - by apply Forall_reverse.
Qed.

Lemma cache_control_marks_witness :
  let history :=
    [Sample.message "user" (str "a"); Sample.message "tool" (str "b");
     Sample.message "assistant" (str "c"); Sample.message "user" (str "d")] in
  exists new_history,
    CacheControlHistoryProcessor.call_v CacheControlHistoryProcessor.defaults history
    = Ok new_history
    /\ has_marker <$> new_history = [false; true; false; true]
    /\ Z.of_nat (length (filter (fun e => has_marker e = true) new_history)) <= 2.
Proof.
  intros history. eexists. split; [vm_compute; reflexivity|].
  split; [vm_compute; reflexivity|].
  match goal with
  | |- Z.of_nat (length (filter _ ?h)) <= _ =>
      destruct (cache_control_marks CacheControlHistoryProcessor.defaults history h)
        as [H _]; [vm_compute; reflexivity|exact H]
  end.
Defined.

(** X11. Cache control changes markers and nothing else: it returns as many
    entries as it was given, in the same order, each with the role, message
    type, tags, demo flag and tool calls it had, and with the same items of
    content once the markers are left out (a string counts as one text
    item). *)
Theorem cache_control_keeps_messages
    (self : CacheControlHistoryProcessor.t) (history new_history : History) :
  CacheControlHistoryProcessor.call_v self history = Ok new_history ->
  Forall2 same_message history new_history.
Proof.
  unfold CacheControlHistoryProcessor.call_v. intros H.
  apply bind_Ok in H as ([n' acc'] & Hl & [= <-]).
  apply CacheMarkFacts.loop_v_marks in Hl as (out & -> & Hsame & _).
  simpl. apply Forall2_reverse in Hsame. by rewrite reverse_involutive in Hsame.
Qed.

Lemma cache_control_keeps_messages_witness :
  let history := [Sample.message "user" (str "a"); Sample.message "tool" (str "b")] in
  exists new_history,
    CacheControlHistoryProcessor.call_v CacheControlHistoryProcessor.defaults history
    = Ok new_history
    /\ Forall2 same_message history new_history.
Proof.
  intros history. eexists. split; [vm_compute; reflexivity|].
  apply (cache_control_keeps_messages CacheControlHistoryProcessor.defaults).
  vm_compute. reflexivity.
Defined.

(** X12. On a history of distinct entry objects the call in place agrees
    with the reading by value: when the entries read from the store give a
    result by value, the call returns the list it was given, the entries of
    the history read afterwards are that result, and the objects of the store
    outside the history are untouched; when the reading by value raises, so
    does the call. *)
Theorem cache_control_in_place_agrees
    (self : CacheControlHistoryProcessor.t) (σ : Store) (history : list loc)
    (entries : History) :
  NoDup history -> read σ history = Ok entries ->
  match CacheControlHistoryProcessor.call_v self entries with
  | Ok new_entries =>
      exists σ' : Store,
        CacheControlHistoryProcessor.call self σ history = Ok (σ', history)
        /\ read σ' history = Ok new_entries
        /\ forall l, l ∉ history -> σ' !! l = σ !! l
  | Raise e => CacheControlHistoryProcessor.call self σ history = Raise e
  end.
Proof. apply CacheStoreFacts.call_by_value. Qed.

Lemma cache_control_in_place_agrees_witness :
  let u := Sample.message "user" (str "x") in
  let broken :=
    {| role := "user"; content := Segs []; message_type := None; tags := None;
       is_demo := false; tool_calls := None; cache_control := None |} in
  CacheControlHistoryProcessor.call CacheControlHistoryProcessor.defaults
    {[ 1%nat := u; 2%nat := broken ]} [1; 2]%nat = Raise IndexError.
Proof.
  intros u broken.
  pose proof (cache_control_in_place_agrees CacheControlHistoryProcessor.defaults
                {[ 1%nat := u; 2%nat := broken ]} [1; 2]%nat [u; broken]
                ltac:(compute_done) eq_refl) as H.
  exact H.
Defined.

(* ================================================================== *)
(** ** Regex redaction: which records are redacted *)


Example remove_regex_keeps_the_last_example :
  let diff := Sample.message "user" (str "a<diff>b</diff>c") in
  RemoveRegex.call {| RemoveRegex.remove := [RemoveRegex.diff_pattern];
                      RemoveRegex.keep_last := 2 |} [diff; diff; diff; diff]
  = [Sample.message "user" (str "ac"); Sample.message "user" (str "ac"); diff; diff].
Proof. vm_compute. reflexivity. Qed.

(* ================================================================== *)
(** ** Image segmentation: the items it builds *)

Section OrderedScan.
Variable fl : Flags.
Variable s : text.

(** The matches of a scan follow each other inside the text. *)
Lemma finditer_from_ordered r fuel adv i :
  (i <= length s)%nat ->
  ordered_from (length s) i (finditer_from fl s r fuel adv i).
Proof.
  revert adv i. induction fuel as [|fuel IH]; intros adv i Hi; [done|].
  simpl. destruct (search_from fl s r (length s - i) adv i) as [mt|] eqn:Hs;
    [|done].
  apply search_from_Some in Hs as (Hstart & (adv' & Hat & _) & _).
  apply match_at_Some in Hat as (_ & Hm & _).
  apply matches_bounds in Hm as [Hle Hlen].
  assert (m_end mt <= length s)%nat
    by (destruct (decide (m_start mt < m_end mt)%nat); [auto|lia]).
  simpl. split; [lia|]. split; [done|]. split; [done|]. by apply IH.
Qed.

Lemma finditer_ordered r : ordered_from (length s) 0 (finditer fl s r).
Proof. apply finditer_from_ordered. lia. Qed.

Lemma finditer_attempts r :
  Forall (fun mt => exists adv, match_at fl s r adv (m_start mt) = Some mt)
    (finditer fl s r).
Proof. apply Forall_forall. intros mt Hin. by apply finditer_from_elem in Hin. Qed.
End OrderedScan.

Module SegmentFacts.
Import ImageParsingHistoryProcessor.

(** What [add_text] does with a text that is not empty: it extends a last
    text item, or appends a text item. *)
Lemma add_text_cases (segments : list Segment) (t : text) :
  t <> [] ->
  (exists l t0 cc,
     segments = l ++ [TextSeg t0 cc]
     /\ add_text segments t = l ++ [TextSeg (t0 ++ t) cc])
  \/ ((segments = [] \/ exists l u cc, segments = l ++ [ImageSeg u cc])
      /\ add_text segments t = segments ++ [TextSeg t None]).
Proof.
  intros Ht. destruct t as [|a t]; [done|].
  destruct segments as [|x l _] using rev_ind.
  - right. split; [by left|done].
  - unfold add_text. rewrite last_snoc. destruct x as [t0 cc|u cc].
    + left. exists l, t0, cc. split; [done|].
      rewrite length_app. simpl.
      replace (length l + 1 - 1)%nat with (length l) by lia.
      by rewrite take_app_length.
    + right. split; [right; eauto|done].
Qed.

Lemma add_text_nil (segments : list Segment) : add_text segments [] = segments.
Proof. done. Qed.

Lemma merged_snoc (l : list Segment) (x : Segment) :
  merged (l ++ [x])
  = merged l
    && match last l with
       | Some a => negb (is_text a && is_text x)
       | None => true
       end.
Proof.
  induction l as [|a l IH]; [done|].
  destruct l as [|b l].
  - simpl. by rewrite andb_true_r.
  - change (merged ((a :: b :: l) ++ [x]))
      with (negb (is_text a && is_text b) && merged ((b :: l) ++ [x])).
    rewrite IH. change (merged (a :: b :: l))
      with (negb (is_text a && is_text b) && merged (b :: l)).
    change (last (a :: b :: l)) with (last (b :: l)).
    by rewrite andb_assoc.
Qed.

Lemma merged_add_text (segments : list Segment) (t : text) :
  merged segments = true -> merged (add_text segments t) = true.
Proof.
  intros Hm. destruct t as [|a t]; [done|].
  destruct (add_text_cases segments (a :: t) ltac:(done))
    as [(l & t0 & cc & -> & ->)|[Hlast ->]].
  - rewrite merged_snoc in *. done.
  - rewrite merged_snoc, Hm. destruct Hlast as [->|(l & u & cc & ->)]; [done|].
    by rewrite last_snoc.
Qed.

Lemma merged_add_image (segments : list Segment) (u : text) :
  merged segments = true -> merged (segments ++ [ImageSeg u None]) = true.
Proof.
  intros Hm. rewrite merged_snoc, Hm. destruct (last segments); [|done].
  simpl. by rewrite andb_false_r.
Qed.

Lemma step_merged self c st mt :
  merged (fst (fst st)) = true -> merged (fst (fst (step self c st mt))) = true.
Proof.
  destruct st as [[segments last_end] has_images]. unfold step. cbn [fst].
  intros Hm. destruct (bool_decide _); cbn [fst].
  - by apply merged_add_text, merged_add_image, merged_add_text, merged_add_text.
  - by apply merged_add_text, merged_add_text.
Qed.

Lemma source_text_app (l l' : list Segment) :
  source_text (l ++ l') = source_text l ++ source_text l'.
Proof. unfold source_text. by rewrite fmap_app, concat_app. Qed.

Lemma source_text_add_text (segments : list Segment) (t : text) :
  source_text (add_text segments t) = source_text segments ++ t.
Proof.
  destruct t as [|a t]; [by rewrite app_nil_r|].
  destruct (add_text_cases segments (a :: t) ltac:(done))
    as [(l & t0 & cc & -> & ->)|[_ ->]];
    rewrite !source_text_app; unfold source_text; cbn;
    by rewrite ?app_nil_r, <- ?app_assoc.
Qed.

(** One turn of the loop adds to the items the text from [last_end] to the
    end of the match. *)
Lemma step_source_text self (c : text) segments last_end has_images mt :
  (exists adv, match_at NOFLAG c _pattern adv (m_start mt) = Some mt) ->
  group c mt 3 <> str "image/jpg" ->
  (last_end <= m_start mt)%nat ->
  exists segments' has_images',
    step self c (segments, last_end, has_images) mt
    = (segments', m_end mt, has_images')
    /\ source_text segments'
       = source_text segments ++ slice last_end (m_end mt) c.
Proof.
  intros [adv Hat] Hjpg Hle.
  apply ImageFacts.image_match_shape in Hat
    as (j1 & j3 & j4 & Hb & Hstart & Hend & Hg1 & Hg3 & Hg4 & Hg5 & Hlit).
  unfold step.
  assert (normalize (group c mt 3) = group c mt 3) as ->
    by (unfold normalize; by rewrite bool_decide_false).
  destruct (bool_decide (group c mt 3 ∈ allowed_mime_types self)).
  - eexists _, _. split; [done|].
    rewrite !source_text_add_text, source_text_app, !source_text_add_text.
    unfold source_text at 2. cbn [fmap list_fmap concat].
    change (drop 5 (str "data:" ++ ?x)) with x.
    rewrite app_nil_r, <- !app_assoc. f_equal.
    unfold group. rewrite Hg1, Hg3, Hg4, Hg5, <- Hlit, Hend.
    rewrite !slice_app_more by lia. apply slice_app. lia.
  - eexists _, _. split; [done|].
    rewrite !source_text_add_text, <- app_assoc. f_equal.
    unfold group0. apply slice_app. lia.
Qed.

Lemma loop_source_text self (c : text) ms :
  forall segments last_end has_images,
    Forall (fun mt => exists adv, match_at NOFLAG c _pattern adv (m_start mt) = Some mt)
      ms ->
    Forall (fun mt => group c mt 3 <> str "image/jpg") ms ->
    ordered_from (length c) last_end ms ->
    (last_end <= length c)%nat ->
    exists segments' last_end' has_images',
      foldl (step self c) (segments, last_end, has_images) ms
      = (segments', last_end', has_images')
      /\ (last_end <= last_end' <= length c)%nat
      /\ source_text segments'
         = source_text segments ++ slice last_end last_end' c.
Proof.
  induction ms as [|mt ms IH]; intros segments last_end has_images Hat Hjpg Hord Hlen.
  - eexists _, _, _. split; [done|]. split; [lia|].
    by rewrite slice_empty, app_nil_r.
  - apply Forall_cons in Hat as [Hat Hats]. apply Forall_cons in Hjpg as [Hjpg Hjpgs].
    destruct Hord as (Hle & Hse & Hend & Hord).
    destruct (step_source_text self c segments last_end has_images mt Hat Hjpg Hle)
      as (segments1 & has1 & Hstep & Hsrc).
    cbn [foldl]. rewrite Hstep.
    destruct (IH segments1 (m_end mt) has1 Hats Hjpgs Hord Hend)
      as (segments' & last' & has' & Hfold & Hb & Hsrc').
    eexists _, _, _. split; [exact Hfold|]. split; [lia|].
    rewrite Hsrc', Hsrc, <- app_assoc. f_equal. apply slice_app. lia.
Qed.

Lemma loop_merged self (c : text) ms :
  forall st, merged (fst (fst st)) = true ->
             merged (fst (fst (foldl (step self c) st ms))) = true.
Proof.
  induction ms as [|mt ms IH]; intros st Hm; [done|].
  cbn [foldl]. by apply IH, step_merged.
Qed.
End SegmentFacts.

(** X14. The items that [_parse_images] returns never have two text items
    in a row: text is merged into the text item before it. *)
Theorem parse_images_merges_text
    (self : ImageParsingHistoryProcessor.t) (c : text) :
  merged (ImageParsingHistoryProcessor._parse_images self c) = true.
Proof.
  unfold ImageParsingHistoryProcessor._parse_images.
  pose proof (SegmentFacts.loop_merged self c
                (finditer NOFLAG c ImageParsingHistoryProcessor._pattern)
                ([], 0%nat, false) eq_refl) as H.
  destruct (foldl _ _ _) as [[segments last_end] has_images].
  destruct has_images; [|done]. by apply SegmentFacts.merged_add_text.
Qed.

(** X15. Image segmentation loses no text.  Whatever the number of images
    and whether their types are allowed or not, the items of
    [_parse_images], read in order with each image item standing for its data
    URI without the "data:" scheme, give back the original text, as long as
    no image has the type "image/jpg" (which is rewritten to "image/jpeg"). *)
Theorem parse_images_round_trip
    (self : ImageParsingHistoryProcessor.t) (c : text) :
  Forall (fun mt => group c mt 3 <> str "image/jpg")
    (finditer NOFLAG c ImageParsingHistoryProcessor._pattern) ->
  source_text (ImageParsingHistoryProcessor._parse_images self c) = c.
Proof.
  intros Hjpg. unfold ImageParsingHistoryProcessor._parse_images.
  destruct (SegmentFacts.loop_source_text self c
              (finditer NOFLAG c ImageParsingHistoryProcessor._pattern)
              [] 0%nat false (finditer_attempts _ _ _) Hjpg
              (finditer_ordered _ _ _) ltac:(lia))
    as (segments & last_end & has_images & -> & Hb & Hsrc).
  destruct has_images.
  - rewrite SegmentFacts.source_text_add_text, Hsrc. cbn [source_text].
    unfold source_text at 1. cbn [fmap list_fmap concat app].
    replace (slice 0 last_end c) with (upto last_end c)
      by (unfold slice, upto; by rewrite Nat.sub_0_r).
    apply take_drop.
  - unfold source_text. cbn. by rewrite app_nil_r.
Qed.

Lemma parse_images_round_trip_witness :
  let c := str "a ![x](data:image/png;base64,AAAA) b ![y](data:text/x;base64,BB) c ![](data:image/webp;base64,C)" in
  length (List.filter is_image
            (ImageParsingHistoryProcessor._parse_images
               ImageParsingHistoryProcessor.defaults c)) = 2%nat
  /\ source_text (ImageParsingHistoryProcessor._parse_images
                    ImageParsingHistoryProcessor.defaults c) = c.
Proof.
  intros c. split; [vm_compute; reflexivity|].
  apply parse_images_round_trip.
  repeat (apply Forall_cons; split; [vm_compute; discriminate|]).
  vm_compute. constructor.
Defined.

(* ================================================================== *)
(** ** Image parsing: which entries it reads, and the images it finds *)

Lemma collect_Raise_elem {A B : Type} (f : A -> Result B) xs err :
  collect f xs = Raise err -> exists x, x ∈ xs /\ f x = Raise err.
Proof.
  induction xs as [|x0 xs IH]; [done|]. rewrite collect_cons.
  destruct (f x0) as [y|e] eqn:Hx.
  - rewrite bind_Ok_l. destruct (collect f xs) as [ys|e] eqn:Hxs; [done|].
    rewrite bind_Raise_l. intros [= ->]. destruct IH as (x & Hin & Hr); [done|].
    exists x. split; [by right|done].
  - rewrite bind_Raise_l. intros [= ->]. exists x0. split; [left|done].
Qed.

Module ImageEntryFacts.
Import ImageParsingHistoryProcessor.

Lemma process_entry_readable self entry entry' :
  _process_entry self entry = Ok entry' -> readable entry.
Proof.
  unfold _process_entry, readable.
  destruct (bool_decide (role entry ∈ ["user"; "tool"]%string)) eqn:Hrole;
    cbn [negb].
  - intros H. right. unfold _get_content_text in H.
    destruct (content entry) as [s|items]; [left; eauto|].
    destruct items as [|[t cc|u cc] [|item items]]; try done.
    right. eauto.
  - intros _. left. by apply bool_decide_eq_false in Hrole.
Qed.

Lemma readable_process_entry self entry :
  readable entry -> exists entry', _process_entry self entry = Ok entry'.
Proof.
  unfold _process_entry, readable.
  destruct (bool_decide (role entry ∈ ["user"; "tool"]%string)) eqn:Hrole;
    cbn [negb]; [|eauto].
  apply bool_decide_eq_true in Hrole.
  intros [H|[[s H]|(t & cc & H)]]; [done| |];
    unfold _get_content_text; rewrite H; cbn;
    match goal with |- context [existsb ?f ?l] => destruct (existsb f l) end;
    eauto.
Qed.

Lemma process_entry_errors self entry err :
  _process_entry self entry = Raise err ->
  err = AssertionError \/ err = KeyError.
Proof.
  unfold _process_entry.
  destruct (bool_decide (role entry ∈ ["user"; "tool"]%string)); cbn [negb];
    [|done].
  unfold _get_content_text. destruct (content entry) as [s|items].
  - rewrite bind_Ok_l. by destruct (existsb _ _).
  - destruct items as [|[t cc|u cc] [|item items]]; cbn;
      try (intros [= <-]; by eauto).
    by destruct (existsb _ _).
Qed.

Lemma filter_image_snoc_text (l : list Segment) t cc :
  List.filter is_image (l ++ [TextSeg t cc]) = List.filter is_image l.
Proof. by rewrite List.filter_app, app_nil_r. Qed.

Lemma filter_image_add_text (segments : list Segment) (t : text) :
  List.filter is_image (add_text segments t) = List.filter is_image segments.
Proof.
  destruct t as [|a t]; [done|].
  destruct (SegmentFacts.add_text_cases segments (a :: t) ltac:(done))
    as [(l & t0 & cc & -> & ->)|[_ ->]];
    by rewrite !filter_image_snoc_text.
Qed.

(** The loop adds one image item for each allowed match, and remembers
    whether there was one. *)
Lemma loop_images self (c : text) ms :
  forall segments last_end has_images,
    exists segments' last_end',
      foldl (step self c) (segments, last_end, has_images) ms
      = (segments', last_end',
         has_images || existsb (allowed_image self c) ms)
      /\ length (List.filter is_image segments')
         = (length (List.filter is_image segments)
            + length (List.filter (allowed_image self c) ms))%nat.
Proof.
  induction ms as [|mt ms IH]; intros segments last_end has_images.
  - eexists _, _. split; [by rewrite orb_false_r|]. simpl. lia.
  - cbn [foldl existsb List.filter]. unfold step at 2.
    fold (allowed_image self c mt).
    destruct (allowed_image self c mt).
    + edestruct IH as (segments' & last' & Hfold & Hn). rewrite Hfold.
      eexists _, _. split; [by rewrite orb_true_r|]. rewrite Hn.
      rewrite filter_image_add_text, List.filter_app, !filter_image_add_text.
      rewrite length_app. simpl. lia.
    + edestruct IH as (segments' & last' & Hfold & Hn). rewrite Hfold.
      eexists _, _. split; [done|]. rewrite Hn.
      by rewrite !filter_image_add_text.
Qed.

Lemma existsb_filter_nil {A : Type} (f : A -> bool) (l : list A) :
  existsb f l = false <-> List.filter f l = [].
Proof.
  induction l as [|a l IH]; [done|]. simpl. destruct (f a); simpl; [|done].
  split; discriminate.
Qed.

Lemma parse_images_count self (c : text) :
  length (List.filter is_image (_parse_images self c))
  = length (List.filter (allowed_image self c) (finditer NOFLAG c _pattern)).
Proof.
  unfold _parse_images.
  destruct (loop_images self c (finditer NOFLAG c _pattern) [] 0%nat false)
    as (segments & last_end & -> & Hn).
  cbn [orb]. destruct (existsb _ _) eqn:Hex.
  - by rewrite filter_image_add_text, Hn.
  - apply existsb_filter_nil in Hex. by rewrite Hex.
Qed.

Lemma existsb_filter_length {A : Type} (f : A -> bool) (l : list A) :
  existsb f l = false <-> length (List.filter f l) = 0%nat.
Proof.
  rewrite existsb_filter_nil. split; [by intros ->|].
  by destruct (List.filter f l).
Qed.

Lemma process_entry_without_image self entry :
  without_allowed_image self entry -> _process_entry self entry = Ok entry.
Proof.
  unfold _process_entry.
  destruct (bool_decide (role entry ∈ ["user"; "tool"]%string)) eqn:Hrole;
    cbn [negb]; [|done].
  apply bool_decide_eq_true in Hrole.
  intros [H|(c & -> & Hnone)]; [done|]. rewrite bind_Ok_l.
  assert (existsb is_image (_parse_images self c) = false) as ->; [|done].
  apply existsb_filter_length. by rewrite parse_images_count, Hnone.
Qed.
End ImageEntryFacts.

(** X16. Image parsing returns exactly for the histories it can read:
    every entry of role "user" or "tool" has a string content or a list
    content of one text item.  It then returns as many entries as it was
    given; otherwise it raises [AssertionError] (a list content whose length
    is not one) or [KeyError] (a single image item). *)
Theorem image_parsing_reads
    (self : ImageParsingHistoryProcessor.t) (history : History) :
  match ImageParsingHistoryProcessor.call self history with
  | Ok history' => Forall readable history /\ length history' = length history
  | Raise err =>
      ~ Forall readable history /\ (err = AssertionError \/ err = KeyError)
  end.
Proof.
  unfold ImageParsingHistoryProcessor.call.
  destruct (collect _ history) as [history'|err] eqn:Hc.
  - split; [|by eapply collect_Ok_length].
    apply Forall_forall. intros entry Hin.
    apply list_elem_of_lookup in Hin as [i Hi].
    destruct (collect_Ok_lookup _ _ _ _ _ Hc Hi) as (entry' & He & _).
    by eapply ImageEntryFacts.process_entry_readable.
  - apply collect_Raise_elem in Hc as (entry & Hin & Hr). split.
    + intros Hall. rewrite Forall_forall in Hall.
      destruct (ImageEntryFacts.readable_process_entry self entry (Hall _ Hin))
        as [entry' He].
      congruence.
    + by eapply ImageEntryFacts.process_entry_errors.
Qed.

Example image_parsing_reads_example :
  ImageParsingHistoryProcessor.call ImageParsingHistoryProcessor.defaults
    [Sample.message "user" (str "a");
     set_content (Sample.message "tool" (str "b"))
       (Segs [TextSeg (str "x") None; TextSeg (str "y") None])]
  = Raise AssertionError
  /\ ImageParsingHistoryProcessor.call ImageParsingHistoryProcessor.defaults
       [set_content (Sample.message "user" (str "b"))
          (Segs [ImageSeg (str "data:image/png;base64,AAAA") None])]
     = Raise KeyError
  /\ ImageParsingHistoryProcessor.call ImageParsingHistoryProcessor.defaults
       [set_content (Sample.message "assistant" (str "b"))
          (Segs [ImageSeg (str "data:image/png;base64,AAAA") None])]
     = Ok [set_content (Sample.message "assistant" (str "b"))
             (Segs [ImageSeg (str "data:image/png;base64,AAAA") None])].
Proof. repeat split; vm_compute; reflexivity. Qed.

(** X17. [_parse_images] returns one image item for each image of the
    text whose MIME type is allowed (with "image/jpg" read as "image/jpeg"),
    and no other image item. *)
Theorem parse_images_counts_allowed_images
    (self : ImageParsingHistoryProcessor.t) (c : text) :
  length (List.filter is_image (ImageParsingHistoryProcessor._parse_images self c))
  = length (List.filter (allowed_image self c)
              (finditer NOFLAG c ImageParsingHistoryProcessor._pattern)).
Proof. apply ImageEntryFacts.parse_images_count. Qed.

(** X18. Image parsing returns a history as it is when no entry of role
    "user" or "tool" has an image of an allowed type in its text: images of
    other types stay in the text as markdown. *)
Theorem image_parsing_without_allowed_image_is_identity
    (self : ImageParsingHistoryProcessor.t) (history : History) :
  Forall (without_allowed_image self) history ->
  ImageParsingHistoryProcessor.call self history = Ok history.
Proof.
  intros Hall. unfold ImageParsingHistoryProcessor.call.
  rewrite (collect_fmap _ id).
  - by rewrite list_fmap_id.
  - intros entry Hin. rewrite Forall_forall in Hall.
    by apply ImageEntryFacts.process_entry_without_image, Hall.
Qed.

Lemma image_parsing_without_allowed_image_is_identity_witness :
  let history :=
    [Sample.message "user" (str "see ![x](data:text/html;base64,AAAA) here");
     Sample.message "assistant" (str "![y](data:image/png;base64,BBBB)");
     Sample.message "tool" (str "no image")] in
  ImageParsingHistoryProcessor.call ImageParsingHistoryProcessor.defaults history
  = Ok history.
Proof.
  intros history.
  apply (image_parsing_without_allowed_image_is_identity
           ImageParsingHistoryProcessor.defaults history).
  repeat apply Forall_cons_2; [| |right|constructor].
  - right. eexists. split; [reflexivity|]. vm_compute. reflexivity.
  - left. compute_done.
  - eexists. split; [reflexivity|]. vm_compute. reflexivity.
Defined.

(* ================================================================== *)
(** ** Window collapse: one open window for each file *)

Module WindowViewFacts.
Import ClosedWindowHistoryProcessor.

(** The entries appended so far do not matter to a turn of the loop. *)
Lemma step_acc windows acc entry :
  step (windows, acc) entry
  = match step (windows, []) entry with
    | Ok (windows', out) => Ok (windows', acc ++ out)
    | Raise err => Raise err
    end.
Proof.
  unfold step. destruct (negb _); [done|]. destruct (is_demo entry); [done|].
  destruct (content entry) as [c|items]; [|done].
  destruct (1 <=? _)%nat; [|done]. destruct (search _ _ _); [done|].
  by rewrite app_nil_r.
Qed.

Lemma loop_acc entries :
  forall windows acc,
    for_each step entries (windows, acc)
    = match for_each step entries (windows, []) with
      | Ok (windows', out) => Ok (windows', acc ++ out)
      | Raise err => Raise err
      end.
Proof.
  induction entries as [|entry entries IH]; intros windows acc.
  - simpl. by rewrite app_nil_r.
  - rewrite !for_each_cons, (step_acc windows acc).
    destruct (step (windows, []) entry) as [[windows1 out1]|err]; [|done].
    rewrite !bind_Ok_l, (IH windows1 (acc ++ out1)), (IH windows1 out1).
    destruct (for_each step entries (windows1, [])) as [[windows' out]|err];
      [|done].
    by rewrite app_assoc.
Qed.

(** The turn of the loop at an entry that shows the window of [file]. *)
Lemma step_window windows acc entry file :
  window_file entry = Some file ->
  step (windows, acc) entry
  = Ok ({[ file ]} ∪ windows,
        acc ++ [if bool_decide (file ∈ windows) then outdated_entry entry
                else entry]).
Proof.
  unfold window_file, step, outdated_entry.
  destruct (negb _); [done|]. destruct (is_demo entry); [done|].
  destruct (content entry) as [c|items]; [|done].
  destruct (1 <=? _)%nat; [|done]. destruct (search _ _ _); [|done].
  intros [= <-]. by destruct (bool_decide _).
Qed.

(** The turn of the loop at any other entry. *)
Lemma step_no_window windows acc entry windows' acc' :
  window_file entry = None ->
  step (windows, acc) entry = Ok (windows', acc') ->
  windows' = windows /\ (acc' = acc \/ acc' = acc ++ [entry]).
Proof.
  unfold window_file, step.
  destruct (negb _); [intros _ [= <- <-]; auto|].
  destruct (is_demo entry); [intros _ [= <- <-]; auto|].
  destruct (content entry) as [c|items]; [|done].
  destruct (1 <=? _)%nat; [|intros _ [= <- <-]; auto].
  destruct (search _ _ _); [done|]. intros _ [= <- <-]; auto.
Qed.

Lemma window_file_outdated entry file :
  window_file entry = Some file -> window_file (outdated_entry entry) = None.
Proof.
  unfold window_file, outdated_entry.
  destruct (negb _) eqn:Hrole; [done|]. destruct (is_demo entry) eqn:Hdemo; [done|].
  destruct (content entry) as [c|items]; [|done].
  destruct (1 <=? _)%nat eqn:Hn; [|done]. intros _.
  cbn [role is_demo content set_content]. rewrite Hrole, Hdemo.
  rewrite CollapseFacts.collapsed_has_no_window; [done|].
  intros Hnil. by rewrite Hnil in Hn.
Qed.

Lemma step_open_files windows entry windows' out :
  step (windows, []) entry = Ok (windows', out) ->
  windows' = windows ∪ shown entry
  /\ NoDup (open_files out)
  /\ forall file, file ∈ open_files out -> (file ∉ windows) /\ file ∈ windows'.
Proof.
  unfold shown, open_files.
  destruct (window_file entry) as [file|] eqn:Hfile.
  - rewrite (step_window _ _ _ _ Hfile). intros [= <- <-].
    split; [set_solver|]. destruct (bool_decide (file ∈ windows)) eqn:Hin.
    + cbn. rewrite (window_file_outdated _ _ Hfile). cbn.
      split; [constructor|]. intros f Hf. by apply elem_of_nil in Hf.
    + apply bool_decide_eq_false in Hin. cbn. rewrite Hfile. cbn.
      split; [apply NoDup_singleton|].
      intros f Hf. apply list_elem_of_singleton in Hf as ->. set_solver.
  - intros Hs. apply (step_no_window _ _ _ _ _ Hfile) in Hs as [-> [->| ->]];
      cbn; rewrite ?Hfile; cbn;
      (split; [set_solver|]); (split; [constructor|]);
      intros f Hf; by apply elem_of_nil in Hf.
Qed.

Lemma shown_files_cons entry history :
  shown_files (entry :: history) = shown entry ∪ shown_files history.
Proof. reflexivity. Qed.

Lemma shown_files_reverse history :
  shown_files (reverse history) = shown_files history.
Proof.
  unfold shown_files. apply set_eq. intros file.
  rewrite !elem_of_union_list. split; intros (X & HX & Hin); exists X;
    (split; [|done]); rewrite fmap_reverse in *;
    by apply elem_of_reverse.
Qed.

Lemma open_files_app history history' :
  open_files (history ++ history') = open_files history ++ open_files history'.
Proof. apply omap_app. Qed.

Lemma open_files_cons entry history :
  open_files (entry :: history)
  = match window_file entry with
    | Some file => file :: open_files history
    | None => open_files history
    end.
Proof. reflexivity. Qed.

Lemma open_files_reverse history :
  open_files (reverse history) = reverse (open_files history).
Proof.
  induction history as [|entry history IH]; [done|].
  rewrite reverse_cons, open_files_app, IH, !open_files_cons.
  change (open_files []) with (@nil text).
  destruct (window_file entry).
  - by rewrite reverse_cons.
  - by rewrite app_nil_r.
Qed.

(** The loop opens each file at most once, and remembers the files. *)
Lemma loop_open_files entries :
  forall windows windows' out,
    for_each step entries (windows, []) = Ok (windows', out) ->
    windows' = windows ∪ shown_files entries
    /\ NoDup (open_files out)
    /\ forall file, file ∈ open_files out -> (file ∉ windows) /\ file ∈ windows'.
Proof.
  induction entries as [|entry entries IH]; intros windows windows' out.
  - intros [= <- <-]. split; [unfold shown_files; set_solver|].
    split; [constructor|]. intros f Hf. by apply elem_of_nil in Hf.
  - rewrite for_each_cons. intros H.
    apply bind_Ok in H as ([windows1 out1] & Hstep & Hrest).
    rewrite loop_acc in Hrest.
    destruct (for_each step entries (windows1, [])) as [[windows2 out2]|err] eqn:Hl;
      [|done].
    injection Hrest as <- <-.
    apply step_open_files in Hstep as (-> & Hnd1 & Hin1).
    apply IH in Hl as (-> & Hnd2 & Hin2).
    rewrite shown_files_cons, open_files_app.
    split; [set_solver|]. split.
    + apply NoDup_app. split; [done|]. split; [|done].
      intros f Hf1 Hf2. apply Hin1 in Hf1 as [_ Hf1]. apply Hin2 in Hf2 as [Hf2 _].
      done.
    + intros f Hf. apply elem_of_app in Hf as [Hf|Hf].
      * apply Hin1 in Hf. set_solver.
      * apply Hin2 in Hf. set_solver.
Qed.

Lemma window_step_cases windows acc entry :
  if window_unreadable entry
  then step (windows, acc) entry = Raise TypeError
  else exists st', step (windows, acc) entry = Ok st'.
Proof.
  unfold window_unreadable, step.
  destruct (bool_decide (role entry = "user"%string)); cbn [negb andb];
    [|eauto].
  destruct (is_demo entry); cbn [negb andb]; [eauto|].
  destruct (content entry) as [c|items]; [|done].
  destruct (1 <=? _)%nat; [|eauto]. destruct (search _ _ _); eauto.
Qed.

Lemma window_loop_cases entries :
  forall st,
    if existsb window_unreadable entries
    then for_each step entries st = Raise TypeError
    else exists st', for_each step entries st = Ok st'.
Proof.
  induction entries as [|entry entries IH]; intros [windows acc]; [simpl; eauto|].
  rewrite for_each_cons. cbn [existsb].
  pose proof (window_step_cases windows acc entry) as Hs.
  destruct (window_unreadable entry); cbn [orb].
  - by rewrite Hs.
  - destruct Hs as [st1 ->]. rewrite bind_Ok_l. apply IH.
Qed.

Lemma existsb_reverse {A : Type} (f : A -> bool) (l : list A) :
  existsb f (reverse l) = existsb f l.
Proof.
  induction l as [|a l IH]; [done|].
  rewrite reverse_cons, existsb_app, IH. simpl.
  by rewrite orb_false_r, orb_comm.
Qed.

Lemma window_call_cases history :
  if existsb window_unreadable history
  then call history = Raise TypeError
  else exists new_history, call history = Ok new_history.
Proof.
  unfold call. pose proof (window_loop_cases (reverse history) (∅, [])) as H.
  rewrite existsb_reverse in H. destruct (existsb _ _).
  - by rewrite H.
  - destruct H as [st' ->]. rewrite bind_Ok_l. eauto.
Qed.
End WindowViewFacts.

(** X19. Window collapse keeps the newest window of a file and collapses
    the older ones.  An entry that shows a window of [file] comes back as it
    is when no later entry shows a window of the same file, and with its
    window replaced by the "Outdated window" line when one does; the entries
    after it come back as window collapse returns them on their own. *)
Theorem window_collapse_keeps_newest_view
    (older newer : History) (entry : HistoryItem) (file : text)
    (new_history : History) :
  ClosedWindowHistoryProcessor.call (older ++ entry :: newer) = Ok new_history ->
  window_file entry = Some file ->
  exists older' newer',
    ClosedWindowHistoryProcessor.call newer = Ok newer'
    /\ new_history
       = older'
         ++ (if bool_decide (file ∈ shown_files newer) then outdated_entry entry
             else entry)
         :: newer'.
Proof.
  unfold ClosedWindowHistoryProcessor.call. intros H Hfile.
  apply bind_Ok in H as ([windows3 acc3] & Hloop & [= <-]).
  rewrite reverse_app, reverse_cons, <- app_assoc, for_each_app in Hloop.
  apply bind_Ok in Hloop as ([windows1 acc1] & Hnewer & Hloop).
  change ([entry] ++ reverse older) with (entry :: reverse older) in Hloop.
  rewrite for_each_cons, (WindowViewFacts.step_window _ _ _ _ Hfile), bind_Ok_l
    in Hloop.
  rewrite WindowViewFacts.loop_acc in Hloop.
  destruct (for_each _ (reverse older) _) as [[windows' out]|err]; [|done].
  injection Hloop as <- <-.
  pose proof (WindowViewFacts.loop_open_files _ _ _ _ Hnewer) as (-> & _).
  rewrite WindowViewFacts.shown_files_reverse.
  exists (reverse out), (reverse acc1). rewrite Hnewer, bind_Ok_l.
  split; [done|]. cbn [snd].
  rewrite reverse_app, reverse_app, reverse_singleton.
  replace (∅ ∪ shown_files newer) with (shown_files newer) by set_solver.
  done.
Qed.

Lemma window_collapse_keeps_newest_view_witness :
  let view (n : string) :=
    Sample.message "user"
      (str "[File: a.py (2 lines total)]" ++ [LF] ++ str "1:x" ++ [LF]
       ++ str "2:" ++ str n ++ [LF]) in
  exists older' newer',
    ClosedWindowHistoryProcessor.call [view "new"] = Ok newer'
    /\ [Sample.message "assistant" (str "open"); outdated_entry (view "old");
        view "new"]
       = older'
         ++ (if bool_decide (str "a.py" ∈ shown_files [view "new"])
             then outdated_entry (view "old") else view "old")
         :: newer'.
Proof.
  intros view.
  apply (window_collapse_keeps_newest_view
           [Sample.message "assistant" (str "open")] [view "new"] (view "old")
           (str "a.py")
           [Sample.message "assistant" (str "open"); outdated_entry (view "old");
            view "new"]).
  - vm_compute. reflexivity.
  - vm_compute. reflexivity.
Defined.

(** X20. After window collapse no two entries show a window of the same
    file. *)
Theorem window_collapse_one_window_per_file (history new_history : History) :
  ClosedWindowHistoryProcessor.call history = Ok new_history ->
  NoDup (open_files new_history).
Proof.
  unfold ClosedWindowHistoryProcessor.call. intros H.
  apply bind_Ok in H as ([windows' out] & Hloop & [= <-]).
  apply WindowViewFacts.loop_open_files in Hloop as (_ & Hnd & _).
  cbn [snd]. rewrite WindowViewFacts.open_files_reverse.
  by apply NoDup_reverse.
Qed.

Lemma window_collapse_one_window_per_file_witness :
  let view (n : string) :=
    Sample.message "user"
      (str "[File: a.py (2 lines total)]" ++ [LF] ++ str "1:x" ++ [LF]
       ++ str "2:" ++ str n ++ [LF]) in
  open_files [view "old"; view "new"] = [str "a.py"; str "a.py"]
  /\ NoDup (open_files [outdated_entry (view "old"); view "new"]).
Proof.
  intros view. split; [vm_compute; reflexivity|].
  apply (window_collapse_one_window_per_file [view "old"; view "new"]).
  vm_compute. reflexivity.
Defined.

(** X21. Window collapse raises [TypeError] exactly when some user entry
    that is not a demo has a list content; for every other history it
    returns. *)
Theorem window_collapse_raises_on_list_content (history : History) :
  if existsb window_unreadable history
  then ClosedWindowHistoryProcessor.call history = Raise TypeError
  else exists new_history, ClosedWindowHistoryProcessor.call history = Ok new_history.
Proof. apply WindowViewFacts.window_call_cases. Qed.

Example window_collapse_raises_on_list_content_example :
  ClosedWindowHistoryProcessor.call
    [Sample.message "user" (str "a");
     set_content (Sample.message "user" (str "b")) (Segs [TextSeg (str "b") None])]
  = Raise TypeError
  /\ ClosedWindowHistoryProcessor.call
       [set_content (Sample.message "assistant" (str "b"))
          (Segs [TextSeg (str "b") None])]
     = Ok [set_content (Sample.message "assistant" (str "b"))
             (Segs [TextSeg (str "b") None])].
Proof. split; vm_compute; reflexivity. Qed.

(* ================================================================== *)
(** ** Processors one after the other *)

Module PipelineFacts.
Import CacheControlHistoryProcessor.

(** Cache control marks the last entry when it may mark one at all. *)
Lemma last_entry_marked self older entry new_history :
  0 < last_n_messages self ->
  last_n_messages_offset self <= 0 ->
  role entry ∈ tagged_roles self ->
  call_v self (older ++ [entry]) = Ok new_history ->
  exists entry',
    entry' ∈ new_history /\ same_message entry entry' /\ marked_in_place entry'.
Proof.
  intros Hn Hoff Hrole. unfold call_v. intros H.
  apply bind_Ok in H as ([n' acc'] & Hloop & [= <-]).
  rewrite reverse_snoc in Hloop. unfold enumerate in Hloop.
  rewrite enumerate_from_cons, for_each_cons, CacheStoreFacts.step_v_eq in Hloop.
  apply bind_Ok in Hloop as ([n1 acc1] & Hvisit & Hloop).
  apply bind_Ok in Hvisit as ([entry' n2] & Hvisit & [= <- <-]).
  unfold visit in Hvisit.
  assert (tagging self 0 0 (_clear_cache_control entry) = true) as Htag.
  { unfold tagging.
    destruct (CacheMarkFacts.clear_same_message entry) as (-> & _).
    rewrite bool_decide_true by done.
    apply andb_true_intro. split; [apply andb_true_intro; split; [|done]|];
      [apply Z.ltb_lt|apply Z.leb_le]; simpl; lia. }
  rewrite Htag in Hvisit.
  apply bind_Ok in Hvisit as (marked & Hset & [= <- <-]).
  apply CacheMarkFacts.set_after_clear in Hset as (Hmarked & _ & Hsame).
  apply CacheMarkFacts.loop_v_marks in Hloop as (out & -> & _).
  exists marked. split; [|done]. cbn [snd fst].
  apply elem_of_reverse. set_solver.
Qed.

Lemma marked_unreadable entry entry' :
  role entry = "user"%string -> is_demo entry = false ->
  same_message entry entry' -> marked_in_place entry' ->
  window_unreadable entry' = true.
Proof.
  intros Hrole Hdemo (Hr & _ & _ & Hd & _) (item & items & Hc & _).
  unfold window_unreadable. rewrite Hr, Hrole, Hd, Hdemo, Hc.
  by rewrite bool_decide_true.
Qed.

Lemma existsb_elem {A : Type} (f : A -> bool) (l : list A) (x : A) :
  x ∈ l -> f x = true -> existsb f l = true.
Proof.
  intros Hin Hx. apply existsb_exists. exists x. split; [|done].
  by apply list_elem_of_In.
Qed.
End PipelineFacts.

(** X22. Window collapse cannot follow cache control.  When cache control
    may mark user entries ([last_n_messages] positive, no offset, "user" among
    the [tagged_roles]) and the history ends in a user entry that is not a
    demo, the history that cache control returns makes window collapse raise
    [TypeError]: the marked entry has a list content. *)
Theorem window_collapse_after_cache_control_raises
    (self : CacheControlHistoryProcessor.t) (older : History)
    (entry : HistoryItem) (new_history : History) :
  0 < CacheControlHistoryProcessor.last_n_messages self ->
  CacheControlHistoryProcessor.last_n_messages_offset self <= 0 ->
  "user"%string ∈ CacheControlHistoryProcessor.tagged_roles self ->
  role entry = "user"%string ->
  is_demo entry = false ->
  CacheControlHistoryProcessor.call_v self (older ++ [entry]) = Ok new_history ->
  ClosedWindowHistoryProcessor.call new_history = Raise TypeError.
Proof.
  intros Hn Hoff Huser Hrole Hdemo Hcall.
  destruct (PipelineFacts.last_entry_marked self older entry new_history)
    as (entry' & Hin & Hsame & Hmarked); [done|done|by rewrite Hrole|done|].
  pose proof (WindowViewFacts.window_call_cases new_history) as Hcases.
  rewrite (PipelineFacts.existsb_elem _ _ entry' Hin) in Hcases; [done|].
  by eapply PipelineFacts.marked_unreadable.
Qed.

Lemma window_collapse_after_cache_control_raises_witness :
  ClosedWindowHistoryProcessor.call
    [Sample.message "assistant" (str "a"); Sample.message "user" (str "b")]
  = Ok [Sample.message "assistant" (str "a"); Sample.message "user" (str "b")]
  /\ ClosedWindowHistoryProcessor.call
       [Sample.message "assistant" (str "a");
        set_content (Sample.message "user" (str "b"))
          (Segs [TextSeg (str "b") (Some ephemeral)])]
     = Raise TypeError.
Proof.
  split; [vm_compute; reflexivity|].
  apply (window_collapse_after_cache_control_raises
           CacheControlHistoryProcessor.defaults
           [Sample.message "assistant" (str "a")]
           (Sample.message "user" (str "b"))).
  - simpl. lia.
  - simpl. lia.
  - compute_done.
  - reflexivity.
  - reflexivity.
  - vm_compute. reflexivity.
Defined.

(** X23. The image count of [_get_content_stats] after image parsing.  For
    an entry of role "user" or "tool" whose text image parsing can read, the
    entry that [_process_entry] returns has as many images, as
    [_get_content_stats] counts them, as its text has images of an allowed
    type. *)
Theorem image_parsing_stats
    (self : ImageParsingHistoryProcessor.t) (entry : HistoryItem) (c : text) :
  role entry ∈ ["user"; "tool"]%string ->
  _get_content_text entry = Ok c ->
  exists entry',
    ImageParsingHistoryProcessor._process_entry self entry = Ok entry'
    /\ snd (_get_content_stats entry')
       = length (List.filter (allowed_image self c)
                   (finditer NOFLAG c ImageParsingHistoryProcessor._pattern)).
Proof.
  intros Hrole Htext. unfold ImageParsingHistoryProcessor._process_entry.
  rewrite bool_decide_true by done. cbn [negb]. rewrite Htext, bind_Ok_l.
  rewrite <- ImageEntryFacts.parse_images_count.
  destruct (existsb is_image _) eqn:Hex.
  - eexists. split; [done|]. reflexivity.
  - eexists. split; [done|].
    apply ImageEntryFacts.existsb_filter_length in Hex. rewrite Hex.
    unfold _get_content_text in Htext. unfold _get_content_stats.
    destruct (content entry) as [s|items]; [done|].
    by destruct items as [|[t cc|u cc] [|item items]].
Qed.

Lemma image_parsing_stats_witness :
  let entry :=
    Sample.message "user"
      (str "a ![x](data:image/png;base64,AAAA) b ![y](data:text/x;base64,BB) c ![](data:image/jpg;base64,C)") in
  exists entry',
    ImageParsingHistoryProcessor._process_entry
      ImageParsingHistoryProcessor.defaults entry = Ok entry'
    /\ snd (_get_content_stats entry') = 2%nat.
Proof.
  intros entry.
  destruct (image_parsing_stats ImageParsingHistoryProcessor.defaults entry
              (str "a ![x](data:image/png;base64,AAAA) b ![y](data:text/x;base64,BB) c ![](data:image/jpg;base64,C)"))
    as (entry' & Hp & Hn); [compute_done|reflexivity|].
  exists entry'. split; [exact Hp|]. rewrite Hn. vm_compute. reflexivity.
Defined.
